(** * DDKCORE: block pipeline, transaction service and slot clock

    A shallow embedding of
    - [src/unnamed/part_000]            (SlotService),
    - [src/core/service/transaction.ts] (TransactionService),
    - [src/unnamed/part_003]            (blocks Process: generation, fork
                                         recovery, loading from peers),
    - [src/shared/repository/transaction/asset/vote.ts] (the vote asset),
    - [src/helpers/referal.js]          (the referral list),
    together with the properties the specification states about them and
    further properties of the code.

    JavaScript numbers that the code uses as integers (amounts, fees, epoch
    seconds, heights, addresses) are modelled as [Z]; the interpretation is
    exact as long as the values stay in the safe-integer range of a double.
    Where a sum, a product or a quotient of such numbers can leave that range
    the arithmetic of the doubles is modelled ([Ieee]). Strings are
    [string]; a field that the code may find [undefined] is an [option]. *)

From Stdlib Require Import ZArith List String Ascii Bool Lia.
From stdpp Require Import base decidable option list strings pretty gmap.

Import ListNotations.
Local Open Scope Z_scope.
Local Open Scope list_scope.

(* ====================================================================== *)
(** ** JavaScript values: exceptions and truthiness                        *)
(* ====================================================================== *)

(** A call either returns or throws; [Thrown] carries the error message. *)
Inductive Outcome (A : Type) : Type :=
| Returned (a : A)
| Thrown (e : string).
Arguments Returned {A} a.
Arguments Thrown {A} e.

Definition bindO {A B} (m : Outcome A) (k : A -> Outcome B) : Outcome B :=
  match m with
  | Returned a => k a
  | Thrown e => Thrown e
  end.

Declare Scope outcome_scope.
Delimit Scope outcome_scope with outcome.
Notation "'do' x <- m ; k" := (bindO m (fun x => k))
  (at level 10, x name, m at level 100, k at level 200) : outcome_scope.
Notation "'do' ' p <- m ; k" := (bindO m (fun x => match x with p => k end))
  (at level 10, p pattern, m at level 100, k at level 200) : outcome_scope.
Local Open Scope outcome_scope.

Module Js.

(** [!n] is true exactly for [0] (and NaN, which integers never are). *)
Definition truthyNum (n : Z) : bool := negb (n =? 0).

(** [!s] is true exactly for the empty string. *)
Definition truthyStr (s : string) : bool :=
  match s with
  | EmptyString => false
  | String _ _ => true
  end.

(** A possibly [undefined] string. *)
Definition truthyOptStr (s : option string) : bool :=
  match s with
  | Some s => truthyStr s
  | None => false
  end.

(** [a > b] on two strings: lexicographic on the code units. *)
Fixpoint strGt (a b : string) : bool :=
  match a, b with
  | EmptyString, _ => false
  | String _ _, EmptyString => true
  | String x a', String y b' =>
      if (nat_of_ascii y <? nat_of_ascii x)%nat then true
      else if (nat_of_ascii x <? nat_of_ascii y)%nat then false
      else strGt a' b'
  end.

(** [a === b] on possibly [undefined] strings. *)
Definition optStrEq (a b : option string) : bool :=
  match a, b with
  | Some x, Some y => String.eqb x y
  | None, None => true
  | _, _ => false
  end.

(** [x % y] on integers: the remainder takes the sign of the dividend and
    is NaN for [y = 0]; [None] stands for NaN. *)
Definition rem (x y : Z) : option Z :=
  if y =? 0 then None else Some (Z.rem x y).

(** [String(n)] for an integer: decimal digits up to 1e21, exponent
    notation from there on. The two tests of the amount check look for a
    dot and for an [e] in that text. *)
Definition numberTextHasDot (n : Z) : bool := false.
Definition numberTextHasE (n : Z) : bool := 10 ^ 21 <=? Z.abs n.

End Js.

(* ====================================================================== *)
(** ** JavaScript numbers: the arithmetic of doubles on integers           *)
(* ====================================================================== *)

(** A JavaScript number is an IEEE 754 double. The integers among the
    doubles are modelled by their value in [Z]: every integer up to 2^53 in
    magnitude is a double, above that only those with 53 significant bits.
    The result of an operation is the double nearest to the exact result,
    with a tie going to the even significand. The magnitudes that occur are
    far below 2^1024, so that Infinity is left out. *)
Module Ieee.

(** [Number.MAX_SAFE_INTEGER]. *)
Definition MAX_SAFE_INTEGER : Z := 2 ^ 53 - 1.

(** [Number.isSafeInteger(z)]. *)
Definition safe (z : Z) : Prop := - MAX_SAFE_INTEGER <= z <= MAX_SAFE_INTEGER.

(** The integer nearest to [n / d], for [0 <= n] and [0 < d]; of two that
    are equally near, the even one. *)
Definition nearest (n d : Z) : Z :=
  let q := n / d in
  let r := n mod d in
  if (d <? 2 * r) || ((2 * r =? d) && Z.odd q) then q + 1 else q.

(** The binary exponent of the quotient [a / b] of two positive integers:
    the [k] with [2^k <= a / b < 2^(k+1)]. *)
Definition exponent (a b : Z) : Z :=
  let k := Z.log2 a - Z.log2 b in
  if b * 2 ^ Z.max k 0 <=? a * 2 ^ Z.max (- k) 0 then k else k - 1.

(** [Math.floor(a / b)] for integers [a] and [0 < b]: the quotient is
    rounded to the 53 significant bits of a double, at the scale [2^-j] that
    its exponent gives, and the double is rounded down to an integer. *)
Definition floorDiv (a b : Z) : Z :=
  if a =? 0 then 0
  else
    let j := 52 - exponent (Z.abs a) b in
    if 0 <=? j then (Z.sgn a * nearest (Z.abs a * 2 ^ j) b) / 2 ^ j
    else Z.sgn a * nearest (Z.abs a) (b * 2 ^ (- j)) * 2 ^ (- j).

(** The double nearest to the integer [z]. *)
Definition round (z : Z) : Z := floorDiv z 1.

(** [a + b], [a - b] and [a * b] on integer doubles: the exact result,
    rounded once. *)
Definition add (a b : Z) : Z := round (a + b).
Definition sub (a b : Z) : Z := round (a - b).
Definition mul (a b : Z) : Z := round (a * b).

End Ieee.

(* ====================================================================== *)
(** ** shared/model/response: ResponseEntity                               *)
(* ====================================================================== *)

Module ResponseEntity.

(** Modelled from the spec: the class [ResponseEntity] is imported from
    [shared/model/response], which is not among the sources. Section 7:
    verification returns a structured failure value carrying a list of
    messages; the response is a success when that list is empty. *)
Record t (T : Type) : Type := mk { data : option T; errors : list string }.
Arguments mk {T} data errors.
Arguments data {T} _.
Arguments errors {T} _.

Definition success {T} (r : t T) : bool :=
  match errors r with
  | [] => true
  | _ :: _ => false
  end.

(** [new ResponseEntity()] and the literal [{ success: true }]. *)
Definition ok {T} : t T := mk None [].
(** [new ResponseEntity({ errors })]. *)
Definition fail {T} (errs : list string) : t T := mk None errs.
(** [new ResponseEntity({ data })]. *)
Definition of_data {T} (d : T) : t T := mk (Some d) [].

End ResponseEntity.

(* ====================================================================== *)
(** ** SlotService ([src/unnamed/part_000])                                *)
(* ====================================================================== *)

Module SlotService.

(** [private interval: number = 10]. *)
Definition interval : Z := 10.

(** [SECOND] of [core/util/const]: milliseconds in a second. *)
Definition SECOND : Z := 1000.

(** [Math.floor((time - t) / SECOND)], [t] the configured epoch start. *)
Definition getEpochTime (epochStart time : Z) : Z := (time - epochStart) / SECOND.

Definition getTime (epochStart time : Z) : Z := getEpochTime epochStart time.

(** [Math.floor(d.getTime() / SECOND) * SECOND + epochTime * SECOND], as
    long as the products and the sum are safe integers; beyond that see
    [SlotServiceIeee.getRealTime]. *)
Definition getRealTime (epochStart epochTime : Z) : Z :=
  epochStart / SECOND * SECOND + epochTime * SECOND.

(** [Math.floor(epochTime / this.interval)]; [Z.div] rounds down. *)
Definition getSlotNumber (epochTime : Z) : Z := epochTime / interval.

(** [slot * this.interval], as long as the product is a safe integer;
    beyond that see [SlotServiceIeee.getSlotTime]. *)
Definition getSlotTime (slot : Z) : Z := slot * interval.

Definition getNextSlot (epochStart now : Z) : Z :=
  getSlotNumber (getTime epochStart now) + 1.

Definition getLastSlot (activeDelegates nextSlot : Z) : Z :=
  nextSlot + activeDelegates.

End SlotService.

(** [SlotService] on the doubles of JavaScript: every product, sum and
    quotient is rounded as the code rounds it. The functions of
    [SlotService] above are these wherever nothing is rounded (lemmas
    [getSlotTime_exact], [getSlotNumber_exact], [getEpochTime_exact] and
    [getRealTime_exact]). *)
Module SlotServiceIeee.

(** [Math.floor((time - t) / SECOND)]. *)
Definition getEpochTime (epochStart time : Z) : Z :=
  Ieee.floorDiv (Ieee.sub time epochStart) SlotService.SECOND.

Definition getTime (epochStart time : Z) : Z := getEpochTime epochStart time.

(** [Math.floor(d.getTime() / SECOND) * SECOND + epochTime * SECOND]. *)
Definition getRealTime (epochStart epochTime : Z) : Z :=
  Ieee.add (Ieee.mul (Ieee.floorDiv epochStart SlotService.SECOND) SlotService.SECOND)
           (Ieee.mul epochTime SlotService.SECOND).

(** [Math.floor(epochTime / this.interval)]. *)
Definition getSlotNumber (epochTime : Z) : Z :=
  Ieee.floorDiv epochTime SlotService.interval.

(** [slot * this.interval]. *)
Definition getSlotTime (slot : Z) : Z := Ieee.mul slot SlotService.interval.

End SlotServiceIeee.

(* ====================================================================== *)
(** ** shared/model: accounts and transactions                             *)
(* ====================================================================== *)

Module Account.
Record t : Type := mk {
  address : Z;
  publicKey : string;
  actualBalance : Z;
  totalStakedAmount : Z
}.

Definition setActualBalance (a : t) (b : Z) : t :=
  mk (address a) (publicKey a) b (totalStakedAmount a).
End Account.

(** The asset of a transaction. A SEND carries an [IAssetTransfer]; the
    other types carry assets that only their own service reads, kept here as
    an opaque payload. *)
Inductive Asset : Type :=
| AssetTransfer (recipientAddress amount : Z)
| AssetOther (payload : list Z).

Module Transaction.
Record t : Type := mk {
  id : option string;
  blockId : option string;
  type : Z;
  createdAt : Z;
  senderPublicKey : string;
  senderAddress : Z;
  signature : option string;
  secondSignature : option string;
  salt : string;
  fee : Z;
  asset : Asset
}.

Definition setFee (trs : t) (f : Z) : t :=
  mk (id trs) (blockId trs) (type trs) (createdAt trs) (senderPublicKey trs)
     (senderAddress trs) (signature trs) (secondSignature trs) (salt trs) f
     (asset trs).

Definition setId (trs : t) (i : string) : t :=
  mk (Some i) (blockId trs) (type trs) (createdAt trs) (senderPublicKey trs)
     (senderAddress trs) (signature trs) (secondSignature trs) (salt trs)
     (fee trs) (asset trs).

(** [(<IAssetTransfer><Object>trs.asset).amount]: the cast does not check
    anything, so the field is [undefined] on any other asset. *)
Definition assetAmount (trs : t) : option Z :=
  match asset trs with
  | AssetTransfer _ amount => Some amount
  | AssetOther _ => None
  end.

Definition assetRecipientAddress (trs : t) : option Z :=
  match asset trs with
  | AssetTransfer recipient _ => Some recipient
  | AssetOther _ => None
  end.
End Transaction.

(* ====================================================================== *)
(** ** Sorting with a comparison of the code                               *)
(* ====================================================================== *)

(** [Array.prototype.sort] with a comparison function, as a stable
    insertion sort: [before a b] says that [a] may stand in front of [b]. *)
Module ListSort.
Section Sort.
Context {A : Type} (before : A -> A -> bool).

Fixpoint insert (a : A) (l : list A) : list A :=
  match l with
  | [] => [a]
  | x :: rest => if before a x then a :: l else x :: insert a rest
  end.

Definition sort (l : list A) : list A := foldr insert [] l.
End Sort.
End ListSort.

(* ====================================================================== *)
(** ** Byte buffers                                                        *)
(* ====================================================================== *)

Module Buffer.

(** A Node [Buffer]: bytes as integers in [0, 255]. *)
Definition t : Type := list Z.

(** [Buffer.alloc(n)]: [n] zero bytes. *)
Definition alloc (n : nat) : t := replicate n 0.

Inductive Encoding : Type := Utf8 | Hex.

Definition hexDigit (c : ascii) : option Z :=
  let n := Z.of_nat (nat_of_ascii c) in
  if (48 <=? n) && (n <=? 57) then Some (n - 48)
  else if (97 <=? n) && (n <=? 102) then Some (n - 87)
  else if (65 <=? n) && (n <=? 70) then Some (n - 55)
  else None.

(** Hex decoding as [hexWrite] does it: pairs of digits, stopping at the
    first pair that is not hexadecimal (or at a dangling last digit). *)
Fixpoint hexDecode (s : string) : list Z :=
  match s with
  | String a (String b rest) =>
      match hexDigit a, hexDigit b with
      | Some x, Some y => (16 * x + y) :: hexDecode rest
      | _, _ => []
      end
  | _ => []
  end.

(** The text of a string as bytes. A [string] is a sequence of 8-bit
    characters, so the salt (hexadecimal text) is its own UTF-8. *)
Fixpoint utf8 (s : string) : list Z :=
  match s with
  | EmptyString => []
  | String c rest => Z.of_nat (nat_of_ascii c) :: utf8 rest
  end.

Definition decode (enc : Encoding) (s : string) : list Z :=
  match enc with
  | Utf8 => utf8 s
  | Hex => hexDecode s
  end.

Definition hexChar (n : Z) : ascii :=
  ascii_of_nat (Z.to_nat (if n <? 10 then n + 48 else n + 87)).

(** [buf.toString('hex')]. *)
Fixpoint toHex (bs : list Z) : string :=
  match bs with
  | [] => EmptyString
  | b :: rest => String (hexChar (b / 16)) (String (hexChar (b mod 16)) (toHex rest))
  end.

(** Overwrite [buf] from [offset] on with [d], which fits. *)
Definition blit (buf : t) (offset : nat) (d : list Z) : t :=
  take offset buf ++ d ++ drop (offset + length d) buf.

(** [buf.write(string, offset, length, encoding)]: [length] is cut down to
    the room that is left behind [offset]; with no room at all (the offset
    lies behind the end) a non-empty string is refused with a RangeError. *)
Definition write (buf : t) (s : string) (offset len : nat) (enc : Encoding)
  : Outcome t :=
  if (length buf <? offset)%nat && Js.truthyStr s
  then Thrown "RangeError: Attempt to write outside buffer bounds"
  else Returned (blit buf offset (take (len `min` (length buf - offset)) (decode enc s))).

(** The [w] low bytes of [v], least significant first (two's complement
    for a negative [v]). *)
Fixpoint le (w : nat) (v : Z) : list Z :=
  match w with
  | O => []
  | S w' => Z.land v 255 :: le w' (Z.shiftr v 8)
  end.

End Buffer.

(** The helper object [BUFFER] of [core/util/buffer] is not among the
    sources. The widths of the integer fields follow from their types; the
    widths [LENGTH.HEX] and [LENGTH.DOUBLE_HEX] stay parameters (see
    [Env]). *)
Module BUFFER.

Definition LENGTH_BYTE : nat := 1.
Definition LENGTH_UINT32 : nat := 4.
Definition LENGTH_INT64 : nat := 8.

(** Modelled from the spec: the writers of [BUFFER] are not among the
    sources. Section 4.1: the integer fields are of fixed width and
    little-endian. A writer puts its field at [offset] and returns the offset
    behind it, as [getBytes] uses the result; a field that does not fit in
    the buffer is a RangeError, as for Node's own writers. *)
Definition writeFixed (bytes : Buffer.t) (field : list Z) (offset : nat)
  : Outcome (Buffer.t * nat) :=
  if (length bytes <? offset + length field)%nat
  then Thrown "RangeError: offset is out of range"
  else Returned (Buffer.blit bytes offset field, (offset + length field)%nat).

(** Modelled from the spec: [BUFFER.writeInt8], one byte (type). *)
Definition writeInt8 (bytes : Buffer.t) (value : Z) (offset : nat) :=
  writeFixed bytes (Buffer.le LENGTH_BYTE value) offset.

(** Modelled from the spec: [BUFFER.writeInt32LE], four bytes, little-endian
    (createdAt). *)
Definition writeInt32LE (bytes : Buffer.t) (value : Z) (offset : nat) :=
  writeFixed bytes (Buffer.le LENGTH_UINT32 value) offset.

(** Modelled from the spec: [BUFFER.writeUInt64LE], eight bytes,
    little-endian (recipientAddress, amount). *)
Definition writeUInt64LE (bytes : Buffer.t) (value : Z) (offset : nat) :=
  writeFixed bytes (Buffer.le LENGTH_INT64 value) offset.

(** Modelled from the spec: [BUFFER.writeNotNull], a key given in
    hexadecimal, written as raw bytes into a field of [len] bytes that stays
    zero when there is no key. *)
Definition writeNotNull (bytes : Buffer.t) (value : string) (offset len : nat)
  : Outcome (Buffer.t * nat) :=
  if Js.truthyStr value
  then do b <- Buffer.write bytes value offset len Buffer.Hex;
       Returned (b, (offset + len)%nat)
  else Returned (bytes, (offset + len)%nat).

End BUFFER.

(* ====================================================================== *)
(** ** core/service/transaction.ts                                         *)
(* ====================================================================== *)

(** [interface IAssetService<T>]: what the service of one transaction type
    offers. The methods that change the sender return the changed account. *)
Module IAssetService.
Record t : Type := mk {
  getBytes : Transaction.t -> Buffer.t;
  validate : Transaction.t -> Account.t -> ResponseEntity.t unit;
  verifyUnconfirmed : Transaction.t -> Account.t -> ResponseEntity.t unit;
  calculateUndoUnconfirmed : Transaction.t -> Account.t -> Account.t;
  calculateFee : Transaction.t -> Account.t -> Z
}.
End IAssetService.

Record IKeyPair : Type := { kp_publicKey : Buffer.t; kp_privateKey : Buffer.t }.

(** [interface IFunctionResponse]. *)
Record IFunctionResponse : Type := { fr_success : bool; fr_errors : list string }.

(** What [transaction.ts] imports and is not among the sources: the enum
    member [TransactionType.SEND], the genesis block id of the configuration,
    the table of the services, the transaction repository, the hash, the
    signature scheme and the sizes of the header. *)
Module Env.
Record t : Type := mk {
  SEND : Z;
  genesisBlockId : string;
  getTransactionServiceByType : Z -> option IAssetService.t;
  isExist : option string -> bool;
  sha256 : Buffer.t -> Buffer.t;
  edSign : Buffer.t -> IKeyPair -> Buffer.t;
  TRANSACTION_BUFFER_SIZE : nat;
  LENGTH_HEX : nat;
  LENGTH_DOUBLE_HEX : nat
}.
End Env.

Module TransactionService.
Import Transaction.

Definition optText (s : option string) : string :=
  match s with
  | Some s => s
  | None => "undefined"
  end.

Definition numText (n : option Z) : string :=
  match n with
  | Some n => pretty n
  | None => "NaN"
  end.

(** [getTransactionServiceByType(type)], then a method call on the result:
    a TypeError when the table has no service for the type. *)
Definition serviceOf (env : Env.t) (type : Z) : Outcome IAssetService.t :=
  match Env.getTransactionServiceByType env type with
  | Some service => Returned service
  | None => Thrown "TypeError: Cannot read property of undefined"
  end.

Definition calculateUndoUnconfirmed (env : Env.t) (trs : t) (sender : Account.t)
  : Outcome Account.t :=
  do service <- serviceOf env (type trs);
  Returned (IAssetService.calculateUndoUnconfirmed service trs sender).

Definition calculateUnconfirmedFee (env : Env.t) (trs : t) (sender : Account.t)
  : Outcome Z :=
  do service <- serviceOf env (type trs);
  Returned (IAssetService.calculateFee service trs sender).

Definition notEnoughMoney (sender : Account.t) (amount : option Z) : string :=
  "Not enough money on account " +:+ pretty (Account.address sender)
    +:+ ": balance " +:+ pretty (Account.actualBalance sender)
    +:+ ", amount: " +:+ numText amount.

(** [amount] is [None] for NaN, which [asset.amount + trs.fee] is when the
    asset has no amount; [>=] is false on NaN. *)
Definition checkBalance (env : Env.t) (amount : option Z) (trs : t)
    (sender : Account.t) : ResponseEntity.t unit :=
  if Js.optStrEq (blockId trs) (Some (Env.genesisBlockId env)) then ResponseEntity.ok
  else
    match amount with
    | Some a =>
        if a <=? Account.actualBalance sender then ResponseEntity.ok
        else ResponseEntity.fail [notEnoughMoney sender amount]
    | None => ResponseEntity.fail [notEnoughMoney sender amount]
    end.

Definition isConfirmed (env : Env.t) (trs : t) : bool := Env.isExist env (id trs).

Definition getBytes (env : Env.t) (trs : t) : Outcome Buffer.t :=
  do transactionService <- serviceOf env (type trs);
  let assetBytes := IAssetService.getBytes transactionService trs in
  let bytes := Buffer.alloc (Env.TRANSACTION_BUFFER_SIZE env) in
  let offset := 0%nat in
  do bytes <- Buffer.write bytes (salt trs) offset (Env.LENGTH_HEX env) Buffer.Utf8;
  let offset := (offset + Env.LENGTH_HEX env)%nat in
  do ' (bytes, offset) <- BUFFER.writeInt8 bytes (type trs) offset;
  do ' (bytes, offset) <- BUFFER.writeInt32LE bytes (createdAt trs) offset;
  do ' (bytes, offset) <-
    BUFFER.writeNotNull bytes (senderPublicKey trs) offset (Env.LENGTH_HEX env);
  do ' (bytes, offset) <-
    (if type trs =? Env.SEND env then
       match asset trs with
       | AssetTransfer recipientAddress amount =>
           do ' (bytes, offset) <- BUFFER.writeUInt64LE bytes recipientAddress offset;
           BUFFER.writeUInt64LE bytes amount offset
       | AssetOther _ => Thrown "TypeError: value is undefined"
       end
     else Returned (bytes, (offset + (BUFFER.LENGTH_INT64 + BUFFER.LENGTH_INT64))%nat));
  do bytes <-
    (if Js.truthyOptStr (signature trs)
     then Buffer.write bytes (optText (signature trs)) offset
            (Env.LENGTH_DOUBLE_HEX env) Buffer.Hex
     else Returned bytes);
  let offset := (offset + Env.LENGTH_DOUBLE_HEX env)%nat in
  do bytes <-
    (if Js.truthyOptStr (secondSignature trs)
     then Buffer.write bytes (optText (secondSignature trs)) offset
            (Env.LENGTH_DOUBLE_HEX env) Buffer.Hex
     else Returned bytes);
  Returned (bytes ++ assetBytes).

Definition getHash (env : Env.t) (trs : t) : Outcome Buffer.t :=
  do bytes <- getBytes env trs;
  Returned (Env.sha256 env bytes).

Definition getId (env : Env.t) (trs : t) : Outcome string :=
  do hash <- getHash env trs;
  Returned (Buffer.toHex hash).

Definition sign (env : Env.t) (keyPair : IKeyPair) (trs : t) : Outcome string :=
  do hash <- getHash env trs;
  Returned (Buffer.toHex (Env.edSign env hash keyPair)).

(** [validate]: [trs] is [None] for a missing transaction. *)
Definition validate (env : Env.t) (trs : option t) (sender : Account.t)
  : Outcome (ResponseEntity.t unit) :=
  match trs with
  | None => Returned (ResponseEntity.fail ["Missing transaction"])
  | Some trs =>
      let errors : list string := [] in
      let errors := if Js.truthyOptStr (id trs) then errors else errors ++ ["Missing id"] in
      let errors := if Js.truthyNum (type trs) then errors else errors ++ ["Missing type"] in
      let errors :=
        if Js.truthyNum (senderAddress trs) then errors
        else errors ++ ["Missing sender address"] in
      let errors :=
        if Js.truthyStr (senderPublicKey trs) then errors
        else errors ++ ["Missing sender public key"] in
      let errors :=
        if Js.truthyOptStr (signature trs) then errors
        else errors ++ ["Missing signature"] in
      let errors := if Js.truthyNum (fee trs) then errors else errors ++ ["Missing fee"] in
      let errors := if Js.truthyStr (salt trs) then errors else errors ++ ["Missing salt"] in
      let errors :=
        if Js.truthyNum (createdAt trs) then errors
        else errors ++ ["Missing creation time"] in
      do errors <-
        (if type trs =? Env.SEND env then
           match assetAmount trs with
           | Some amount =>
               let errors :=
                 if Js.truthyNum amount then errors else errors ++ ["Missing amount"] in
               Returned
                 (if (amount <? 0) || Js.numberTextHasDot amount || Js.numberTextHasE amount
                  then errors ++ ["Invalid amount"] else errors)
           | None => Thrown "TypeError: Cannot read property 'toString' of undefined"
           end
         else Returned errors);
      do service <- serviceOf env (type trs);
      let verifyResponse := IAssetService.validate service trs sender in
      let errors :=
        if ResponseEntity.success verifyResponse then errors
        else errors ++ ResponseEntity.errors verifyResponse in
      Returned (ResponseEntity.fail errors)
  end.

(** The three verifiers are stubs: each is the single statement
    [return undefined;]. [None] is [undefined]. *)
Definition verifyBytes (bytes : Buffer.t) (publicKey signature : string)
  : option IFunctionResponse := None.

Definition verifySecondSignature (trs : t) (publicKey signature : string)
  : option IFunctionResponse := None.

Definition verifySignature (trs : t) (publicKey signature : string)
  : option IFunctionResponse := None.

(** The head of [verifyUnconfirmed]: the fee is computed again (the fee of
    a vote depends on the staked amount), and when it changed the
    transaction gets the new fee and, from it, a new id. *)
Definition refreshFee (env : Env.t) (trs : t) (sender : Account.t) : Outcome t :=
  do fee <- calculateUnconfirmedFee env trs sender;
  if fee =? Transaction.fee trs then Returned trs
  else
    let trs := setFee trs fee in
    do i <- getId env trs;
    Returned (setId trs i).

(** [verifyUnconfirmed] changes the fee and the id of [trs] in place; the
    transaction it leaves behind is returned with the response. The sum
    [asset.amount + trs.fee] is a sum of doubles. *)
Definition verifyUnconfirmed (env : Env.t) (trs : t) (sender : Account.t)
    (checkExists : bool) : Outcome (t * ResponseEntity.t unit) :=
  do trs <- refreshFee env trs sender;
  if checkExists && isConfirmed env trs
  then Returned (trs, ResponseEntity.fail
                        ["Transaction is already confirmed: " +:+ optText (id trs)])
  else
    let senderBalanceResponse :=
      if type trs =? Env.SEND env
      then checkBalance env (option_map (fun amount => Ieee.add amount (Transaction.fee trs))
                                        (assetAmount trs)) trs sender
      else ResponseEntity.ok in
    if negb (ResponseEntity.success senderBalanceResponse)
    then Returned (trs, senderBalanceResponse)
    else
      do service <- serviceOf env (type trs);
      Returned (trs, IAssetService.verifyUnconfirmed service trs sender).

End TransactionService.


(* ====================================================================== *)
(** ** Sender conflicts: checkSenderTransactions                           *)
(* ====================================================================== *)

(** The result of a run that is cut off after a number of nested calls. *)
Inductive Run (A : Type) : Type :=
| Done (a : A)
| Raised (e : string)
| OutOfFuel.
Arguments Done {A} a.
Arguments Raised {A} e.
Arguments OutOfFuel {A}.

Definition bindR {A B} (m : Run A) (k : A -> Run B) : Run B :=
  match m with
  | Done a => k a
  | Raised e => Raised e
  | OutOfFuel => OutOfFuel
  end.

Definition liftO {A} (m : Outcome A) : Run A :=
  match m with
  | Returned a => Done a
  | Thrown e => Raised e
  end.

(** What [checkSenderTransactions] reaches besides the services: the
    verification of the queue and the order of [core/util/transaction], a
    comparison function as [sort] takes it (negative: the first argument
    comes first). *)
Module PoolEnv.
Record t : Type := mk {
  queueVerify : Transaction.t -> Account.t -> ResponseEntity.t unit;
  transactionSortFunc : Transaction.t -> Transaction.t -> Z
}.
End PoolEnv.

(** The objects [checkSenderTransactions] works on. Accounts are objects
    shared between the repository and [accountsMap], so there is one store
    of accounts by address, and [accountsMap] is the set of the addresses it
    holds. [undone] lists the transactions [calculateUndoUnconfirmed] was
    called on, in the order of the calls. *)
Module Store.
Record t : Type := mk {
  pool : list Transaction.t;
  queue : list Transaction.t;
  accounts : gmap Z Account.t;
  verifiedTransactions : gset (option string);
  accountsMap : gset Z;
  undone : list (option string)
}.

Definition setPool (s : t) (p : list Transaction.t) : t :=
  mk p (queue s) (accounts s) (verifiedTransactions s) (accountsMap s) (undone s).

Definition setQueue (s : t) (q : list Transaction.t) : t :=
  mk (pool s) q (accounts s) (verifiedTransactions s) (accountsMap s) (undone s).

(** A change of the account object that is kept at [address]. *)
Definition setAccount (s : t) (address : Z) (a : Account.t) : t :=
  mk (pool s) (queue s) (<[address := a]> (accounts s))
     (verifiedTransactions s) (accountsMap s) (undone s).

Definition addVerified (s : t) (i : option string) : t :=
  mk (pool s) (queue s) (accounts s) ({[i]} ∪ verifiedTransactions s)
     (accountsMap s) (undone s).

Definition addToAccountsMap (s : t) (address : Z) : t :=
  mk (pool s) (queue s) (accounts s) (verifiedTransactions s)
     ({[address]} ∪ accountsMap s) (undone s).

Definition logUndo (s : t) (i : option string) : t :=
  mk (pool s) (queue s) (accounts s) (verifiedTransactions s) (accountsMap s)
     (undone s ++ [i]).
End Store.

(** [TransactionPool] is not among the sources; the pool is the list of its
    transactions. *)
Module TransactionPool.

(** Modelled from the spec: the order of the lists per address, section
    4.7: createdAt ascending, then id ascending. *)
Definition addressBefore (a b : Transaction.t) : bool :=
  if Transaction.createdAt a <? Transaction.createdAt b then true
  else if Transaction.createdAt b <? Transaction.createdAt a then false
  else negb (Js.strGt (TransactionService.optText (Transaction.id a))
                      (TransactionService.optText (Transaction.id b))).

(** Modelled from the spec: [TransactionPool.getBySenderAddress], section
    4.7: the pool transactions of the sender as an ordered list. *)
Definition getBySenderAddress (address : Z) (pool : list Transaction.t)
  : list Transaction.t :=
  ListSort.sort addressBefore
    (filter (fun trs => Transaction.senderAddress trs =? address) pool).

(** Modelled from the spec: [TransactionPool.getByRecipientAddress], section
    4.7: the pool transactions to the recipient as an ordered list. *)
Definition getByRecipientAddress (address : Z) (pool : list Transaction.t)
  : list Transaction.t :=
  ListSort.sort addressBefore
    (filter (fun trs => bool_decide (Transaction.assetRecipientAddress trs = Some address))
            pool).

(** Modelled from the spec: [TransactionPool.remove], section 4.7: the
    transaction leaves the pool. *)
Definition remove (trs : Transaction.t) (pool : list Transaction.t)
  : list Transaction.t :=
  filter (fun other => negb (Js.optStrEq (Transaction.id other) (Transaction.id trs))) pool.

End TransactionPool.

Module Conflict.
Import Transaction.

(** One call [this.calculateUndoUnconfirmed(trs, sender)] on the account
    object at [address]. *)
Definition undoOn (env : Env.t) (trs : t) (address : Z) (s : Store.t)
  : Outcome Store.t :=
  match Store.accounts s !! address with
  | None => Thrown "TypeError: Cannot read property of undefined"
  | Some sender =>
      do sender <- TransactionService.calculateUndoUnconfirmed env trs sender;
      Returned (Store.logUndo (Store.setAccount s address sender) (id trs))
  end.

(** [senderTransactions.slice(i, senderTransactions.length).forEach(() =>
    { this.calculateUndoUnconfirmed(senderTrs, sender); })]: the function
    handed to [forEach] takes no argument, so each element of the slice
    triggers one more call on [senderTrs]. *)
Definition undoForSlice (env : Env.t) (senderTrs : t) (address : Z)
    (slice : list t) (s : Store.t) : Outcome Store.t :=
  foldl (fun acc _ => do s <- acc; undoOn env senderTrs address s) (Returned s) slice.

(** The elements of the sorted [transactions] behind [senderTrs]:
    [index > transactions.indexOf(senderTrs)]. *)
Fixpoint behind (senderTrs : t) (sorted : list t) : list t :=
  match sorted with
  | [] => []
  | x :: rest =>
      if Js.optStrEq (id x) (id senderTrs) then rest else behind senderTrs rest
  end.

(** The transfers among them are taken off the balance of the sender
    ([sender.actualBalance -= asset.amount]); a SEND carries a transfer
    asset. *)
Definition takeOff (env : Env.t) (sender : Account.t) (trs : t) : Account.t :=
  if type trs =? Env.SEND env then
    match assetAmount trs with
    | Some amount =>
        Account.setActualBalance sender (Account.actualBalance sender - amount)
    | None => sender
    end
  else sender.

(** The account for [senderAddress]: from [accountsMap] when it is there,
    from the repository otherwise, which also enters it in [accountsMap]
    under its own address. *)
Definition senderOf (senderAddress : Z) (s : Store.t) : Outcome Store.t :=
  if bool_decide (senderAddress ∈ Store.accountsMap s) then Returned s
  else
    match Store.accounts s !! senderAddress with
    | None => Thrown "TypeError: Cannot read property 'address' of undefined"
    | Some sender => Returned (Store.addToAccountsMap s (Account.address sender))
    end.

(** The body of the loop up to the verification: the account after the
    undo calls and after the later transfers to the sender were taken off,
    and the status of the verification on it. *)
Definition reverify (env : Env.t) (penv : PoolEnv.t) (senderAddress : Z)
    (senderTrs : t) (slice : list t) (s : Store.t)
  : Outcome (Store.t * ResponseEntity.t unit) :=
  do s <- senderOf senderAddress s;
  do s <- undoForSlice env senderTrs senderAddress slice s;
  match Store.accounts s !! senderAddress with
  | None => Thrown "TypeError: Cannot read property of undefined"
  | Some sender =>
      let transactions :=
        senderTrs :: TransactionPool.getByRecipientAddress senderAddress (Store.pool s) in
      let sorted :=
        ListSort.sort (fun a b => PoolEnv.transactionSortFunc penv a b <=? 0) transactions in
      let sender := foldl (takeOff env) sender (behind senderTrs sorted) in
      let s := Store.setAccount s senderAddress sender in
      Returned (s, PoolEnv.queueVerify penv senderTrs sender)
  end.

(** [checkSenderTransactions]; [fuel] bounds the depth of the calls on
    recipients. The loop runs over the transactions of the sender as they
    were in the pool when the call began; [slice] is
    [senderTransactions.slice(i)], the current transaction and those behind
    it. *)
Fixpoint checkSenderTransactions (fuel : nat) (env : Env.t) (penv : PoolEnv.t)
    (senderAddress : Z) (s : Store.t) : Run Store.t :=
  match fuel with
  | O => OutOfFuel
  | S fuel =>
      (fix loop (slice : list t) (s : Store.t) {struct slice} : Run Store.t :=
         match slice with
         | [] => Done s
         | senderTrs :: later =>
             if bool_decide (id senderTrs ∈ Store.verifiedTransactions s)
             then loop later s
             else
               bindR (liftO (reverify env penv senderAddress senderTrs slice s))
                 (fun '(s, verifyStatus) =>
                    if ResponseEntity.success verifyStatus
                    then loop later (Store.addVerified s (id senderTrs))
                    else
                      let s := Store.setPool s (TransactionPool.remove senderTrs (Store.pool s)) in
                      let s := Store.setQueue s (Store.queue s ++ [senderTrs]) in
                      if type senderTrs =? Env.SEND env then
                        match assetRecipientAddress senderTrs with
                        | Some recipientAddress =>
                            bindR (checkSenderTransactions fuel env penv recipientAddress s)
                                  (loop later)
                        | None => Raised "TypeError: recipientAddress is undefined"
                        end
                      else loop later s)
         end)
        (TransactionPool.getBySenderAddress senderAddress (Store.pool s)) s
  end.

(** [returnToQueueConflictedTransactionFromPool]: a fresh set of verified
    ids and a fresh [accountsMap], then one call per transaction, on
    [trs.senderId]. That field is not one of the model of a transaction;
    the address of the sender stands for it. *)
Definition returnToQueueConflictedTransactionFromPool (fuel : nat) (env : Env.t)
    (penv : PoolEnv.t) (transactions : list t) (s : Store.t) : Run Store.t :=
  let s := Store.mk (Store.pool s) (Store.queue s) (Store.accounts s) ∅ ∅ (Store.undone s) in
  foldl (fun acc trs =>
           bindR acc (checkSenderTransactions fuel env penv (senderAddress trs)))
        (Done s) transactions.

End Conflict.

(* ====================================================================== *)
(** ** Blocks process ([src/unnamed/part_003])                             *)
(* ====================================================================== *)

Module Block.
Record t : Type := mk {
  id : string;
  height : Z;
  previousBlock : string;
  (** [timestamp] is the creation time of the block, in epoch seconds. *)
  timestamp : Z;
  generatorPublicKey : string;
  transactions : list Transaction.t
}.
End Block.

(** The calls that the process makes to the other modules, in the order in
    which they are made. *)
Inductive Call : Type :=
| CallFork (block : string) (cause : Z)
| CallObjectNormalize (block : string)
| CallValidateBlockSlot (block : string)
| CallVerifyReceipt (block : string)
| CallDeleteLastBlock
| CallLastReceiptUpdate
| CallNewProcessBlock (block : string)
| CallBlockCreate
| CallPushInPool (transactions : list Transaction.t).

(** The state that the process reads and changes through [modules]: the
    chain ([lastBlock] on top of the blocks before it, newest first), the
    transaction pool and the lock on pool and queue. *)
Module Node.
Record t : Type := mk {
  loaded : bool;
  syncing : bool;
  ticking : bool;
  lastBlock : Block.t;
  previous : list Block.t;
  pool : list Transaction.t;
  locked : bool;
  calls : list Call
}.

Definition chain (n : t) : list Block.t := lastBlock n :: previous n.

Definition setChain (n : t) (last : Block.t) (before : list Block.t) : t :=
  mk (loaded n) (syncing n) (ticking n) last before (pool n) (locked n) (calls n).

Definition setPool (n : t) (p : list Transaction.t) : t :=
  mk (loaded n) (syncing n) (ticking n) (lastBlock n) (previous n) p (locked n) (calls n).

Definition setLocked (n : t) (l : bool) : t :=
  mk (loaded n) (syncing n) (ticking n) (lastBlock n) (previous n) (pool n) l (calls n).

Definition record (c : Call) (n : t) : t :=
  mk (loaded n) (syncing n) (ticking n) (lastBlock n) (previous n) (pool n) (locked n)
     (calls n ++ [c]).
End Node.

(** The result of [verifyReceipt]. *)
Record Check : Type := { verified : bool; check_errors : list string }.

(** What the process reaches through [library] and [modules] and is not
    among the sources. An error passed to a callback is [Some] message. *)
Module Modules.
Record t : Type := mk {
  (** [library.logic.block.objectNormalize], which throws on a bad block *)
  objectNormalize : Block.t -> Outcome Block.t;
  (** [slots.calcRound], [modules.rounds.getSlotDelegatesCount] *)
  calcRound : Z -> Z;
  getSlotDelegatesCount : Z -> Z;
  (** [modules.delegates.validateBlockSlotAgainstPreviousRound],
      [modules.delegates.validateBlockSlot] *)
  validateBlockSlotAgainstPreviousRound : Block.t -> option string;
  delegatesValidateBlockSlot : Block.t -> option string;
  (** [modules.blocks.verify.verifyReceipt] *)
  verifyReceipt : Block.t -> Check;
  (** [library.logic.block.create] *)
  blockCreate : IKeyPair -> Z -> Block.t -> list Transaction.t -> Outcome Block.t;
  (** the checks of [newProcessBlock] on the payload and the outcome of
      applying the transactions of the block to the accounts *)
  payloadValid : Block.t -> bool;
  applyTransactions : Block.t -> bool;
  (** [modules.transactions.removeFromPool]: which pool entries leave the
      pool for the transactions of a received block *)
  removeFromPool : list Transaction.t -> list Transaction.t -> list Transaction.t;
  (** [modules.transactions.returnToQueueConflictedTransactionFromPool] *)
  returnToQueueConflicted : list Transaction.t -> Outcome (list Transaction.t);
  (** [constants.maxTxsPerBlock] *)
  maxTxsPerBlock : nat
}.
End Modules.

Module Process.
Import Block.

(** A step with a callback: the state it leaves and the error it passes. *)
Definition Step : Type := Node.t * option string.

(** [async.series] goes on to the next task when the error passed is
    falsy. *)
Definition failed (err : option string) : bool := Js.truthyOptStr err.

Definition sameTransaction (a b : Transaction.t) : bool :=
  Js.optStrEq (Transaction.id a) (Transaction.id b).

Definition inTransactions (trs : Transaction.t) (l : list Transaction.t) : bool :=
  existsb (sameTransaction trs) l.

(** Modelled from the spec: [modules.transactions] is not among the
    sources. Section 4.7 orders the pool for block formation by fee
    (descending), createdAt (ascending) and id (ascending). *)
Definition poolBefore (a b : Transaction.t) : bool :=
  if Transaction.fee b <? Transaction.fee a then true
  else if Transaction.fee a <? Transaction.fee b then false
  else if Transaction.createdAt a <? Transaction.createdAt b then true
  else if Transaction.createdAt b <? Transaction.createdAt a then false
  else negb (Js.strGt (TransactionService.optText (Transaction.id a))
                      (TransactionService.optText (Transaction.id b))).

Definition sortPool (l : list Transaction.t) : list Transaction.t :=
  ListSort.sort poolBefore l.

(** Modelled from the spec: [getUnconfirmedTransactionsForBlockGeneration]
    is not among the sources. Section 4.9, step 3: the pool is drained of
    its first [MAX_TX_PER_BLOCK] transactions in block order. *)
Definition getUnconfirmedTransactionsForBlockGeneration (m : Modules.t) (n : Node.t)
  : list Transaction.t * Node.t :=
  let sorted := sortPool (Node.pool n) in
  (take (Modules.maxTxsPerBlock m) sorted,
   Node.setPool n (drop (Modules.maxTxsPerBlock m) sorted)).

(** Modelled from the spec: [pushInPool] puts transactions back into the
    pool (section 4.9, step 6). *)
Definition pushInPool (transactions : list Transaction.t) (n : Node.t) : Node.t :=
  let n := Node.record (CallPushInPool transactions) n in
  Node.setPool n (Node.pool n ++ transactions).

Definition lockTransactionPoolAndQueue (n : Node.t) : Node.t := Node.setLocked n true.
Definition unlockTransactionPoolAndQueue (n : Node.t) : Node.t := Node.setLocked n false.

(** Modelled from the spec: [modules.blocks.chain.deleteLastBlock] is not
    among the sources. Section 4.8: it drops the current head, so the block
    before it becomes the last block; with no block before it there is
    nothing to fall back to and the call fails. *)
Definition deleteLastBlock (n : Node.t) : Step :=
  let n := Node.record CallDeleteLastBlock n in
  match Node.previous n with
  | parent :: rest => (Node.setChain n parent rest, None)
  | [] => (n, Some "Cannot delete genesis block")
  end.

(** Modelled from the spec: [modules.blocks.verify.newProcessBlock] is not
    among the sources. Section 4.9, processBlock: verifyReceipt, then
    verifyBlock (the block names the last block as its parent, is one
    higher and newer, its payload is sound), then the transactions are
    applied and the block is pushed on the chain; any failure aborts. The
    result is [Some] error when the call throws. *)
Definition newProcessBlock (m : Modules.t) (block : Block.t) (n : Node.t) : Step :=
  let n := Node.record (CallNewProcessBlock (id block)) n in
  let lastBlock := Node.lastBlock n in
  if verified (Modules.verifyReceipt m block)
     && String.eqb (previousBlock block) (id lastBlock)
     && (height block =? height lastBlock + 1)
     && (timestamp lastBlock <? timestamp block)
     && Modules.payloadValid m block
     && Modules.applyTransactions m block
  then (Node.setChain n block (lastBlock :: Node.previous n), None)
  else (n, Some "Error: block is not accepted").

(** [Process.prototype.newGenerateBlock]. The error of the result is the
    one the function throws. *)
Definition newGenerateBlock (m : Modules.t) (keypair : IKeyPair) (timestamp : Z)
    (n : Node.t) : Step :=
  let '(transactions, n) := getUnconfirmedTransactionsForBlockGeneration m n in
  let n := lockTransactionPoolAndQueue n in
  let n := Node.record CallBlockCreate n in
  match Modules.blockCreate m keypair timestamp (Node.lastBlock n) transactions with
  | Thrown e => (n, Some e)
  | Returned block =>
      match newProcessBlock m block n with
      | (n, None) => (unlockTransactionPoolAndQueue n, None)
      | (n, Some _) =>
          let n := pushInPool transactions n in
          (unlockTransactionPoolAndQueue n, None)
      end
  end.

(** [__private.validateBlockSlot]. *)
Definition validateBlockSlot (m : Modules.t) (block lastBlock : Block.t)
  : option string :=
  let roundNextBlock := Modules.calcRound m (height block) in
  let roundLastBlock := Modules.calcRound m (height lastBlock) in
  let activeDelegates := Modules.getSlotDelegatesCount m (height block) in
  if bool_decide (Js.rem (height lastBlock) activeDelegates = Some 0)
     || (roundLastBlock <? roundNextBlock)
  then Modules.validateBlockSlotAgainstPreviousRound m block
  else Modules.delegatesValidateBlockSlot m block.

(** [__private.newReceiveBlock]. The error of the result is the one the
    promise is rejected with; an error of the processing is caught. *)
Definition newReceiveBlock (m : Modules.t) (block : Block.t) (n : Node.t) : Step :=
  let n := Node.record CallLastReceiptUpdate n in
  let removedTransactions :=
    Modules.removeFromPool m (transactions block) (Node.pool n) in
  let n :=
    Node.setPool n
      (filter (fun trs => negb (inTransactions trs removedTransactions)) (Node.pool n)) in
  let n := lockTransactionPoolAndQueue n in
  let recover (n : Node.t) : Step :=
    let n := pushInPool removedTransactions n in
    (unlockTransactionPoolAndQueue n, None) in
  match newProcessBlock m block n with
  | (n, Some _) => recover n
  | (n, None) =>
      let transactionForReturn :=
        filter (fun removedTrs => negb (inTransactions removedTrs (transactions block)))
               removedTransactions in
      let n := pushInPool transactionForReturn n in
      match Modules.returnToQueueConflicted m (Node.pool n) with
      | Thrown _ => recover n
      | Returned pool => (unlockTransactionPoolAndQueue (Node.setPool n pool), None)
      end
  end.

(** The test both fork handlers make: the last block stands when the
    received block is younger, or as old and of greater id. *)
Definition lastBlockStands (block lastBlock : Block.t) : bool :=
  (timestamp lastBlock <? timestamp block)
  || ((timestamp block =? timestamp lastBlock) && Js.strGt (id block) (id lastBlock)).

(** The first three tasks of both series: normalize the copy of the block,
    validate its slot, check it "before any deletion". The result is the
    error that stops the series, if any. [check.errors[0]] of a check
    without errors is [undefined], which does not stop it. *)
Definition checkReceived (m : Modules.t) (block lastBlock : Block.t) (n : Node.t)
  : Step :=
  let n := Node.record (CallObjectNormalize (id block)) n in
  match Modules.objectNormalize m block with
  | Thrown e => (n, Some e)
  | Returned tmpBlock =>
      let n := Node.record (CallValidateBlockSlot (id tmpBlock)) n in
      let err := validateBlockSlot m tmpBlock lastBlock in
      if failed err then (n, err)
      else
        let n := Node.record (CallVerifyReceipt (id tmpBlock)) n in
        let check := Modules.verifyReceipt m tmpBlock in
        if negb (verified check) then (n, head (check_errors check))
        else (n, None)
  end.

(** [__private.receiveForkOne]. *)
Definition receiveForkOne (m : Modules.t) (block lastBlock : Block.t) (n : Node.t)
  : Step :=
  let n := Node.record (CallFork (id block) 1) n in
  if lastBlockStands block lastBlock then (n, None)
  else
    let '(n, err) := checkReceived m block lastBlock n in
    if failed err then (n, err)
    else
      let '(n, err) := deleteLastBlock n in
      if failed err then (n, err)
      else deleteLastBlock n.

(** [__private.receiveForkFive]. *)
Definition receiveForkFive (m : Modules.t) (block lastBlock : Block.t) (n : Node.t)
  : Step :=
  let n := Node.record (CallFork (id block) 5) n in
  if lastBlockStands block lastBlock then (n, None)
  else
    let '(n, err) := checkReceived m block lastBlock n in
    if failed err then (n, err)
    else
      let '(n, err) := deleteLastBlock n in
      if failed err then (n, err)
      else
        let '(n, _) := newReceiveBlock m block n in
        (n, None).

(** [Process.prototype.onReceiveBlock], the task it adds to the
    sequence. *)
Definition onReceiveBlock (m : Modules.t) (block : Block.t) (n : Node.t) : Step :=
  if negb (Node.loaded n) || Node.syncing n || Node.ticking n then (n, None)
  else
    let lastBlock := Node.lastBlock n in
    if String.eqb (previousBlock block) (id lastBlock)
       && (height lastBlock + 1 =? height block)
    then let '(n, _) := newReceiveBlock m block n in (n, None)
    else if negb (String.eqb (previousBlock block) (id lastBlock))
            && (height lastBlock + 1 =? height block)
    then receiveForkOne m block lastBlock n
    else if String.eqb (previousBlock block) (previousBlock lastBlock)
            && (height block =? height lastBlock)
            && negb (String.eqb (id block) (id lastBlock))
    then receiveForkFive m block lastBlock n
    else (n, None).

End Process.

(* ====================================================================== *)
(** ** Block ids as numbers                                                *)
(* ====================================================================== *)

(** An id is the hexadecimal text of a hash, in lower case as
    [toString('hex')] writes it; its number is the one the digits spell. *)
Module HexId.

Definition isLowerHexChar (c : ascii) : bool :=
  let n := Z.of_nat (nat_of_ascii c) in
  ((48 <=? n) && (n <=? 57)) || ((97 <=? n) && (n <=? 102)).

Fixpoint isLowerHex (s : string) : bool :=
  match s with
  | EmptyString => true
  | String c rest => isLowerHexChar c && isLowerHex rest
  end.

Definition digit (c : ascii) : Z := default 0 (Buffer.hexDigit c).

Fixpoint value (s : string) : Z :=
  match s with
  | EmptyString => 0
  | String c rest => digit c * 16 ^ Z.of_nat (String.length rest) + value rest
  end.

End HexId.

(* ====================================================================== *)
(** ** Sample data                                                         *)
(* ====================================================================== *)

(** A small configuration on which the definitions can be run: one service
    that accepts everything, keeps the fee of the transaction and encodes no
    asset tail; the identity in place of the hash. *)
Module Sample.

Definition service : IAssetService.t :=
  IAssetService.mk
    (fun _ => [])
    (fun _ _ => ResponseEntity.ok)
    (fun _ _ => ResponseEntity.ok)
    (fun trs sender =>
       Account.setActualBalance sender (Account.actualBalance sender + Transaction.fee trs))
    (fun trs _ => Transaction.fee trs).

Definition SEND : Z := 10.
Definition VOTE : Z := 60.

(** The configuration for a header of [size] bytes with the widths [hex]
    and [doubleHex] for [LENGTH.HEX] and [LENGTH.DOUBLE_HEX]. *)
Definition envWith (size hex doubleHex : nat) : Env.t :=
  Env.mk SEND "cbb9449abb9672d3"
    (fun type => if (type =? SEND) || (type =? VOTE) then Some service else None)
    (fun _ => false)
    (fun bytes => bytes)
    (fun hash _ => hash)
    size hex doubleHex.

Definition env : Env.t := envWith 213 32 64.

Definition keyPair : IKeyPair := {| kp_publicKey := [1; 2]; kp_privateKey := [3; 4] |}.

Definition send (blockId : option string) (createdAt fee recipient amount : Z)
  : Transaction.t :=
  Transaction.mk (Some "aa01") blockId SEND createdAt "83cb3d86" 7
    (Some "eb76d2ad") None "0123456789abcdef" fee (AssetTransfer recipient amount).

Definition account (actualBalance totalStakedAmount : Z) : Account.t :=
  Account.mk 7 "83cb3d86" actualBalance totalStakedAmount.

(** Blocks and the other modules. Every check passes, except that a
    block without generator key fails [verifyReceipt] and that no block can
    be created without a private key. *)
Definition modules : Modules.t :=
  Modules.mk
    (fun block => Returned block)
    (fun height => (height - 1) / 3 + 1)
    (fun _ => 3)
    (fun _ => None)
    (fun _ => None)
    (fun block =>
       if Js.truthyStr (Block.generatorPublicKey block)
       then {| verified := true; check_errors := [] |}
       else {| verified := false; check_errors := ["Failed to verify block signature"] |})
    (fun keypair timestamp previousBlock transactions =>
       match kp_privateKey keypair with
       | [] => Thrown "Error: Invalid keypair"
       | _ :: _ =>
           Returned (Block.mk "0c" (Block.height previousBlock + 1)
                       (Block.id previousBlock) timestamp
                       (Buffer.toHex (kp_publicKey keypair)) transactions)
       end)
    (fun _ => true)
    (fun _ => true)
    (fun blockTransactions pool =>
       filter (fun trs => Process.inTransactions trs blockTransactions) pool)
    (fun pool => Returned pool)
    25.

Definition block (id : string) (height : Z) (previousBlock : string) (timestamp : Z)
  : Block.t :=
  Block.mk id height previousBlock timestamp "83cb3d86" [].

Definition genesis : Block.t := block "a0" 1 "" 0.
Definition b2 : Block.t := block "b1" 2 "a0" 80.
Definition b3 : Block.t := block "ff01" 3 "b1" 100.

(** A node whose chain is [genesis], [b2], [b3]. *)
Definition node (pool : list Transaction.t) : Node.t :=
  Node.mk true false false b3 [b2; genesis] pool false [].

Definition t1 : Transaction.t := send None 100 10 5 60.
Definition t2 : Transaction.t :=
  Transaction.mk (Some "aa02") None SEND 101 "83cb3d86" 7
    (Some "eb76d2ad") None "0123456789abcdef" 10 (AssetTransfer 6 20).

(** A key pair that [blockCreate] refuses. *)
Definition noKey : IKeyPair := {| kp_publicKey := [1; 2]; kp_privateKey := [] |}.

(** A pool with the two transfers [t1] and [t2] of the account 7, none of
    which verifies any more. *)
Definition poolEnv : PoolEnv.t :=
  PoolEnv.mk
    (fun _ _ => ResponseEntity.fail ["Not enough money on account"])
    (fun a b => Transaction.createdAt a - Transaction.createdAt b).

Definition store : Store.t :=
  Store.mk [t1; t2] [] {[ 7 := account 100 0 ]} ∅ ∅ [].

End Sample.

(* ====================================================================== *)
(** ** Notions of the statements                                           *)
(* ====================================================================== *)

Section TransactionNotions.
Import Transaction TransactionService.

(** What the service of the type adds to the errors collected so far. *)
Definition withService (service : IAssetService.t) (trs : t) (sender : Account.t)
    (errors : list string) : list string :=
  if ResponseEntity.success (IAssetService.validate service trs sender) then errors
  else errors ++ ResponseEntity.errors (IAssetService.validate service trs sender).

(** The presence tests of the eight header fields, as [validate] runs
    them before it looks at the asset. *)
Definition presenceErrors (trs : t) : list string :=
  let errors : list string := [] in
  let errors := if Js.truthyOptStr (id trs) then errors else errors ++ ["Missing id"] in
  let errors := if Js.truthyNum (type trs) then errors else errors ++ ["Missing type"] in
  let errors :=
    if Js.truthyNum (senderAddress trs) then errors
    else errors ++ ["Missing sender address"] in
  let errors :=
    if Js.truthyStr (senderPublicKey trs) then errors
    else errors ++ ["Missing sender public key"] in
  let errors :=
    if Js.truthyOptStr (signature trs) then errors
    else errors ++ ["Missing signature"] in
  let errors := if Js.truthyNum (fee trs) then errors else errors ++ ["Missing fee"] in
  let errors := if Js.truthyStr (salt trs) then errors else errors ++ ["Missing salt"] in
  if Js.truthyNum (createdAt trs) then errors
  else errors ++ ["Missing creation time"].

End TransactionNotions.

(** The sentence of the specification on amount 0: [validate] of a SEND with
    amount 0 fails with an error list that contains 'Invalid amount'. *)
Definition rejected_as_invalid_amount (env : Env.t) (trs : Transaction.t)
    (sender : Account.t) : Prop :=
  exists r, TransactionService.validate env (Some trs) sender = Returned r /\
            ResponseEntity.success r = false /\
            In "Invalid amount" (ResponseEntity.errors r).

(** [verifyUnconfirmed] accepts: it returns a response without errors. *)
Definition accepts (env : Env.t) (trs : Transaction.t) (sender : Account.t) : Prop :=
  exists trs' r,
    TransactionService.verifyUnconfirmed env trs sender false = Returned (trs', r) /\
    ResponseEntity.success r = true.

(** The sentence of the specification on the spendable balance, for a
    transfer of [amount] at the fee [Transaction.fee trs]. *)
Definition bounded_by_spendable_balance (env : Env.t) (trs : Transaction.t)
    (sender : Account.t) (amount : Z) : Prop :=
  let spendable := Account.actualBalance sender - Account.totalStakedAmount sender in
  (accepts env trs sender -> amount + Transaction.fee trs <= spendable) /\
  (amount + Transaction.fee trs = spendable -> accepts env trs sender) /\
  (spendable < amount + Transaction.fee trs ->
   exists trs' r,
     TransactionService.verifyUnconfirmed env trs sender false = Returned (trs', r) /\
     ResponseEntity.success r = false).

(** The sentence of the specification on slots, for the slot number [s],
    on the numbers of the code. *)
Definition slot_round_trip (s : Z) : Prop :=
  SlotServiceIeee.getSlotNumber (SlotServiceIeee.getSlotTime s) = s.

(** The node takes blocks: it is loaded, not syncing, and no round ticks. *)
Definition ready (n : Node.t) : Prop :=
  Node.loaded n = true /\ Node.syncing n = false /\ Node.ticking n = false.

(** Fork 1: consecutive height, other parent. *)
Definition forkOne (block lastBlock : Block.t) : Prop :=
  Block.previousBlock block <> Block.id lastBlock /\
  Block.height lastBlock + 1 = Block.height block.

(** Fork 5: same height, same parent, other id. *)
Definition forkFive (block lastBlock : Block.t) : Prop :=
  Block.previousBlock block = Block.previousBlock lastBlock /\
  Block.height block = Block.height lastBlock /\
  Block.id block <> Block.id lastBlock.

(** Two ids of the data model: lower-case hexadecimal text of one length. *)
Definition comparableIds (a b : string) : Prop :=
  HexId.isLowerHex a = true /\ HexId.isLowerHex b = true /\
  String.length a = String.length b.

(** The sentence of the specification on fork 5, for a received block that
    wins against the last block and passes the checks made before any
    deletion: it becomes the new last block. *)
Definition winner_becomes_head (m : Modules.t) (block : Block.t) (n : Node.t) : Prop :=
  ready n ->
  forkFive block (Node.lastBlock n) ->
  Process.lastBlockStands block (Node.lastBlock n) = false ->
  (exists tmpBlock,
     Modules.objectNormalize m block = Returned tmpBlock /\
     Process.failed (Process.validateBlockSlot m tmpBlock (Node.lastBlock n)) = false /\
     verified (Modules.verifyReceipt m tmpBlock) = true) ->
  Node.lastBlock (fst (Process.onReceiveBlock m block n)) = block.

(** The calls made do not process a block. *)
Definition noProcessing (made : list Call) : Prop :=
  forall b, ~ In (CallNewProcessBlock b) made.

Section ProcessNotions.
Import Block Process.


(** [newProcessBlock] takes the block: the conditions of section 4.9 on a
    block that follows [lastBlock]. *)
Definition accepted (m : Modules.t) (block lastBlock : Block.t) : Prop :=
  verified (Modules.verifyReceipt m block) = true /\
  previousBlock block = id lastBlock /\
  height block = height lastBlock + 1 /\
  timestamp lastBlock < timestamp block /\
  Modules.payloadValid m block = true /\
  Modules.applyTransactions m block = true.

(** The transactions drained from the pool of [n], and the node as it is
    when the block is created: drained and locked. *)
Definition drained (m : Modules.t) (n : Node.t) : list Transaction.t :=
  fst (getUnconfirmedTransactionsForBlockGeneration m n).

Definition whenCreating (m : Modules.t) (n : Node.t) : Node.t :=
  Node.record CallBlockCreate
    (lockTransactionPoolAndQueue (snd (getUnconfirmedTransactionsForBlockGeneration m n))).

End ProcessNotions.

(** A field of width [w] of a zeroed buffer after [data] was written to it:
    the data, cut to the width, then the zeros that are left. *)
Definition field (w : nat) (data : list Z) : list Z :=
  take w data ++ replicate (w - length (take w data)) 0.

(** [len] bytes of [l] from [offset] on. *)
Definition slice (offset len : nat) (l : list Z) : list Z := take len (drop offset l).

Definition signatureBytes (s : option string) : list Z :=
  match s with
  | Some s => Buffer.hexDecode s
  | None => []
  end.

(** The recipient and the amount of a transfer, zeros for another type. *)
Definition transferBytes (env : Env.t) (trs : Transaction.t) : list Z :=
  if Transaction.type trs =? Env.SEND env then
    match Transaction.asset trs with
    | AssetTransfer recipientAddress amount =>
        Buffer.le 8 recipientAddress ++ Buffer.le 8 amount
    | AssetOther _ => []
    end
  else replicate 16 0.

(** The fields that [getBytes] writes, in the order of their offsets. *)
Definition headerFields (env : Env.t) (trs : Transaction.t) : list Z :=
  field (Env.LENGTH_HEX env) (Buffer.utf8 (Transaction.salt trs))
  ++ Buffer.le 1 (Transaction.type trs)
  ++ Buffer.le 4 (Transaction.createdAt trs)
  ++ field (Env.LENGTH_HEX env) (Buffer.hexDecode (Transaction.senderPublicKey trs))
  ++ transferBytes env trs
  ++ field (Env.LENGTH_DOUBLE_HEX env) (signatureBytes (Transaction.signature trs))
  ++ field (Env.LENGTH_DOUBLE_HEX env) (signatureBytes (Transaction.secondSignature trs)).

(** The width of these fields together. *)
Definition headerWidth (env : Env.t) : nat :=
  Env.LENGTH_HEX env + 1 + 4 + Env.LENGTH_HEX env + 8 + 8
  + Env.LENGTH_DOUBLE_HEX env + Env.LENGTH_DOUBLE_HEX env.

(** The offsets of salt, type, createdAt, senderPublicKey, recipientAddress,
    amount, signature and secondSignature, as [getBytes] advances [offset]. *)
Definition fieldOffsets (env : Env.t) : list nat :=
  let salt := 0%nat in
  let type := (salt + Env.LENGTH_HEX env)%nat in
  let createdAt := (type + BUFFER.LENGTH_BYTE)%nat in
  let senderPublicKey := (createdAt + BUFFER.LENGTH_UINT32)%nat in
  let recipientAddress := (senderPublicKey + Env.LENGTH_HEX env)%nat in
  let amount := (recipientAddress + BUFFER.LENGTH_INT64)%nat in
  let signature := (amount + BUFFER.LENGTH_INT64)%nat in
  let secondSignature := (signature + Env.LENGTH_DOUBLE_HEX env)%nat in
  [salt; type; createdAt; senderPublicKey; recipientAddress; amount; signature;
   secondSignature].

(** The layout of section 4.1, as the claim states it: a header of 117
    bytes before the asset tail, with the salt as 16 raw bytes at 0, type at
    16, createdAt at 17, senderPublicKey (32 bytes) at 21, recipientAddress at
    53, amount at 61, signature (64 bytes) at 69 and secondSignature (64
    bytes) at 133. *)
Definition layout_as_specified (env : Env.t) (trs : Transaction.t) : Prop :=
  exists out service,
    Env.getTransactionServiceByType env (Transaction.type trs) = Some service /\
    TransactionService.getBytes env trs = Returned out /\
    length out = (117 + length (IAssetService.getBytes service trs))%nat /\
    drop 117 out = IAssetService.getBytes service trs /\
    slice 0 16 out = field 16 (Buffer.hexDecode (Transaction.salt trs)) /\
    slice 16 1 out = Buffer.le 1 (Transaction.type trs) /\
    slice 17 4 out = Buffer.le 4 (Transaction.createdAt trs) /\
    slice 21 32 out = field 32 (Buffer.hexDecode (Transaction.senderPublicKey trs)) /\
    slice 53 16 out = transferBytes env trs /\
    slice 69 64 out = field 64 (signatureBytes (Transaction.signature trs)) /\
    slice 133 64 out = field 64 (signatureBytes (Transaction.secondSignature trs)).

(* ====================================================================== *)
(** ** Further code                                                        *)
(* ====================================================================== *)

(** The remaining method of [SlotService] ([src/unnamed/part_000]), on the
    milliseconds of the date it is given. *)
Module SlotServiceMore.

(** [Math.floor(date.getTime() / SECOND) * SECOND]. *)
Definition roundTime (time : Z) : Z := time / SlotService.SECOND * SlotService.SECOND.

End SlotServiceMore.

(** The sample store with the ids of both pool transactions among the
    verified ones. *)
Definition verifiedStore : Store.t :=
  Store.mk [Sample.t1; Sample.t2] [] {[ 7 := Sample.account 100 0 ]}
    {[ Some "aa01"; Some "aa02" ]} ∅ [].

(** The header fields of a transaction are all there. *)
Definition complete (trs : Transaction.t) : bool :=
  Js.truthyOptStr (Transaction.id trs) && Js.truthyNum (Transaction.type trs)
  && Js.truthyNum (Transaction.senderAddress trs)
  && Js.truthyStr (Transaction.senderPublicKey trs)
  && Js.truthyOptStr (Transaction.signature trs) && Js.truthyNum (Transaction.fee trs)
  && Js.truthyStr (Transaction.salt trs) && Js.truthyNum (Transaction.createdAt trs).

(** The amount of a SEND passes the tests that [validate] makes on it: it
    is not 0, it is not negative, and its text has neither a dot nor an
    exponent. Nothing is asked of the other types. The amounts of the model
    are integers, for which the text has no dot. *)
Definition amountValid (env : Env.t) (trs : Transaction.t) : bool :=
  if Transaction.type trs =? Env.SEND env then
    match Transaction.assetAmount trs with
    | Some amount =>
        Js.truthyNum amount
        && negb ((amount <? 0) || Js.numberTextHasDot amount || Js.numberTextHasE amount)
    | None => false
    end
  else true.

(** Two transactions agree on what [getBytes] reads of them. *)
Definition sameEncodedFields (a b : Transaction.t) : Prop :=
  Transaction.type a = Transaction.type b /\
  Transaction.salt a = Transaction.salt b /\
  Transaction.createdAt a = Transaction.createdAt b /\
  Transaction.senderPublicKey a = Transaction.senderPublicKey b /\
  Transaction.asset a = Transaction.asset b /\
  Transaction.signature a = Transaction.signature b /\
  Transaction.secondSignature a = Transaction.secondSignature b.

(** Bytes are integers from 0 to 255. *)
Definition isBytes (bs : list Z) : Prop := Forall (fun b => 0 <= b < 256) bs.

(** [trs.signature = ...]: the transaction with the signature set. *)
Definition setSignature (trs : Transaction.t) (s : string) : Transaction.t :=
  Transaction.mk (Transaction.id trs) (Transaction.blockId trs) (Transaction.type trs)
    (Transaction.createdAt trs) (Transaction.senderPublicKey trs)
    (Transaction.senderAddress trs) (Some s) (Transaction.secondSignature trs)
    (Transaction.salt trs) (Transaction.fee trs) (Transaction.asset trs).

(** The loop of [checkSenderTransactions] by itself, with the nested call
    on a recipient as [recur]. *)
Fixpoint checkLoop (recur : Z -> Store.t -> Run Store.t) (env : Env.t) (penv : PoolEnv.t)
    (senderAddress : Z) (slice : list Transaction.t) (s : Store.t) : Run Store.t :=
  match slice with
  | [] => Done s
  | senderTrs :: later =>
      if bool_decide (Transaction.id senderTrs ∈ Store.verifiedTransactions s)
      then checkLoop recur env penv senderAddress later s
      else
        bindR (liftO (Conflict.reverify env penv senderAddress senderTrs slice s))
          (fun '(s, verifyStatus) =>
             if ResponseEntity.success verifyStatus
             then checkLoop recur env penv senderAddress later
                    (Store.addVerified s (Transaction.id senderTrs))
             else
               let s := Store.setPool s (TransactionPool.remove senderTrs (Store.pool s)) in
               let s := Store.setQueue s (Store.queue s ++ [senderTrs]) in
               if Transaction.type senderTrs =? Env.SEND env then
                 match Transaction.assetRecipientAddress senderTrs with
                 | Some recipientAddress =>
                     bindR (recur recipientAddress s)
                           (checkLoop recur env penv senderAddress later)
                 | None => Raised "TypeError: recipientAddress is undefined"
                 end
               else checkLoop recur env penv senderAddress later s)
  end.

(** From [s] to [s'] the pool has lost transactions at most, the queue has
    gained at most, the set of verified ids has grown at most, and every
    transaction that left the pool has one of its id in the queue. *)
Definition movedToQueue (s s' : Store.t) : Prop :=
  sublist (Store.pool s') (Store.pool s) /\
  Store.queue s `prefix_of` Store.queue s' /\
  Store.verifiedTransactions s ⊆ Store.verifiedTransactions s' /\
  forall trs, In trs (Store.pool s) ->
    In trs (Store.pool s') \/
    exists queued, In queued (Store.queue s') /\ Transaction.id queued = Transaction.id trs.

(** 1 + 2 + ... + n. *)
Fixpoint triangular (n : nat) : nat :=
  match n with
  | O => O
  | S m => (n + triangular m)%nat
  end.

(** The received block is stopped by one of the checks that both fork
    handlers make before any deletion, with the error [err]: normalizing
    throws, or the slot is not valid, or the receipt is not verified and has
    a first error. An empty error text does not count: it is falsy. *)
Definition stoppedByCheck (m : Modules.t) (block lastBlock : Block.t) (err : string)
  : Prop :=
  Js.truthyStr err = true /\
  (Modules.objectNormalize m block = Thrown err \/
   exists tmpBlock,
     Modules.objectNormalize m block = Returned tmpBlock /\
     (Process.validateBlockSlot m tmpBlock lastBlock = Some err \/
      (Process.failed (Process.validateBlockSlot m tmpBlock lastBlock) = false /\
       verified (Modules.verifyReceipt m tmpBlock) = false /\
       head (check_errors (Modules.verifyReceipt m tmpBlock)) = Some err))).

(** The node as [newReceiveBlock] has it when it starts to process the
    block: the receipt noted, the pool without what [removeFromPool] took,
    and the lock held. *)
Definition whenProcessing (m : Modules.t) (block : Block.t) (n : Node.t) : Node.t :=
  Process.lockTransactionPoolAndQueue
    (Node.setPool (Node.record CallLastReceiptUpdate n)
       (filter (fun trs => negb (Process.inTransactions trs
                  (Modules.removeFromPool m (Block.transactions block) (Node.pool n))))
               (Node.pool n))).

(** What [newReceiveBlock] took from the pool, what of it is not in the
    block, and what it left in the pool. *)
Definition removedFor (m : Modules.t) (block : Block.t) (n : Node.t)
  : list Transaction.t :=
  Modules.removeFromPool m (Block.transactions block) (Node.pool n).

Definition forReturn (m : Modules.t) (block : Block.t) (n : Node.t)
  : list Transaction.t :=
  filter (fun removedTrs =>
            negb (Process.inTransactions removedTrs (Block.transactions block)))
         (removedFor m block n).

Definition keptFor (m : Modules.t) (block : Block.t) (n : Node.t)
  : list Transaction.t :=
  filter (fun trs => negb (Process.inTransactions trs (removedFor m block n)))
         (Node.pool n).

(** Variants of the sample modules: a receipt check that fails without an
    error text, and a conflict check that throws. *)
Module SampleMore.

Definition withVerifyReceipt (m : Modules.t) (verifyReceipt : Block.t -> Check)
  : Modules.t :=
  Modules.mk (Modules.objectNormalize m) (Modules.calcRound m)
    (Modules.getSlotDelegatesCount m) (Modules.validateBlockSlotAgainstPreviousRound m)
    (Modules.delegatesValidateBlockSlot m) verifyReceipt (Modules.blockCreate m)
    (Modules.payloadValid m) (Modules.applyTransactions m) (Modules.removeFromPool m)
    (Modules.returnToQueueConflicted m) (Modules.maxTxsPerBlock m).

Definition withReturnToQueueConflicted (m : Modules.t)
    (returnToQueueConflicted : list Transaction.t -> Outcome (list Transaction.t))
  : Modules.t :=
  Modules.mk (Modules.objectNormalize m) (Modules.calcRound m)
    (Modules.getSlotDelegatesCount m) (Modules.validateBlockSlotAgainstPreviousRound m)
    (Modules.delegatesValidateBlockSlot m) (Modules.verifyReceipt m) (Modules.blockCreate m)
    (Modules.payloadValid m) (Modules.applyTransactions m) (Modules.removeFromPool m)
    returnToQueueConflicted (Modules.maxTxsPerBlock m).

Definition silentReceipt : Modules.t :=
  withVerifyReceipt Sample.modules (fun _ => {| verified := false; check_errors := [] |}).

Definition conflictThrows : Modules.t :=
  withReturnToQueueConflicted Sample.modules (fun _ => Thrown "Error: no connection").

(** A block without generator key: [verifyReceipt] of the sample fails. *)
Definition unsigned (id : string) (height : Z) (previousBlock : string) (timestamp : Z)
  : Block.t :=
  Block.mk id height previousBlock timestamp "" [].

(** A block that follows [Sample.b3] and holds [Sample.t1]. *)
Definition b4 (timestamp : Z) : Block.t :=
  Block.mk "0d" 4 "ff01" timestamp "83cb3d86" [Sample.t1].

End SampleMore.

(** *** Loading blocks from a peer ([loadBlocksFromPeer], part_003)         *)

(** What [loadBlocksFromPeer] reaches besides the modules of [Modules.t].
    [Row] is the type of the block data as the peer sends it. *)
Module Transport.
Record t (Row : Type) : Type := mk {
  (** [modules.transport.getFromPeer] for [/blocks?lastBlockId=...], by peer
      and last block id: [Thrown] is [err || res.body.error], [Returned] is
      [res.body.blocks] *)
  getFromPeer : string -> string -> Outcome (list Row);
  (** [library.schema.validate(blocks, schema.loadBlocksFromPeer)] *)
  validate : list Row -> bool;
  (** [modules.blocks.utils.readDbRows] *)
  readDbRows : list Row -> list Block.t;
  (** [modules.blocks.isCleaning.get()] when the block of the given index
      is reached *)
  isCleaning : nat -> bool
}.
Arguments mk {Row} _ _ _ _.
Arguments getFromPeer {Row} _ _ _.
Arguments validate {Row} _ _.
Arguments readDbRows {Row} _ _.
Arguments isCleaning {Row} _ _.
End Transport.

Module ProcessLoad.
Import Block Process.

(** The node, [lastValidBlock], and whether [library.logic.peers.ban] was
    called on the peer. *)
Record State : Type := mkState {
  node : Node.t;
  lastValidBlock : Block.t;
  banned : bool
}.

(** The inner function [processBlock]. The error is the one caught and
    passed to [seriesCb]; a caught error is an object and always stops the
    series. *)
Definition processBlock (m : Modules.t) (block : Block.t) (st : State)
  : State * option string :=
  let n := node st in
  let removedTransactions :=
    Modules.removeFromPool m (transactions block) (Node.pool n) in
  let n :=
    Node.setPool n
      (filter (fun trs => negb (inTransactions trs removedTransactions)) (Node.pool n)) in
  let n := lockTransactionPoolAndQueue n in
  let recover (n : Node.t) (lastValid : Block.t) (err : string) :=
    let n := pushInPool removedTransactions n in
    (mkState (unlockTransactionPoolAndQueue n) lastValid (banned st), Some err) in
  match newProcessBlock m block n with
  | (n, Some err) => recover n (lastValidBlock st) err
  | (n, None) =>
      let transactionForReturn :=
        filter (fun removedTrs => negb (inTransactions removedTrs (transactions block)))
               removedTransactions in
      let n := pushInPool transactionForReturn n in
      match Modules.returnToQueueConflicted m (Node.pool n) with
      | Thrown err => recover n block err
      | Returned pool =>
          (mkState (unlockTransactionPoolAndQueue (Node.setPool n pool)) block (banned st),
           None)
      end
  end.

(** The iteration of [async.eachSeries] in [processBlocks], from the block
    of index [i] on: it stops at the first error, after the peer is
    banned. *)
Fixpoint eachSeries {Row} (m : Modules.t) (env : Transport.t Row) (i : nat)
    (blocks : list Block.t) (st : State) : State * option string :=
  match blocks with
  | [] => (st, None)
  | block :: rest =>
      if Transport.isCleaning env i then eachSeries m env (S i) rest st
      else
        match processBlock m block st with
        | (st, Some err) => (mkState (node st) (lastValidBlock st) true, Some err)
        | (st, None) => eachSeries m env (S i) rest st
        end
  end.

Definition processBlocks {Row} (m : Modules.t) (env : Transport.t Row)
    (blocks : list Row) (st : State) : State * option string :=
  match blocks with
  | [] => (st, None)
  | _ :: _ => eachSeries m env 0 (Transport.readDbRows env blocks) st
  end.

(** [Process.prototype.loadBlocksFromPeer]. The result holds the
    [lastValidBlock] passed to the callback; its error is the cause [err] of
    the error text built from [err.message || err]. *)
Definition loadBlocksFromPeer {Row} (m : Modules.t) (env : Transport.t Row)
    (peer : string) (n : Node.t) : State * option string :=
  let st := mkState n (Node.lastBlock n) false in
  match Transport.getFromPeer env peer (id (lastValidBlock st)) with
  | Thrown err => (st, Some err)
  | Returned blocks =>
      if negb (Transport.validate env blocks)
      then (st, Some "Received invalid blocks data")
      else processBlocks m env blocks st
  end.

End ProcessLoad.

(** Each block of the list is accepted on top of the one before it, the
    first on top of [lastBlock]. *)
Fixpoint acceptedInTurn (m : Modules.t) (lastBlock : Block.t) (blocks : list Block.t)
  : Prop :=
  match blocks with
  | [] => True
  | block :: rest => accepted m block lastBlock /\ acceptedInTurn m block rest
  end.

(** A peer that answers with the given blocks, which pass the schema. *)
Definition peerWith (blocks : list Block.t) : Transport.t Block.t :=
  Transport.mk (fun _ _ => Returned blocks) (fun _ => true) (fun rows => rows)
    (fun _ => false).

(** The ids of the blocks handed to [newProcessBlock], in order. *)
Definition processedBlocks (calls : list Call) : list string :=
  omap (fun c => match c with CallNewProcessBlock b => Some b | _ => None end) calls.

(** *** Chain comparison with a peer ([getCommonBlock], part_003)           *)

(** The common block of the answer of a peer. *)
Module CommonBlock.
Record t : Type := mk {
  id : string;
  previousBlock : string;
  height : Z
}.
End CommonBlock.

(** What [getCommonBlock] reaches. An error passed to a callback is
    [Thrown]; error texts are not empty. *)
Module Comparison.
Record t : Type := mk {
  (** [modules.blocks.utils.getIdSequence]: [res.ids] for a height *)
  getIdSequence : Z -> Outcome string;
  (** [modules.transport.getFromPeer] for [/blocks/common?ids=...], by peer
      and ids: [Thrown] is [err || result.body.error.toString()], [Returned]
      is [result.body.common], which may be missing *)
  getFromPeer : string -> string -> Outcome (option CommonBlock.t);
  (** [library.schema.validate(common, schema.getCommonBlock)]: the message
      of the first error *)
  validate : CommonBlock.t -> option string;
  (** the query [sql.getCommonBlock]: [Thrown] when the query is rejected,
      else whether [rows.length] and [rows[0].count] are both truthy *)
  found : CommonBlock.t -> Outcome bool;
  (** [modules.transport.poorConsensus()] *)
  poorConsensus : bool;
  (** [JSON.stringify] of the common block *)
  stringify : CommonBlock.t -> string
}.
End Comparison.

(** How [getCommonBlock] ends: with [modules.blocks.chain.recoverChain], or
    with the callback on an error or on the common block. *)
Inductive Compared : Type :=
| RecoverChain
| Callback (err : option string) (res : option CommonBlock.t).

Module ProcessCompare.

(** The last function of the waterfall. *)
Definition finish (env : Comparison.t) (comparisionFailed : bool)
    (err : option string) (res : option CommonBlock.t) : Compared :=
  if comparisionFailed && Comparison.poorConsensus env then RecoverChain
  else Callback err res.

(** [Process.prototype.getCommonBlock]. *)
Definition getCommonBlock (env : Comparison.t) (peer : string) (height : Z)
  : Compared :=
  match Comparison.getIdSequence env height with
  | Thrown err => finish env false (Some err) None
  | Returned ids =>
      match Comparison.getFromPeer env peer ids with
      | Thrown err => finish env false (Some err) None
      | Returned None =>
          finish env true
            (Some ("Chain comparison failed with peer: " +:+ peer
                   +:+ " using ids: " +:+ ids)) None
      | Returned (Some common) =>
          if CommonBlock.height common =? 1
          then finish env true
                 (Some "Comparison failed - received genesis as common block") None
          else
            match Comparison.validate env common with
            | Some message => finish env false (Some message) None
            | None =>
                match Comparison.found env common with
                | Thrown _ => finish env false (Some "Blocks#getCommonBlock error") None
                | Returned false =>
                    finish env true
                      (Some ("Chain comparison failed with peer: " +:+ peer
                             +:+ " using block: " +:+ Comparison.stringify env common))
                      None
                | Returned true => finish env false None (Some common)
                end
            end
      end
  end.

End ProcessCompare.

(** The comparison with the peer failed: the peer names no common block, or
    names one of height 1, or names one that passes the schema and is not in
    the database. *)
Definition comparisonFailed (env : Comparison.t) (peer : string) (height : Z) : Prop :=
  exists ids,
    Comparison.getIdSequence env height = Returned ids /\
    (Comparison.getFromPeer env peer ids = Returned None \/
     exists common,
       Comparison.getFromPeer env peer ids = Returned (Some common) /\
       (CommonBlock.height common = 1 \/
        (Comparison.validate env common = None /\
         Comparison.found env common = Returned false))).

(** A peer that names the given common block to a node with the given
    consensus; only blocks below height 50 are in the database. *)
Definition comparing (common : option CommonBlock.t) (poorConsensus : bool)
  : Comparison.t :=
  Comparison.mk (fun _ => Returned "ff01,b1,a0") (fun _ _ => Returned common)
    (fun _ => None) (fun common => Returned (CommonBlock.height common <? 50))
    poorConsensus (fun common => CommonBlock.id common).

(** *** The former block generation ([generateBlock], part_003)             *)

(** What [generateBlock] reaches besides [library.logic.block.create]. *)
Module Legacy.
Record t : Type := mk {
  (** [modules.transactions.getUnconfirmedTransactionList(false, limit)] *)
  getUnconfirmedTransactionList : nat -> list Transaction.t;
  (** [modules.accounts.getAccount] by public key: [Thrown] is [err], the
      sender may be missing *)
  getAccount : string -> Outcome (option Account.t);
  (** [library.logic.transaction.ready] and [verify]; the latter passes an
      error *)
  ready : Transaction.t -> Account.t -> bool;
  verify : Transaction.t -> Account.t -> option string;
  (** [modules.blocks.verify.processBlock]: the error it passes *)
  processBlock : Block.t -> option string
}.
End Legacy.

(** How [generateBlock] ends: with an error before a block exists, or with
    the created block handed to [processBlock] and the error of that. *)
Inductive Generated : Type :=
| NotCreated (err : string)
| Processed (block : Block.t) (err : option string).

Module ProcessLegacy.

(** The iteratee of [async.eachSeries]: the error it passes, if any, and
    [ready] after it. *)
Definition checkTransaction (env : Legacy.t) (transaction : Transaction.t)
    (ready : list Transaction.t) : list Transaction.t * option string :=
  match Legacy.getAccount env (Transaction.senderPublicKey transaction) with
  | Thrown _ | Returned None => (ready, Some "Sender not found")
  | Returned (Some sender) =>
      if Legacy.ready env transaction sender
      then
        let error := Legacy.verify env transaction sender in
        if negb (Js.truthyOptStr error) then (ready ++ [transaction], error)
        else (ready, error)
      else (ready,
            Some ("Transaction " +:+ TransactionService.optText (Transaction.id transaction)
                  +:+ " not ready"))
  end.

(** [async.eachSeries]: it stops at the first truthy error. *)
Fixpoint eachSeries (env : Legacy.t) (transactions ready : list Transaction.t)
  : list Transaction.t * option string :=
  match transactions with
  | [] => (ready, None)
  | transaction :: rest =>
      let '(ready, err) := checkTransaction env transaction ready in
      if Js.truthyOptStr err then (ready, err) else eachSeries env rest ready
  end.

(** [Process.prototype.generateBlock]. *)
Definition generateBlock (m : Modules.t) (env : Legacy.t) (keypair : IKeyPair)
    (timestamp : Z) (n : Node.t) : Generated :=
  let transactions :=
    Legacy.getUnconfirmedTransactionList env (Modules.maxTxsPerBlock m) in
  match eachSeries env transactions [] with
  | (_, Some err) => NotCreated err
  | (ready, None) =>
      match Modules.blockCreate m keypair timestamp (Node.lastBlock n) ready with
      | Thrown e => NotCreated e
      | Returned block => Processed block (Legacy.processBlock env block)
      end
  end.

End ProcessLegacy.

(** The transaction passes the checks of [generateBlock]: its sender is
    found, it is ready, and its verification passes no error. *)
Definition passes (env : Legacy.t) (transaction : Transaction.t) : Prop :=
  exists sender,
    Legacy.getAccount env (Transaction.senderPublicKey transaction)
    = Returned (Some sender) /\
    Legacy.ready env transaction sender = true /\
    Js.truthyOptStr (Legacy.verify env transaction sender) = false.

(** An unconfirmed list of which only the transfers to the account 5 are
    ready. *)
Definition legacyWith (transactions : list Transaction.t) : Legacy.t :=
  Legacy.mk (fun limit => take limit transactions)
    (fun _ => Returned (Some (Sample.account 100 0)))
    (fun transaction _ => bool_decide (Transaction.assetRecipientAddress transaction = Some 5))
    (fun _ _ => None)
    (fun _ => None).

(** *** The referral list ([helpers/referal.js])                            *)

Module Referal.

(** [library.db.query('SELECT address from referals WHERE level[1] IN
    (...)', arr)]: the addresses of the rows found for the addresses [arr],
    or the error the promise is rejected with. *)
Definition Query : Type := list string -> Outcome (list string).

(** [hierarchy]: the addresses found, by level. *)
Definition Hierarchy : Type := list (Z * list string).

(** [findSponsors] of the handler of [/referral/list]. [params] holds one
    placeholder for each address of [referList] and is left out; [referList]
    is the array the query gets. [fuel] bounds the nested calls. The result
    is the hierarchy when [cb(null)] is reached and the error of [cb(err)]
    otherwise. *)
Fixpoint findSponsors (query : Query) (fuel : nat) (level : Z)
    (referList : list string) (hierarchy : Hierarchy) : Run Hierarchy :=
  match fuel with
  | O => OutOfFuel
  | S fuel =>
      if level <=? 15 then
        match query referList with
        | Thrown err => Raised err
        | Returned resp =>
            match resp with
            | [] => Done hierarchy
            | _ :: _ =>
                findSponsors query fuel (level + 1) resp (hierarchy ++ [(level, resp)])
            end
        end
      else Done hierarchy
  end.

(** The answer of the handler. *)
Inductive Response : Type :=
| Status200 (SponsorList : Hierarchy)
| Status400 (error : string).

(** The handler of [/referral/list] for [req.body.referrer_address]. *)
Definition referralList (query : Query) (fuel : nat) (referrer_address : string)
  : Run Response :=
  match findSponsors query fuel 1 [referrer_address] [] with
  | Done hierarchy => Done (Status200 hierarchy)
  | Raised err => Done (Status400 err)
  | OutOfFuel => OutOfFuel
  end.

End Referal.

(** The levels are found one from the other: each is what the query
    answers for the level before it, and none is empty. *)
Fixpoint foundInTurn (query : Referal.Query) (referList : list string)
    (levels : list (list string)) : Prop :=
  match levels with
  | [] => True
  | resp :: rest =>
      query referList = Returned resp /\ resp <> [] /\ foundInTurn query resp rest
  end.

(** Referral data with a cycle: "a" referred "b" and "b" referred "a". *)
Definition cyclic : Referal.Query :=
  fun referList =>
    Returned (flat_map (fun address =>
                          if String.eqb address "a" then ["b"]
                          else if String.eqb address "b" then ["a"] else [])
                       referList).

(** *** The vote asset ([shared/repository/transaction/asset/vote.ts])      *)

Module Vote.

(** [IAssetVote]. The [Map] of the sponsors is the list of its entries in
    the order of insertion; a [Map] holds each key once. *)
Record IAssetVote : Type := mkAsset {
  votes : list string;
  reward : Z;
  unstake : Z;
  sponsors : list (Z * Z)
}.

(** [RawAsset], with the sponsors as an array of pairs. *)
Record RawAsset : Type := mkRaw {
  raw_votes : list string;
  raw_reward : Z;
  raw_unstake : Z;
  raw_sponsors : list (string * Z)
}.

(** The text of a [bigint] and the function [BigInt] on a string, which
    throws a SyntaxError on a text that is no integer. *)
Record BigIntText : Type := mkText {
  toString : Z -> string;
  BigInt : string -> Outcome Z
}.

(** [Map.prototype.set]: the value of a key that is there is replaced where
    it stands; a new key goes to the end. *)
Fixpoint mapSet (key value : Z) (entries : list (Z * Z)) : list (Z * Z) :=
  match entries with
  | [] => [(key, value)]
  | (k, v) :: rest =>
      if k =? key then (k, value) :: rest else (k, v) :: mapSet key value rest
  end.

(** [new Map(entries)]. *)
Definition newMap (entries : list (Z * Z)) : list (Z * Z) :=
  foldl (fun m e => mapSet (fst e) (snd e) m) [] entries.

(** [Map.prototype.get]. *)
Fixpoint mapGet (key : Z) (entries : list (Z * Z)) : option Z :=
  match entries with
  | [] => None
  | (k, v) :: rest => if k =? key then Some v else mapGet key rest
  end.

(** [Array.prototype.map] with a function that may throw. *)
Fixpoint mapO {A B} (f : A -> Outcome B) (l : list A) : Outcome (list B) :=
  match l with
  | [] => Returned []
  | a :: rest =>
      do b <- f a;
      do bs <- mapO f rest;
      Returned (b :: bs)
  end.

(** [serialize]. *)
Definition serialize (text : BigIntText) (asset : IAssetVote) : RawAsset :=
  mkRaw (votes asset) (reward asset) (unstake asset)
    (map (fun elem => (toString text (fst elem), snd elem)) (sponsors asset)).

(** [deserialize]. *)
Definition deserialize (text : BigIntText) (rawAsset : RawAsset) : Outcome IAssetVote :=
  do entries <- mapO (fun elem => do key <- BigInt text (fst elem);
                                  Returned (key, snd elem))
                     (raw_sponsors rawAsset);
  Returned (mkAsset (raw_votes rawAsset) (raw_reward rawAsset) (raw_unstake rawAsset)
              (newMap entries)).

End Vote.

(** Decimal text for the witnesses: [pretty] one way, and the other way
    the digits read from the left, with a sign in front. *)
Module Decimal.

Definition digit (c : ascii) : option Z :=
  let n := Z.of_N (N_of_ascii c) in
  if (48 <=? n) && (n <=? 57) then Some (n - 48) else None.

Fixpoint digits (s : string) (acc : Z) : Outcome Z :=
  match s with
  | EmptyString => Returned acc
  | String c rest =>
      match digit c with
      | Some d => digits rest (10 * acc + d)
      | None => Thrown "SyntaxError: Cannot convert to a BigInt"
      end
  end.

Definition parse (s : string) : Outcome Z :=
  match s with
  | String "-"%char (String c rest) =>
      do n <- digits (String c rest) 0; Returned (- n)
  | _ => digits s 0
  end.

Definition text : Vote.BigIntText := Vote.mkText pretty parse.

End Decimal.

(* ====================================================================== *)
(** ** Properties                                                          *)
(* ====================================================================== *)

(* ---------------------------------------------------------------------- *)
(** *** The arithmetic of doubles where it is exact                        *)
(* ---------------------------------------------------------------------- *)

Section Exact.
Import Ieee.

Lemma nearest_cases n d :
  0 < d -> 0 <= n ->
  (nearest n d = n / d /\ 2 * (n mod d) <= d) \/
  (nearest n d = n / d + 1 /\ d <= 2 * (n mod d)).
Proof.
  intros Hd Hn. unfold nearest.
  destruct (Z.ltb_spec d (2 * (n mod d))) as [H | H]; cbn [orb]; [right; lia |].
  destruct (Z.eqb_spec (2 * (n mod d)) d) as [He | He]; cbn [andb]; [| left; lia].
  destruct (Z.odd (n / d)); [right | left]; lia.
Qed.

(** The exponent of a quotient below 2^53: the scaling is by 2^j with
    j >= 0, and the scaled quotient is at least 2^52. *)
Lemma exponent_scale a b :
  0 < a < 2 ^ 53 -> 0 < b ->
  0 <= 52 - exponent a b /\ b * 2 ^ 52 <= a * 2 ^ (52 - exponent a b).
Proof.
  intros Ha Hb. unfold exponent.
  pose proof (Z.log2_spec a ltac:(lia)) as [Hla1 Hla2].
  pose proof (Z.log2_spec b ltac:(lia)) as [Hlb1 Hlb2].
  pose proof (Z.log2_nonneg a) as Hla0. pose proof (Z.log2_nonneg b) as Hlb0.
  assert (Hla : Z.log2 a <= 52).
  { destruct (Z.le_gt_cases (Z.log2 a) 52) as [H | H]; [exact H |].
    assert (2 ^ 53 <= 2 ^ Z.log2 a) by (apply Z.pow_le_mono_r; lia). lia. }
  set (la := Z.log2 a) in *. set (lb := Z.log2 b) in *.
  destruct (Z.leb_spec (b * 2 ^ Z.max (la - lb) 0) (a * 2 ^ Z.max (- (la - lb)) 0))
    as [Hc | Hc].
  - split; [lia |].
    destruct (Z.le_gt_cases 0 (la - lb)) as [Hk | Hk].
    + rewrite Z.max_l in Hc by lia. rewrite Z.max_r in Hc by lia.
      rewrite Z.pow_0_r, Z.mul_1_r in Hc.
      replace 52 with ((la - lb) + (52 - (la - lb))) at 1 by lia.
      rewrite Z.pow_add_r by lia.
      assert (0 < 2 ^ (52 - (la - lb))) by (apply Z.pow_pos_nonneg; lia). nia.
    + rewrite Z.max_r in Hc by lia. rewrite Z.max_l in Hc by lia.
      rewrite Z.pow_0_r, Z.mul_1_r in Hc.
      replace (52 - (la - lb)) with (- (la - lb) + 52) by lia.
      rewrite Z.pow_add_r by lia.
      assert (0 < 2 ^ 52) by (apply Z.pow_pos_nonneg; lia). nia.
  - split; [lia |].
    replace (52 - (la - lb - 1)) with (Z.succ lb + (52 - la)) by lia.
    rewrite Z.pow_add_r by lia.
    replace 52 with (la + (52 - la)) at 1 by lia. rewrite Z.pow_add_r by lia.
    assert (HW : 0 < 2 ^ (52 - la)) by (apply Z.pow_pos_nonneg; lia).
    assert (HX : 0 < 2 ^ la) by (apply Z.pow_pos_nonneg; lia).
    assert (Hab : b * 2 ^ la <= a * 2 ^ Z.succ lb) by nia.
    rewrite !Z.mul_assoc. apply Z.mul_le_mono_nonneg_r; lia.
Qed.

(** [Math.floor(a / b)] is the quotient of the integers whenever the
    dividend is below 2^53 in magnitude: rounding the quotient to a double
    never carries it over an integer. *)
Lemma floorDiv_exact a b :
  - 2 ^ 53 < a < 2 ^ 53 -> 0 < b -> floorDiv a b = a / b.
Proof.
  intros Ha Hb. unfold floorDiv.
  destruct (Z.eqb_spec a 0) as [-> | Hne]; [now rewrite Z.div_0_l by lia |].
  destruct (exponent_scale (Z.abs a) b ltac:(lia) Hb) as [Hj Hscale].
  set (j := 52 - exponent (Z.abs a) b) in *.
  destruct (Z.leb_spec 0 j) as [_ | Hneg]; [| lia].
  set (P := 2 ^ j) in *.
  assert (HP : 0 < P) by (apply Z.pow_pos_nonneg; lia).
  assert (HbP : b < 2 * P).
  { assert (Z.abs a * P < 2 ^ 53 * P) by nia.
    change (2 ^ 53) with (2 * 2 ^ 52) in H. nia. }
  set (a' := Z.abs a) in *.
  pose proof (Z.div_mod (a' * P) b ltac:(lia)) as HN.
  pose proof (Z.mod_pos_bound (a' * P) b Hb) as HR.
  pose proof (Z.div_mod a' b ltac:(lia)) as Hq.
  pose proof (Z.mod_pos_bound a' b Hb) as Hr.
  destruct (nearest_cases (a' * P) b Hb ltac:(nia)) as [[Hm Hm'] | [Hm Hm']];
    rewrite Hm; clear Hm;
    set (Q := a' * P / b) in *; set (R := (a' * P) mod b) in *;
    set (q := a' / b) in *; set (r := a' mod b) in *.
  all: assert (HQ1 : q * P <= Q) by nia.
  all: assert (HQ2 : Q < (q + 1) * P) by nia.
  all: destruct (Z.sgn_spec a) as [[Hs ->] | [[Hs ->] | [Hs ->]]]; try lia.
  - (* positive, rounded down *)
    replace a with a' by lia. rewrite Z.mul_1_l.
    symmetry. apply (Z.div_unique _ _ _ (Q - q * P)); lia.
  - (* negative, rounded down *)
    replace a with (- a') by lia.
    destruct (Z.eq_dec r 0) as [Hr0 | Hr0].
    + assert (a' = b * q) by lia.
      assert (Q = q * P) by nia.
      transitivity (- q).
      * symmetry. apply (Z.div_unique _ _ _ 0); lia.
      * apply (Z.div_unique _ _ _ 0); lia.
    + assert (q * P < Q) by nia.
      transitivity (- q - 1).
      * symmetry. apply (Z.div_unique _ _ _ ((q + 1) * P - Q)); lia.
      * apply (Z.div_unique _ _ _ (b - r)); lia.
  - (* positive, rounded up *)
    replace a with a' by lia. rewrite Z.mul_1_l.
    assert (Q + 1 < (q + 1) * P) by nia.
    symmetry. apply (Z.div_unique _ _ _ (Q + 1 - q * P)); lia.
  - (* negative, rounded up *)
    replace a with (- a') by lia.
    assert (Hr0 : r <> 0) by nia.
    assert (Q + 1 <= (q + 1) * P) by nia.
    transitivity (- q - 1).
    + symmetry. apply (Z.div_unique _ _ _ ((q + 1) * P - (Q + 1))); lia.
    + apply (Z.div_unique _ _ _ (b - r)); lia.
Qed.

Lemma round_exact z : - 2 ^ 53 < z < 2 ^ 53 -> round z = z.
Proof.
  intros H. unfold round. rewrite floorDiv_exact by lia. apply Z.div_1_r.
Qed.

Lemma safe_range z : safe z -> - 2 ^ 53 < z < 2 ^ 53.
Proof. unfold safe, MAX_SAFE_INTEGER. lia. Qed.

(** A sum, a difference and a product that are safe integers are exact,
    and so is the rounded-down quotient of a safe integer. *)
Lemma add_exact a b : safe (a + b) -> add a b = a + b.
Proof. intros H. apply round_exact, safe_range, H. Qed.

Lemma sub_exact a b : safe (a - b) -> sub a b = a - b.
Proof. intros H. apply round_exact, safe_range, H. Qed.

Lemma mul_exact a b : safe (a * b) -> mul a b = a * b.
Proof. intros H. apply round_exact, safe_range, H. Qed.

Lemma floorDiv_safe a b : safe a -> 0 < b -> floorDiv a b = a / b.
Proof. intros H. apply floorDiv_exact, safe_range, H. Qed.

End Exact.

Section SlotExact.

(** The functions of [SlotService] on [Z] are those on the doubles wherever
    nothing is rounded. *)
Lemma getSlotTime_exact slot :
  Ieee.safe (slot * SlotService.interval) ->
  SlotServiceIeee.getSlotTime slot = SlotService.getSlotTime slot.
Proof. intros H. apply mul_exact, H. Qed.

Lemma getSlotNumber_exact epochTime :
  Ieee.safe epochTime ->
  SlotServiceIeee.getSlotNumber epochTime = SlotService.getSlotNumber epochTime.
Proof. intros H. apply floorDiv_safe; [exact H | reflexivity]. Qed.

Lemma getEpochTime_exact epochStart time :
  Ieee.safe (time - epochStart) ->
  SlotServiceIeee.getEpochTime epochStart time = SlotService.getEpochTime epochStart time.
Proof.
  intros H. unfold SlotServiceIeee.getEpochTime, SlotService.getEpochTime.
  rewrite sub_exact by exact H. apply floorDiv_safe; [exact H | reflexivity].
Qed.

Lemma getRealTime_exact epochStart epochTime :
  0 <= epochStart -> Ieee.safe epochStart ->
  Ieee.safe (epochTime * SlotService.SECOND) ->
  Ieee.safe (SlotService.getRealTime epochStart epochTime) ->
  SlotServiceIeee.getRealTime epochStart epochTime
  = SlotService.getRealTime epochStart epochTime.
Proof.
  intros H0 He Ht Hr. unfold SlotServiceIeee.getRealTime, SlotService.getRealTime in *.
  rewrite floorDiv_safe by (exact He || reflexivity).
  assert (Hfloor : Ieee.safe (epochStart / SlotService.SECOND * SlotService.SECOND)).
  { unfold Ieee.safe, Ieee.MAX_SAFE_INTEGER, SlotService.SECOND in *.
    pose proof (Z.div_mod epochStart 1000 ltac:(lia)).
    pose proof (Z.mod_pos_bound epochStart 1000 ltac:(lia)). lia. }
  rewrite !mul_exact by assumption. apply add_exact, Hr.
Qed.

End SlotExact.

(** C8 as stated fails on the doubles of the code: the slot time of the
    largest safe integer is a product that no double holds, it is rounded
    down by 6, and the slot number that comes back is one less. *)
Lemma slot_round_trip_fails_beyond_the_safe_integers :
  let s := Ieee.MAX_SAFE_INTEGER in
  0 <= s /\ Ieee.safe s /\
  SlotServiceIeee.getSlotTime s = s * SlotService.interval - 6 /\
  SlotServiceIeee.getSlotNumber (SlotServiceIeee.getSlotTime s) = s - 1 /\
  ~ slot_round_trip s.
Proof.
  unfold slot_round_trip. vm_compute. repeat split; discriminate.
Qed.

(** C8, amended. Converting a slot number to its epoch time and back is
    the identity on every non-negative slot number whose slot time is a safe
    integer: [getSlotNumber (getSlotTime s) = s]. *)
Theorem slot_number_of_slot_time (s : Z) :
  0 <= s -> s * SlotService.interval <= Ieee.MAX_SAFE_INTEGER ->
  slot_round_trip s.
Proof.
  intros Hs Hmax. unfold slot_round_trip.
  assert (Hsafe : Ieee.safe (s * SlotService.interval)).
  { unfold Ieee.safe, Ieee.MAX_SAFE_INTEGER, SlotService.interval in *. lia. }
  rewrite getSlotTime_exact, getSlotNumber_exact by exact Hsafe.
  unfold SlotService.getSlotNumber, SlotService.getSlotTime, SlotService.interval.
  apply Z.div_mul. lia.
Qed.

Lemma slot_number_of_slot_time_witness :
  SlotServiceIeee.getSlotNumber (SlotServiceIeee.getSlotTime 900719925474099)
  = 900719925474099.
Proof.
  apply (slot_number_of_slot_time 900719925474099); vm_compute; discriminate.
Defined.

(** The other way round only the start of the slot comes back. *)
Lemma slot_time_of_slot_number (epochTime : Z) :
  SlotService.getSlotTime (SlotService.getSlotNumber epochTime) <= epochTime
  < SlotService.getSlotTime (SlotService.getSlotNumber epochTime) + SlotService.interval.
Proof.
  unfold SlotService.getSlotNumber, SlotService.getSlotTime, SlotService.interval.
  pose proof (Z.div_mod epochTime 10 ltac:(lia)).
  pose proof (Z.mod_pos_bound epochTime 10 ltac:(lia)). lia.
Qed.

(** Scenario 6 of the specification: 25 seconds after the epoch start the
    time is 25, which lies in slot 2, and slot 2 starts at 20. *)
Example slot_gating (epochStart : Z) :
  SlotService.getTime epochStart (epochStart + 25000) = 25 /\
  SlotService.getSlotNumber 25 = 2 /\
  SlotService.getSlotTime 2 = 20.
Proof.
  repeat split. unfold SlotService.getTime, SlotService.getEpochTime, SlotService.SECOND.
  replace (epochStart + 25000 - epochStart) with 25000 by lia. reflexivity.
Qed.

(** The epoch start itself is second 0. *)
Lemma epoch_start_is_second_zero (epochStart : Z) :
  SlotService.getTime epochStart epochStart = 0.
Proof.
  unfold SlotService.getTime, SlotService.getEpochTime.
  now rewrite Z.sub_diag.
Qed.

(* ---------------------------------------------------------------------- *)
(** *** validate                                                           *)
(* ---------------------------------------------------------------------- *)

Section Validate.
Import Transaction TransactionService.
Variable env : Env.t.

Lemma In_snoc (x : string) (l : list string) : In x (l ++ [x]).
Proof. apply in_or_app. right. now left. Qed.

Lemma success_false_of_In {T} (r : ResponseEntity.t T) (x : string) :
  In x (ResponseEntity.errors r) -> ResponseEntity.success r = false.
Proof.
  unfold ResponseEntity.success. destruct (ResponseEntity.errors r); [intros [] | reflexivity].
Qed.

Lemma In_withService service trs sender errors x :
  In x errors -> In x (withService service trs sender errors).
Proof.
  unfold withService. destruct (ResponseEntity.success _); [auto |].
  intros H. apply in_or_app. now left.
Qed.

Lemma presenceErrors_fee trs : fee trs = 0 -> In "Missing fee" (presenceErrors trs).
Proof.
  intros H. unfold presenceErrors. rewrite H.
  change (Js.truthyNum 0) with false. cbv iota.
  destruct (Js.truthyNum (createdAt trs)), (Js.truthyStr (salt trs));
    repeat first [apply In_snoc | apply in_or_app; left].
Qed.

Lemma presenceErrors_createdAt trs :
  createdAt trs = 0 -> In "Missing creation time" (presenceErrors trs).
Proof.
  intros H. unfold presenceErrors. rewrite H.
  change (Js.truthyNum 0) with false. cbv iota. apply In_snoc.
Qed.

(** [validate] on a transaction that is there, in terms of the presence
    errors. *)
Lemma validate_unfold trs sender :
  validate env (Some trs) sender =
  do errors <-
    (if type trs =? Env.SEND env then
       match assetAmount trs with
       | Some amount =>
           let errors :=
             if Js.truthyNum amount then presenceErrors trs
             else presenceErrors trs ++ ["Missing amount"] in
           Returned
             (if (amount <? 0) || Js.numberTextHasDot amount || Js.numberTextHasE amount
              then errors ++ ["Invalid amount"] else errors)
       | None => Thrown "TypeError: Cannot read property 'toString' of undefined"
       end
     else Returned (presenceErrors trs));
  do service <- serviceOf env (type trs);
  Returned (ResponseEntity.fail (withService service trs sender errors)).
Proof. reflexivity. Qed.

End Validate.

(** C10. [validate] never lets a transaction with fee 0 or with createdAt 0
    pass: it returns a failure that lists 'Missing fee', respectively
    'Missing creation time'. (It throws instead of returning only when no
    service is registered for the type or a SEND carries no transfer
    asset.) *)
Theorem validate_rejects_zero_fee_and_zero_createdAt
    (env : Env.t) (trs : Transaction.t) (sender : Account.t) :
  Transaction.fee trs = 0 \/ Transaction.createdAt trs = 0 ->
  match TransactionService.validate env (Some trs) sender with
  | Returned r =>
      ResponseEntity.success r = false /\
      (Transaction.fee trs = 0 -> In "Missing fee" (ResponseEntity.errors r)) /\
      (Transaction.createdAt trs = 0 ->
       In "Missing creation time" (ResponseEntity.errors r))
  | Thrown _ =>
      Env.getTransactionServiceByType env (Transaction.type trs) = None \/
      (Transaction.type trs = Env.SEND env /\ Transaction.assetAmount trs = None)
  end.
Proof.
  intros Hzero. rewrite validate_unfold.
  assert (Hp : (Transaction.fee trs = 0 -> In "Missing fee" (presenceErrors trs)) /\
               (Transaction.createdAt trs = 0 ->
                In "Missing creation time" (presenceErrors trs)))
    by (split; [apply presenceErrors_fee | apply presenceErrors_createdAt]).
  assert (Hkeep : forall errors : list string,
    (forall x, In x (presenceErrors trs) -> In x errors) ->
    match
      (do service <- TransactionService.serviceOf env (Transaction.type trs);
       Returned (ResponseEntity.fail (T := unit) (withService service trs sender errors)))
    with
    | Returned r =>
        ResponseEntity.success r = false /\
        (Transaction.fee trs = 0 -> In "Missing fee" (ResponseEntity.errors r)) /\
        (Transaction.createdAt trs = 0 ->
         In "Missing creation time" (ResponseEntity.errors r))
    | Thrown _ => Env.getTransactionServiceByType env (Transaction.type trs) = None \/
      (Transaction.type trs = Env.SEND env /\ Transaction.assetAmount trs = None)
    end).
  { intros errors Hsub. unfold TransactionService.serviceOf.
    destruct (Env.getTransactionServiceByType env (Transaction.type trs)) as [service |];
      cbn; [| now left].
    destruct Hp as [Hf Hc].
    assert (Hf' : Transaction.fee trs = 0 ->
                  In "Missing fee" (withService service trs sender errors))
      by (intros H; apply In_withService, Hsub, Hf, H).
    assert (Hc' : Transaction.createdAt trs = 0 ->
                  In "Missing creation time" (withService service trs sender errors))
      by (intros H; apply In_withService, Hsub, Hc, H).
    split; [| split]; auto.
    destruct Hzero as [H | H];
      [apply (success_false_of_In (ResponseEntity.fail _) _ (Hf' H))
      | apply (success_false_of_In (ResponseEntity.fail _) _ (Hc' H))]. }
  destruct (Transaction.type trs =? Env.SEND env) eqn:Hsend.
  - destruct (Transaction.assetAmount trs) as [amount |] eqn:Hamount.
    + cbn [bindO]. apply Hkeep. intros x Hx.
      destruct ((amount <? 0) || _ || _); [apply in_or_app; left |];
        destruct (Js.truthyNum amount); auto; apply in_or_app; now left.
    + cbn. right. split; [now apply Z.eqb_eq | reflexivity].
  - cbn [bindO]. apply Hkeep. auto.
Qed.

Lemma validate_rejects_zero_fee_and_zero_createdAt_witness :
  let trs := Sample.send None 0 0 5 25 in
  (Transaction.fee trs = 0 \/ Transaction.createdAt trs = 0) /\
  match TransactionService.validate Sample.env (Some trs) (Sample.account 100 0) with
  | Returned r =>
      ResponseEntity.success r = false /\
      (Transaction.fee trs = 0 -> In "Missing fee" (ResponseEntity.errors r)) /\
      (Transaction.createdAt trs = 0 ->
       In "Missing creation time" (ResponseEntity.errors r))
  | Thrown _ =>
      Env.getTransactionServiceByType Sample.env (Transaction.type trs) = None \/
      (Transaction.type trs = Env.SEND Sample.env /\ Transaction.assetAmount trs = None)
  end.
Proof.
  split; [left; reflexivity |].
  apply (validate_rejects_zero_fee_and_zero_createdAt Sample.env
           (Sample.send None 0 0 5 25) (Sample.account 100 0)).
  left; reflexivity.
Defined.

Section ValidateAmount.
Import Transaction TransactionService.

Lemma presenceErrors_only_missing trs x :
  In x (presenceErrors trs) -> x <> "Invalid amount" /\ x <> "Missing amount".
Proof.
  unfold presenceErrors.
  destruct (Js.truthyOptStr (id trs)), (Js.truthyNum (type trs)),
    (Js.truthyNum (senderAddress trs)), (Js.truthyStr (senderPublicKey trs)),
    (Js.truthyOptStr (signature trs)), (Js.truthyNum (fee trs)),
    (Js.truthyStr (salt trs)), (Js.truthyNum (createdAt trs));
    cbn; intros H; repeat (destruct H as [<- | H]; [split; discriminate |]);
    destruct H.
Qed.

Lemma In_withService_inv service trs sender errors x :
  In x (withService service trs sender errors) ->
  In x errors \/ In x (ResponseEntity.errors (IAssetService.validate service trs sender)).
Proof.
  unfold withService. destruct (ResponseEntity.success _); [now left |].
  intros H. apply in_app_or in H. exact H.
Qed.

End ValidateAmount.

(** C9, as stated, fails: a SEND of amount 0 that is complete otherwise is
    refused with the single error 'Missing amount'; 'Invalid amount' is not
    reported. *)
Lemma send_zero_amount_is_not_invalid_amount :
  Transaction.asset (Sample.send None 100 1 5 0) = AssetTransfer 5 0 /\
  TransactionService.validate Sample.env (Some (Sample.send None 100 1 5 0))
    (Sample.account 100 0) = Returned (ResponseEntity.fail ["Missing amount"]) /\
  ~ rejected_as_invalid_amount Sample.env (Sample.send None 100 1 5 0)
      (Sample.account 100 0).
Proof.
  split; [reflexivity |]. split; [reflexivity |].
  intros [r [Hr [_ Hin]]]. vm_compute in Hr. inversion Hr; subst r; clear Hr.
  cbn in Hin. destruct Hin as [H | []]. discriminate H.
Qed.

(** C9, amended. [validate] of a SEND whose amount is 0 returns a failure
    whose error list contains 'Missing amount': amount 0 counts as absent.
    The amount test of [validate] itself does not report 'Invalid amount'
    for it; that error can only come from the service of the type. *)
Theorem validate_send_zero_amount
    (env : Env.t) (trs : Transaction.t) (sender : Account.t)
    (service : IAssetService.t) (recipient : Z) :
  Transaction.type trs = Env.SEND env ->
  Transaction.asset trs = AssetTransfer recipient 0 ->
  Env.getTransactionServiceByType env (Transaction.type trs) = Some service ->
  exists r,
    TransactionService.validate env (Some trs) sender = Returned r /\
    ResponseEntity.success r = false /\
    In "Missing amount" (ResponseEntity.errors r) /\
    (In "Invalid amount" (ResponseEntity.errors r) ->
     In "Invalid amount"
        (ResponseEntity.errors (IAssetService.validate service trs sender))).
Proof.
  intros Htype Hasset Hservice.
  exists (ResponseEntity.fail
            (withService service trs sender (presenceErrors trs ++ ["Missing amount"]))).
  assert (Hin : In "Missing amount"
                   (withService service trs sender (presenceErrors trs ++ ["Missing amount"])))
    by apply In_withService, In_snoc.
  split; [| split; [| split]].
  - rewrite validate_unfold. unfold Transaction.assetAmount, TransactionService.serviceOf.
    rewrite Hasset, Hservice, Htype, Z.eqb_refl. reflexivity.
  - apply (success_false_of_In (ResponseEntity.fail (T := unit) _) _ Hin).
  - exact Hin.
  - cbn [ResponseEntity.errors ResponseEntity.fail]. intros H.
    apply In_withService_inv in H. destruct H as [H | H]; [| exact H].
    apply in_app_or in H. destruct H as [H | [H | []]]; [| discriminate H].
    apply presenceErrors_only_missing in H. now destruct H.
Qed.

Lemma validate_send_zero_amount_witness :
  exists r,
    TransactionService.validate Sample.env (Some (Sample.send None 100 1 5 0))
      (Sample.account 100 0) = Returned r /\
    ResponseEntity.success r = false /\
    In "Missing amount" (ResponseEntity.errors r) /\
    (In "Invalid amount" (ResponseEntity.errors r) ->
     In "Invalid amount"
        (ResponseEntity.errors
           (IAssetService.validate Sample.service (Sample.send None 100 1 5 0)
              (Sample.account 100 0)))).
Proof.
  apply (validate_send_zero_amount Sample.env (Sample.send None 100 1 5 0)
           (Sample.account 100 0) Sample.service 5); reflexivity.
Defined.

(* ---------------------------------------------------------------------- *)
(** *** verifyUnconfirmed and the balance of the sender                    *)
(* ---------------------------------------------------------------------- *)

Section Balance.
Import Transaction TransactionService.
Variable env : Env.t.

Lemma optStrEq_true a b : Js.optStrEq a b = true <-> a = b.
Proof.
  destruct a as [x |], b as [y |]; cbn; try (split; congruence).
  rewrite String.eqb_eq. split; congruence.
Qed.

Lemma optStrEq_false a b : a <> b -> Js.optStrEq a b = false.
Proof.
  intros H. destruct (Js.optStrEq a b) eqn:E; [| reflexivity].
  apply optStrEq_true in E. contradiction.
Qed.

(** Computing the fee again touches the fee and the id only. *)
Lemma refreshFee_keeps trs trs' sender :
  refreshFee env trs sender = Returned trs' ->
  type trs' = type trs /\ blockId trs' = blockId trs /\ asset trs' = asset trs.
Proof.
  unfold refreshFee, calculateUnconfirmedFee.
  destruct (serviceOf env (type trs)) as [service | e]; cbn; [| discriminate].
  destruct (_ =? fee trs).
  - intros [= <-]. auto.
  - destruct (getId env _) as [i | e]; cbn; [| discriminate].
    intros [= <-]. auto.
Qed.

Lemma refreshFee_service trs trs' sender :
  refreshFee env trs sender = Returned trs' ->
  exists service, Env.getTransactionServiceByType env (type trs) = Some service.
Proof.
  unfold refreshFee, calculateUnconfirmedFee, serviceOf.
  destruct (Env.getTransactionServiceByType env (type trs)) as [service |];
    cbn; [eauto | discriminate].
Qed.

(** The balance test proper: outside the genesis block, [amount] passes
    exactly when it does not exceed [actualBalance]. *)
Lemma checkBalance_spec amount trs sender :
  blockId trs <> Some (Env.genesisBlockId env) ->
  checkBalance env (Some amount) trs sender =
  if amount <=? Account.actualBalance sender then ResponseEntity.ok
  else ResponseEntity.fail [notEnoughMoney sender (Some amount)].
Proof. intros H. unfold checkBalance. now rewrite (optStrEq_false _ _ H). Qed.

Lemma checkBalance_genesis amount trs sender :
  blockId trs = Some (Env.genesisBlockId env) ->
  checkBalance env amount trs sender = ResponseEntity.ok.
Proof.
  intros H. unfold checkBalance.
  now rewrite (proj2 (optStrEq_true _ _) H).
Qed.

End Balance.

(** C1, as stated, fails twice over. A sender with balance 100 of which 50
    are staked sends 60 at fee 10: 70 exceeds the spendable 50 and the SEND
    is accepted, the staked amount is not looked at. And a SEND of the
    genesis block is accepted whatever the balance. *)
Lemma spendable_balance_not_enforced :
  ~ bounded_by_spendable_balance Sample.env (Sample.send None 100 10 5 60)
      (Sample.account 100 50) 60 /\
  ~ bounded_by_spendable_balance Sample.env
      (Sample.send (Some (Env.genesisBlockId Sample.env)) 100 10 5 500)
      (Sample.account 100 0) 500.
Proof.
  split; intros [Honly _]; cbn in Honly;
    (assert (Hle : 60 + 10 <= 100 - 50 \/ 500 + 10 <= 100 - 0);
     [| destruct Hle; lia]);
    [left | right]; apply Honly; eexists; eexists; (split; [reflexivity | reflexivity]).
Qed.

(** C1, amended. The amount, the fee and the balance are safe integers,
    and amount plus fee is the sum as the code adds it: the exact sum while
    that is a safe integer, the nearest double beyond. For a SEND that is not
    in the genesis block, [verifyUnconfirmed] fails with the not-enough-money
    error whenever that sum exceeds [actualBalance], and the balance test
    passes whenever the sum is at most [actualBalance - totalStakedAmount]
    (so also when it equals it): the answer is then the one of the service of
    the type. A SEND of the genesis block skips the balance test. The fee is
    the one [verifyUnconfirmed] has just computed again. *)
Theorem verifyUnconfirmed_send_balance
    (env : Env.t) (trs trs' : Transaction.t) (sender : Account.t)
    (service : IAssetService.t) (checkExists : bool) (recipient amount : Z) :
  Transaction.type trs = Env.SEND env ->
  Transaction.asset trs = AssetTransfer recipient amount ->
  Env.getTransactionServiceByType env (Transaction.type trs) = Some service ->
  TransactionService.refreshFee env trs sender = Returned trs' ->
  checkExists && TransactionService.isConfirmed env trs' = false ->
  Ieee.safe amount -> Ieee.safe (Transaction.fee trs') ->
  Ieee.safe (Account.actualBalance sender) ->
  let total := Ieee.add amount (Transaction.fee trs') in
  let passed :=
    Returned (trs', IAssetService.verifyUnconfirmed service trs' sender) in
  (Ieee.safe (amount + Transaction.fee trs') -> total = amount + Transaction.fee trs') /\
  (Transaction.blockId trs <> Some (Env.genesisBlockId env) ->
   Account.actualBalance sender < total ->
   TransactionService.verifyUnconfirmed env trs sender checkExists =
   Returned (trs', ResponseEntity.fail
                     [TransactionService.notEnoughMoney sender (Some total)])) /\
  (0 <= Account.totalStakedAmount sender ->
   total <= Account.actualBalance sender - Account.totalStakedAmount sender ->
   TransactionService.verifyUnconfirmed env trs sender checkExists = passed) /\
  (Transaction.blockId trs = Some (Env.genesisBlockId env) ->
   TransactionService.verifyUnconfirmed env trs sender checkExists = passed).
Proof.
  intros Htype Hasset Hservice Hfee Hexists _ _ _ total passed.
  destruct (refreshFee_keeps env _ _ _ Hfee) as [Ht [Hb Ha]].
  assert (Hamount : Transaction.assetAmount trs' = Some amount)
    by (unfold Transaction.assetAmount; now rewrite Ha, Hasset).
  assert (Hstep : forall response,
    TransactionService.checkBalance env (Some total) trs' sender = response ->
    TransactionService.verifyUnconfirmed env trs sender checkExists =
    if negb (ResponseEntity.success response) then Returned (trs', response)
    else passed).
  { intros response <-. unfold TransactionService.verifyUnconfirmed.
    rewrite Hfee. cbn [bindO]. rewrite Hexists, Ht, Htype, Z.eqb_refl, Hamount.
    cbn [option_map]. fold total. destruct (negb _); [reflexivity |].
    unfold TransactionService.serviceOf. rewrite <- Htype, Hservice. reflexivity. }
  split; [| split; [| split]].
  - intros Hsafe. apply add_exact, Hsafe.
  - intros Hgen Hlt. rewrite (Hstep _ eq_refl).
    rewrite checkBalance_spec by (now rewrite Hb).
    destruct (Z.leb_spec total (Account.actualBalance sender)); [lia | reflexivity].
  - intros Hstaked Hle. rewrite (Hstep _ eq_refl).
    destruct (decide (Transaction.blockId trs = Some (Env.genesisBlockId env)))
      as [Hgen | Hgen].
    + rewrite checkBalance_genesis by (now rewrite Hb). reflexivity.
    + rewrite checkBalance_spec by (now rewrite Hb).
      destruct (Z.leb_spec total (Account.actualBalance sender)); [reflexivity | lia].
  - intros Hgen. rewrite (Hstep _ eq_refl).
    rewrite checkBalance_genesis by (now rewrite Hb). reflexivity.
Qed.

(** At the end of the safe integers: the largest of them plus a fee of 2 is
    an odd number that no double holds; the code compares, and prints, the
    double 2^53. With the largest safe integer as balance the SEND is
    refused. *)
Lemma verifyUnconfirmed_send_balance_witness :
  let env := Sample.env in
  let sender := Sample.account 9007199254740991 0 in
  let trs := Sample.send None 100 2 5 9007199254740991 in
  Ieee.add 9007199254740991 2 = 9007199254740992 /\
  TransactionService.verifyUnconfirmed env trs sender false =
  Returned (trs, ResponseEntity.fail
                   ["Not enough money on account 7: balance 9007199254740991, amount: 9007199254740992"]) /\
  TransactionService.verifyUnconfirmed env (Sample.send None 100 10 5 60)
    (Sample.account 100 30) false =
  Returned (Sample.send None 100 10 5 60,
            IAssetService.verifyUnconfirmed Sample.service (Sample.send None 100 10 5 60)
              (Sample.account 100 30)).
Proof.
  split; [vm_compute; reflexivity |]. split.
  - destruct (verifyUnconfirmed_send_balance Sample.env
                (Sample.send None 100 2 5 9007199254740991)
                (Sample.send None 100 2 5 9007199254740991)
                (Sample.account 9007199254740991 0) Sample.service false
                5 9007199254740991 eq_refl eq_refl eq_refl eq_refl eq_refl)
      as [_ [Hfail _]]; [vm_compute; split; discriminate ..|].
    etrans; [apply Hfail; [discriminate | vm_compute; reflexivity] |].
    vm_compute. reflexivity.
  - destruct (verifyUnconfirmed_send_balance Sample.env (Sample.send None 100 10 5 60)
                (Sample.send None 100 10 5 60) (Sample.account 100 30) Sample.service
                false 5 60 eq_refl eq_refl eq_refl eq_refl eq_refl)
      as [_ [_ [Hpass _]]]; [vm_compute; split; discriminate ..|].
    apply Hpass; vm_compute; discriminate.
Defined.

(** Scenario 3 of the specification: balance 100, nothing staked, a SEND
    of 90 at fee 20 is refused for lack of money. *)
Example insufficient_balance :
  TransactionService.verifyUnconfirmed Sample.env (Sample.send None 100 20 5 90)
    (Sample.account 100 0) false =
  Returned (Sample.send None 100 20 5 90,
            ResponseEntity.fail ["Not enough money on account 7: balance 100, amount: 110"]).
Proof. vm_compute. reflexivity. Qed.

(* ---------------------------------------------------------------------- *)
(** *** Signatures                                                         *)
(* ---------------------------------------------------------------------- *)

(** The verifiers answer [undefined] whatever they are given. *)
Lemma verifiers_answer_undefined (trs : Transaction.t) (bytes : Buffer.t)
    (publicKey signature : string) :
  TransactionService.verifySignature trs publicKey signature = None /\
  TransactionService.verifyBytes bytes publicKey signature = None /\
  TransactionService.verifySecondSignature trs publicKey signature = None.
Proof. repeat split. Qed.

(** C7 on the code: the signature that [sign] makes for a transaction is not
    verified by [verifySignature], nor is it by [verifyBytes] over the bytes
    of the transaction; both return [undefined], not a success. *)
Theorem sign_then_verify_is_undefined :
  let trs := Sample.send None 100 10 5 60 in
  let publicKey := Buffer.toHex (kp_publicKey Sample.keyPair) in
  exists signature bytes,
    TransactionService.sign Sample.env Sample.keyPair trs = Returned signature /\
    TransactionService.getBytes Sample.env trs = Returned bytes /\
    TransactionService.verifySignature trs publicKey signature = None /\
    TransactionService.verifyBytes bytes publicKey signature = None.
Proof.
  cbv zeta. eexists; eexists. split; [vm_compute; reflexivity |].
  split; [vm_compute; reflexivity |]. split; reflexivity.
Qed.

(* ---------------------------------------------------------------------- *)
(** *** The order of ids                                                   *)
(* ---------------------------------------------------------------------- *)

Section HexOrder.
Import HexId.

Lemma digit_range c : isLowerHexChar c = true -> 0 <= digit c < 16.
Proof.
  unfold isLowerHexChar, digit, Buffer.hexDigit.
  set (n := Z.of_nat (nat_of_ascii c)). intros H.
  destruct (48 <=? n) eqn:E1, (n <=? 57) eqn:E2; cbn in *; try lia;
    destruct (97 <=? n) eqn:E3, (n <=? 102) eqn:E4; cbn in *; try discriminate; lia.
Qed.

(** On lower-case digits the order of the characters is the order of
    their values. *)
Lemma digit_mono c d :
  isLowerHexChar c = true -> isLowerHexChar d = true ->
  (nat_of_ascii c < nat_of_ascii d)%nat -> digit c < digit d.
Proof.
  unfold isLowerHexChar, digit, Buffer.hexDigit. intros Hc Hd Hlt.
  assert (Hz : Z.of_nat (nat_of_ascii c) < Z.of_nat (nat_of_ascii d)) by lia.
  revert Hc Hd Hz.
  generalize (Z.of_nat (nat_of_ascii c)) (Z.of_nat (nat_of_ascii d)).
  intros n k Hc Hd Hz.
  destruct (48 <=? n) eqn:E1, (n <=? 57) eqn:E2,
           (48 <=? k) eqn:F1, (k <=? 57) eqn:F2; cbn in *;
    try (destruct (97 <=? n) eqn:E3, (n <=? 102) eqn:E4; cbn in *; try discriminate);
    try (destruct (97 <=? k) eqn:F3, (k <=? 102) eqn:F4; cbn in *; try discriminate);
    lia.
Qed.

Lemma digit_eq c d :
  nat_of_ascii c = nat_of_ascii d -> digit c = digit d.
Proof.
  intros H. unfold digit, Buffer.hexDigit. now rewrite H.
Qed.

Lemma value_range s :
  isLowerHex s = true -> 0 <= value s < 16 ^ Z.of_nat (String.length s).
Proof.
  induction s as [| c s IH]; cbn [isLowerHex value String.length]; [lia |].
  intros H. apply andb_prop in H. destruct H as [Hc Hs].
  specialize (IH Hs). pose proof (digit_range c Hc) as Hd.
  rewrite Nat2Z.inj_succ, Z.pow_succ_r by lia. nia.
Qed.

(** [a > b] on two ids of the same length is the order of their
    numbers. *)
Lemma strGt_value a : forall b,
  isLowerHex a = true -> isLowerHex b = true ->
  String.length a = String.length b ->
  (Js.strGt a b = true <-> value b < value a).
Proof.
  induction a as [| x a IH]; intros [| y b] Ha Hb Hlen; cbn in Hlen; try discriminate.
  - cbn. split; [discriminate | lia].
  - cbn [isLowerHex] in Ha, Hb.
    apply andb_prop in Ha. destruct Ha as [Hx Ha].
    apply andb_prop in Hb. destruct Hb as [Hy Hb].
    injection Hlen as Hlen.
    pose proof (value_range a Ha) as Ra. pose proof (value_range b Hb) as Rb.
    pose proof (digit_range x Hx) as Dx. pose proof (digit_range y Hy) as Dy.
    cbn [Js.strGt value]. rewrite Hlen in Ra |- *.
    set (P := 16 ^ Z.of_nat (String.length b)) in *.
    destruct (Nat.ltb_spec (nat_of_ascii y) (nat_of_ascii x)) as [Hyx | Hyx].
    + pose proof (digit_mono y x Hy Hx Hyx). split; [intros _; nia | reflexivity].
    + destruct (Nat.ltb_spec (nat_of_ascii x) (nat_of_ascii y)) as [Hxy | Hxy].
      * pose proof (digit_mono x y Hx Hy Hxy). split; [discriminate | nia].
      * assert (Heq : nat_of_ascii x = nat_of_ascii y) by lia.
        rewrite (digit_eq x y Heq). rewrite (IH b Ha Hb Hlen). lia.
Qed.

End HexOrder.

(* ---------------------------------------------------------------------- *)
(** *** Fork recovery                                                      *)
(* ---------------------------------------------------------------------- *)

Section Forks.
Import Block Process.
Variable m : Modules.t.

Lemma lastBlockStands_spec block lastBlock :
  comparableIds (id block) (id lastBlock) ->
  lastBlockStands block lastBlock = true <->
  timestamp lastBlock < timestamp block \/
  (timestamp block = timestamp lastBlock /\
   HexId.value (id lastBlock) < HexId.value (id block)).
Proof.
  intros [Ha [Hb Hlen]]. unfold lastBlockStands.
  rewrite orb_true_iff, andb_true_iff, Z.ltb_lt, Z.eqb_eq.
  now rewrite (strGt_value _ _ Ha Hb Hlen).
Qed.

(** The three checks, when they all pass. *)
Lemma checkReceived_pass block lastBlock tmpBlock n :
  Modules.objectNormalize m block = Returned tmpBlock ->
  failed (validateBlockSlot m tmpBlock lastBlock) = false ->
  verified (Modules.verifyReceipt m tmpBlock) = true ->
  checkReceived m block lastBlock n =
  (Node.record (CallVerifyReceipt (id tmpBlock))
     (Node.record (CallValidateBlockSlot (id tmpBlock))
        (Node.record (CallObjectNormalize (id block)) n)), None).
Proof.
  intros Hn Hs Hv. unfold checkReceived. rewrite Hn, Hs, Hv. reflexivity.
Qed.








(** A block of fork 1 is handed to [receiveForkOne]. *)
Lemma onReceiveBlock_forkOne block n :
  ready n -> forkOne block (Node.lastBlock n) ->
  onReceiveBlock m block n = receiveForkOne m block (Node.lastBlock n) n.
Proof.
  intros [Hl [Hs Ht]] [Hprev Hheight]. unfold onReceiveBlock.
  rewrite Hl, Hs, Ht. cbn [negb orb].
  apply String.eqb_neq in Hprev. rewrite Hprev.
  apply Z.eqb_eq in Hheight. rewrite Hheight. reflexivity.
Qed.

(** A block of fork 5 is handed to [receiveForkFive]. *)
Lemma onReceiveBlock_forkFive block n :
  ready n -> forkFive block (Node.lastBlock n) ->
  onReceiveBlock m block n = receiveForkFive m block (Node.lastBlock n) n.
Proof.
  intros [Hl [Hs Ht]] [Hprev [Hheight Hid]]. unfold onReceiveBlock.
  rewrite Hl, Hs, Ht. cbn [negb orb].
  assert (Hh : (Block.height (Node.lastBlock n) + 1 =? Block.height block) = false)
    by (apply Z.eqb_neq; lia).
  rewrite Hh, !andb_false_r.
  apply String.eqb_eq in Hprev. rewrite Hprev.
  apply Z.eqb_eq in Hheight. rewrite Hheight.
  apply String.eqb_neq in Hid. rewrite Hid. reflexivity.
Qed.

End Forks.



Section ForkFive.
Import Block Process.
Variable m : Modules.t.

Lemma newProcessBlock_accepted block n :
  accepted m block (Node.lastBlock n) ->
  newProcessBlock m block n =
  (Node.setChain (Node.record (CallNewProcessBlock (id block)) n) block
     (Node.lastBlock n :: Node.previous n), None).
Proof.
  intros [Hv [Hp [Hh [Ht [Hpay Happ]]]]]. unfold newProcessBlock.
  change (Node.lastBlock (Node.record _ n)) with (Node.lastBlock n).
  change (Node.previous (Node.record _ n)) with (Node.previous n).
  rewrite Hv, Hpay, Happ.
  apply String.eqb_eq in Hp. rewrite Hp.
  apply Z.eqb_eq in Hh. rewrite Hh.
  apply Z.ltb_lt in Ht. rewrite Ht. reflexivity.
Qed.

(** A received block that is accepted becomes the last block, on top of
    the chain as it was. *)
Lemma newReceiveBlock_accepted block n :
  accepted m block (Node.lastBlock n) ->
  Node.chain (fst (newReceiveBlock m block n)) = block :: Node.chain n /\
  Node.locked (fst (newReceiveBlock m block n)) = false.
Proof.
  intros Hacc. unfold newReceiveBlock.
  rewrite newProcessBlock_accepted by exact Hacc.
  destruct (Modules.returnToQueueConflicted m _); split; reflexivity.
Qed.

(** The steps of [receiveForkFive] up to the deletion of the last block,
    when the received block wins and passes the checks. *)
Lemma receiveForkFive_wins block n tmpBlock parent rest :
  lastBlockStands block (Node.lastBlock n) = false ->
  Modules.objectNormalize m block = Returned tmpBlock ->
  failed (validateBlockSlot m tmpBlock (Node.lastBlock n)) = false ->
  verified (Modules.verifyReceipt m tmpBlock) = true ->
  Node.previous n = parent :: rest ->
  receiveForkFive m block (Node.lastBlock n) n =
  (fst (newReceiveBlock m block
          (Node.mk (Node.loaded n) (Node.syncing n) (Node.ticking n) parent rest
             (Node.pool n) (Node.locked n)
             (Node.calls n ++
              [CallFork (id block) 5; CallObjectNormalize (id block);
               CallValidateBlockSlot (id tmpBlock); CallVerifyReceipt (id tmpBlock);
               CallDeleteLastBlock]))), None).
Proof.
  intros Hs Hn Hv Hr Hprev. unfold receiveForkFive. rewrite Hs.
  rewrite (checkReceived_pass m _ _ _ _ Hn Hv Hr). cbn [failed Js.truthyOptStr].
  unfold deleteLastBlock, Node.record, Node.setChain. cbn.
  rewrite Hprev. cbn. rewrite <- !app_assoc. cbn.
  destruct (newReceiveBlock m block _). reflexivity.
Qed.

(** The processing of a received block that is not accepted leaves the
    chain as it was: the error is caught in [newReceiveBlock]. *)
Lemma newReceiveBlock_not_accepted block n n' e :
  newProcessBlock m block
    (lockTransactionPoolAndQueue
       (Node.setPool (Node.record CallLastReceiptUpdate n)
          (filter (fun trs => negb (inTransactions trs
                     (Modules.removeFromPool m (transactions block) (Node.pool n))))
                  (Node.pool n)))) = (n', Some e) ->
  Node.chain (fst (newReceiveBlock m block n)) = Node.chain n /\
  snd (newReceiveBlock m block n) = None.
Proof.
  intros Hprocess. unfold newReceiveBlock.
  change (Node.pool (Node.record CallLastReceiptUpdate n)) with (Node.pool n).
  rewrite Hprocess. unfold newProcessBlock in Hprocess.
  destruct (_ && _) in Hprocess; [discriminate |].
  injection Hprocess as <- _. split; reflexivity.
Qed.

(** A block that is not accepted is refused: [newProcessBlock] throws and
    changes nothing of the chain. *)
Lemma newProcessBlock_not_accepted block n :
  ~ accepted m block (Node.lastBlock n) ->
  newProcessBlock m block n =
  (Node.record (CallNewProcessBlock (id block)) n, Some "Error: block is not accepted").
Proof.
  intros Hno. unfold newProcessBlock.
  change (Node.lastBlock (Node.record _ n)) with (Node.lastBlock n).
  destruct (_ && _) eqn:Hall; [| reflexivity].
  exfalso. apply Hno.
  repeat (apply andb_true_iff in Hall; destruct Hall as [Hall ?]).
  repeat split; try assumption.
  - now apply String.eqb_eq.
  - now apply Z.eqb_eq.
  - now apply Z.ltb_lt.
Qed.

End ForkFive.

(** C4 as stated fails when the processing refuses the block. The chain is
    [genesis], [b2] (time 80), [b3] (time 100). A block of the height and the
    parent of [b3], of time 70, wins against [b3] and passes the three checks;
    [b3] is deleted, and the processing then refuses the block, which is not
    newer than [b2]. The error is caught: nothing is reported, and the chain
    is left with [b2] as last block. *)
Lemma fork_five_winner_can_be_refused :
  let block := Sample.block "aa02" 3 "b1" 70 in
  let n := Sample.node [] in
  let result := Process.onReceiveBlock Sample.modules block n in
  ready n /\ forkFive block (Node.lastBlock n) /\
  Process.lastBlockStands block (Node.lastBlock n) = false /\
  Node.chain n = [Sample.b3; Sample.b2; Sample.genesis] /\
  Node.chain (fst result) = [Sample.b2; Sample.genesis] /\
  snd result = None /\
  ~ winner_becomes_head Sample.modules block n.
Proof.
  cbv zeta.
  split; [repeat split |].
  split; [split; [reflexivity | split; [reflexivity | discriminate]] |].
  split; [reflexivity |]. split; [reflexivity |]. split; [reflexivity |].
  split; [reflexivity |].
  intros Hhead.
  assert (H : Node.lastBlock
                (fst (Process.onReceiveBlock Sample.modules (Sample.block "aa02" 3 "b1" 70)
                        (Sample.node []))) = Sample.block "aa02" 3 "b1" 70).
  { apply Hhead.
    - repeat split.
    - split; [reflexivity | split; [reflexivity | discriminate]].
    - reflexivity.
    - exists (Sample.block "aa02" 3 "b1" 70). repeat split. }
  vm_compute in H. discriminate H.
Qed.

(** C4, amended. A block of fork 5 (the height and the parent of the last
    block, another id) is resolved by the same test as fork 1: the last block
    stands when it is older, or as old and of numerically smaller id, and
    then the received block is discarded and the chain stays as it is.
    Otherwise, the received block having passed the checks made before any
    deletion, exactly the last block is deleted and the received block is
    processed on the chain that is left. When the processing accepts it, it
    is the new last block, on top of the former parent. When the processing
    refuses it, the error is caught, no error is passed on, and the chain is
    left with the former parent as last block. *)
Theorem fork_five_resolution (m : Modules.t) (block : Block.t) (n : Node.t) :
  ready n ->
  forkFive block (Node.lastBlock n) ->
  comparableIds (Block.id block) (Block.id (Node.lastBlock n)) ->
  let lastBlock := Node.lastBlock n in
  let result := Process.onReceiveBlock m block n in
  (Process.lastBlockStands block lastBlock = true <->
   Block.timestamp lastBlock < Block.timestamp block \/
   (Block.timestamp block = Block.timestamp lastBlock /\
    HexId.value (Block.id lastBlock) < HexId.value (Block.id block))) /\
  (Process.lastBlockStands block lastBlock = true ->
   result = (Node.record (CallFork (Block.id block) 5) n, None)) /\
  (Process.lastBlockStands block lastBlock = false ->
   forall tmpBlock parent rest,
     Modules.objectNormalize m block = Returned tmpBlock ->
     Process.failed (Process.validateBlockSlot m tmpBlock lastBlock) = false ->
     verified (Modules.verifyReceipt m tmpBlock) = true ->
     Node.previous n = parent :: rest ->
     result =
     (fst (Process.newReceiveBlock m block
             (Node.mk (Node.loaded n) (Node.syncing n) (Node.ticking n) parent rest
                (Node.pool n) (Node.locked n)
                (Node.calls n ++
                 [CallFork (Block.id block) 5; CallObjectNormalize (Block.id block);
                  CallValidateBlockSlot (Block.id tmpBlock);
                  CallVerifyReceipt (Block.id tmpBlock); CallDeleteLastBlock]))), None) /\
     (accepted m block parent ->
      Node.lastBlock (fst result) = block /\ Node.previous (fst result) = parent :: rest) /\
     (~ accepted m block parent ->
      Node.lastBlock (fst result) = parent /\ Node.previous (fst result) = rest)).
Proof.
  intros Hready Hfork Hids lastBlock result. subst result.
  rewrite (onReceiveBlock_forkFive m block n Hready Hfork). fold lastBlock.
  split; [apply lastBlockStands_spec, Hids |].
  split.
  - intros Hs. unfold Process.receiveForkFive. now rewrite Hs.
  - intros Hs tmpBlock parent rest Hn Hv Hr Hprev. subst lastBlock.
    rewrite (receiveForkFive_wins m block n tmpBlock parent rest Hs Hn Hv Hr Hprev).
    split; [reflexivity |]. split.
    + intros Hacc. cbn [fst].
      match goal with
      | |- context [Process.newReceiveBlock m block ?n1] =>
          destruct (newReceiveBlock_accepted m block n1 Hacc) as [Hchain _]
      end.
      unfold Node.chain in Hchain. cbn in Hchain.
      injection Hchain as Hlast Hrest. split; assumption.
    + intros Hno. cbn [fst].
      match goal with
      | |- context [Process.newReceiveBlock m block ?n1] =>
          edestruct (newReceiveBlock_not_accepted m block n1) as [Hchain _];
            [apply newProcessBlock_not_accepted; exact Hno |]
      end.
      unfold Node.chain in Hchain. cbn in Hchain.
      injection Hchain as Hlast Hrest. split; assumption.
Qed.

Lemma fork_five_resolution_witness :
  let block := Sample.block "aa02" 3 "b1" 100 in
  let result := Process.onReceiveBlock Sample.modules block (Sample.node []) in
  Process.lastBlockStands block Sample.b3 = false /\
  Node.lastBlock (fst result) = block /\
  Node.previous (fst result) = [Sample.b2; Sample.genesis].
Proof.
  pose proof (fork_five_resolution Sample.modules (Sample.block "aa02" 3 "b1" 100)
                (Sample.node [])) as H.
  cbv zeta in H.
  assert (Hready : ready (Sample.node [])) by (repeat split).
  assert (Hfork : forkFive (Sample.block "aa02" 3 "b1" 100) (Node.lastBlock (Sample.node [])))
    by (split; [reflexivity | split; [reflexivity | discriminate]]).
  assert (Hids : comparableIds (Block.id (Sample.block "aa02" 3 "b1" 100))
                   (Block.id (Node.lastBlock (Sample.node []))))
    by (repeat split).
  destruct (H Hready Hfork Hids) as [_ [_ Hwin]].
  destruct (Hwin eq_refl (Sample.block "aa02" 3 "b1" 100) Sample.b2 [Sample.genesis]
              eq_refl eq_refl eq_refl eq_refl) as [_ [Hhead _]].
  split; [reflexivity |].
  apply Hhead. repeat split.
Defined.

(* ---------------------------------------------------------------------- *)
(** *** Block generation                                                   *)
(* ---------------------------------------------------------------------- *)

Section Generate.
Import Process.
Variable m : Modules.t.

Lemma insert_perm {A} (before : A -> A -> bool) a l :
  ListSort.insert before a l ≡ₚ a :: l.
Proof.
  induction l as [| x l IH]; cbn; [reflexivity |].
  destruct (before a x); [reflexivity |].
  rewrite IH. apply Permutation_swap.
Qed.

Lemma sort_perm {A} (before : A -> A -> bool) l : ListSort.sort before l ≡ₚ l.
Proof.
  induction l as [| x l IH]; cbn; [reflexivity |].
  fold (ListSort.sort before l). rewrite insert_perm. now rewrite IH.
Qed.

Lemma sortPool_perm l : sortPool l ≡ₚ l.
Proof. apply sort_perm. Qed.

Lemma drained_and_kept n : drained m n ++ Node.pool (whenCreating m n) ≡ₚ Node.pool n.
Proof.
  unfold drained, whenCreating, getUnconfirmedTransactionsForBlockGeneration. cbn.
  rewrite take_drop. apply sortPool_perm.
Qed.

Lemma newGenerateBlock_unfold keypair timestamp n :
  newGenerateBlock m keypair timestamp n =
  match Modules.blockCreate m keypair timestamp (Node.lastBlock n) (drained m n) with
  | Thrown e => (whenCreating m n, Some e)
  | Returned block =>
      match newProcessBlock m block (whenCreating m n) with
      | (n', None) => (unlockTransactionPoolAndQueue n', None)
      | (n', Some _) => (unlockTransactionPoolAndQueue (pushInPool (drained m n) n'), None)
      end
  end.
Proof. reflexivity. Qed.

(** The path that works: when processing the created block fails, the
    drained transactions are back in the pool and the lock is free. *)
Lemma newGenerateBlock_processing_fails keypair timestamp n block n' e :
  Modules.blockCreate m keypair timestamp (Node.lastBlock n) (drained m n) = Returned block ->
  newProcessBlock m block (whenCreating m n) = (n', Some e) ->
  snd (newGenerateBlock m keypair timestamp n) = None /\
  Node.locked (fst (newGenerateBlock m keypair timestamp n)) = false /\
  Node.pool (fst (newGenerateBlock m keypair timestamp n)) ≡ₚ Node.pool n.
Proof.
  intros Hcreate Hprocess. rewrite newGenerateBlock_unfold, Hcreate, Hprocess.
  split; [reflexivity |]. split; [reflexivity |].
  unfold newProcessBlock in Hprocess.
  destruct (_ && _) in Hprocess; [discriminate |].
  injection Hprocess as <- _.
  change (Node.pool (whenCreating m n) ++ drained m n ≡ₚ Node.pool n).
  etrans; [apply Permutation_app_comm | apply drained_and_kept].
Qed.

(** The path that does not: when creating the block throws, the error is
    thrown on with the lock held and the drained transactions outside the
    pool; nothing is pushed back. *)
Lemma newGenerateBlock_create_throws keypair timestamp n e :
  Modules.blockCreate m keypair timestamp (Node.lastBlock n) (drained m n) = Thrown e ->
  snd (newGenerateBlock m keypair timestamp n) = Some e /\
  Node.locked (fst (newGenerateBlock m keypair timestamp n)) = true /\
  Node.pool (fst (newGenerateBlock m keypair timestamp n)) =
    drop (Modules.maxTxsPerBlock m) (sortPool (Node.pool n)) /\
  Node.calls (fst (newGenerateBlock m keypair timestamp n)) =
    Node.calls n ++ [CallBlockCreate].
Proof.
  intros Hcreate. rewrite newGenerateBlock_unfold, Hcreate. repeat split.
Qed.

End Generate.

(** C6 on the code: generation fails while the block is constructed. The
    pool holds two transactions and the lock is free; [blockCreate] throws.
    [newGenerateBlock] throws the error on and leaves the lock held and the
    pool empty: the two drained transactions are not pushed back. *)
Theorem newGenerateBlock_construction_failure_keeps_lock :
  let n := Sample.node [Sample.t1; Sample.t2] in
  let result := Process.newGenerateBlock Sample.modules Sample.noKey 110 n in
  Node.pool n = [Sample.t1; Sample.t2] /\ Node.locked n = false /\
  drained Sample.modules n = [Sample.t1; Sample.t2] /\
  snd result = Some "Error: Invalid keypair" /\
  Node.locked (fst result) = true /\
  Node.pool (fst result) = [] /\
  Node.calls (fst result) = [CallBlockCreate].
Proof. cbv zeta. repeat split. Qed.

(* ---------------------------------------------------------------------- *)
(** *** The bytes of a transaction                                         *)
(* ---------------------------------------------------------------------- *)

Section Bytes.

Lemma length_le w v : length (Buffer.le w v) = w.
Proof. revert v. induction w as [| w IH]; intros v; cbn; [reflexivity | now rewrite IH]. Qed.

Lemma length_field w data : length (field w data) = w.
Proof. unfold field. rewrite length_app, length_replicate, length_take. lia. Qed.

Lemma field_nil w : field w [] = replicate w 0.
Proof. unfold field. rewrite take_nil. cbn. now rewrite Nat.sub_0_r. Qed.

(** Zeros that are skipped are a field of zeros. *)
Lemma skip_zeros (pre : list Z) (k w : nat) :
  (w <= k)%nat ->
  pre ++ replicate k 0 = (pre ++ replicate w 0) ++ replicate (k - w) 0.
Proof.
  intros Hw. rewrite <- app_assoc, <- replicate_add. do 2 f_equal. lia.
Qed.

(** A write into the zeros behind what was written before. *)
Lemma write_zeros (pre : list Z) (k : nat) s offset w enc :
  offset = length pre -> (w <= k)%nat ->
  Buffer.write (pre ++ replicate k 0) s offset w enc =
  Returned ((pre ++ field w (Buffer.decode enc s)) ++ replicate (k - w) 0).
Proof.
  intros -> Hw. unfold Buffer.write, Buffer.blit.
  rewrite length_app, length_replicate.
  destruct (Nat.ltb_spec (length pre + k) (length pre)) as [Hlt | _]; [lia |].
  cbn [andb]. f_equal.
  replace (length pre + k - length pre)%nat with k by lia.
  rewrite Nat.min_l by exact Hw.
  rewrite take_app_length, drop_app_add, drop_replicate.
  unfold field. rewrite <- !app_assoc. f_equal. f_equal.
  rewrite <- replicate_add. f_equal.
  pose proof (length_take_le (Buffer.decode enc s) w).
  rewrite length_take. lia.
Qed.

Lemma writeFixed_zeros (pre : list Z) (k : nat) bs offset :
  offset = length pre -> (length bs <= k)%nat ->
  BUFFER.writeFixed (pre ++ replicate k 0) bs offset =
  Returned ((pre ++ bs) ++ replicate (k - length bs) 0, (offset + length bs)%nat).
Proof.
  intros -> Hw. unfold BUFFER.writeFixed, Buffer.blit.
  rewrite length_app, length_replicate.
  destruct (Nat.ltb_spec (length pre + k) (length pre + length bs)) as [Hlt | _]; [lia |].
  rewrite take_app_length, drop_app_add, drop_replicate, <- app_assoc.
  reflexivity.
Qed.

Lemma writeNotNull_zeros (pre : list Z) (k : nat) value offset w :
  offset = length pre -> (w <= k)%nat ->
  BUFFER.writeNotNull (pre ++ replicate k 0) value offset w =
  Returned ((pre ++ field w (Buffer.hexDecode value)) ++ replicate (k - w) 0,
            (offset + w)%nat).
Proof.
  intros Ho Hw. unfold BUFFER.writeNotNull.
  destruct value as [| c value]; cbn [Js.truthyStr].
  - cbn [Buffer.hexDecode]. rewrite field_nil, <- skip_zeros by exact Hw. reflexivity.
  - rewrite (write_zeros pre k _ offset w Buffer.Hex Ho Hw). reflexivity.
Qed.

(** A signature that is there is written; one that is not leaves zeros. *)
Lemma writeSignature_zeros (pre : list Z) (k : nat) (sig : option string) offset w :
  offset = length pre -> (w <= k)%nat ->
  (if Js.truthyOptStr sig
   then Buffer.write (pre ++ replicate k 0) (TransactionService.optText sig) offset w
          Buffer.Hex
   else Returned (pre ++ replicate k 0)) =
  Returned ((pre ++ field w (signatureBytes sig)) ++ replicate (k - w) 0).
Proof.
  intros Ho Hw.
  assert (Hzero : Returned (pre ++ replicate k 0) =
                  Returned ((pre ++ field w []) ++ replicate (k - w) 0)).
  { rewrite field_nil, <- skip_zeros by exact Hw. reflexivity. }
  destruct sig as [[| c sig] |]; cbn [Js.truthyOptStr Js.truthyStr signatureBytes];
    [exact Hzero | | exact Hzero].
  rewrite (write_zeros pre k _ offset w Buffer.Hex Ho Hw). reflexivity.
Qed.

End Bytes.

Section Layout.
Import Transaction.
Variable env : Env.t.

Ltac widths :=
  rewrite ?length_app, ?length_field, ?length_le, ?length_replicate;
  unfold headerWidth, BUFFER.LENGTH_BYTE, BUFFER.LENGTH_UINT32, BUFFER.LENGTH_INT64 in *;
  cbn [length]; lia.

(** [getBytes] on a header that has room for all its fields. *)
Lemma getBytes_header trs service :
  Env.getTransactionServiceByType env (type trs) = Some service ->
  (type trs = Env.SEND env -> exists recipient amount,
      asset trs = AssetTransfer recipient amount) ->
  (headerWidth env <= Env.TRANSACTION_BUFFER_SIZE env)%nat ->
  TransactionService.getBytes env trs =
  Returned ((headerFields env trs
             ++ replicate (Env.TRANSACTION_BUFFER_SIZE env - headerWidth env) 0)
            ++ IAssetService.getBytes service trs).
Proof.
  intros Hservice Hasset Hfits.
  unfold TransactionService.getBytes, TransactionService.serviceOf.
  rewrite Hservice. cbn [bindO]. unfold Buffer.alloc.
  change (replicate (Env.TRANSACTION_BUFFER_SIZE env) 0)
    with (@nil Z ++ replicate (Env.TRANSACTION_BUFFER_SIZE env) 0).
  rewrite (write_zeros [] _ _ 0 _ _ eq_refl) by widths. cbn [bindO].
  unfold BUFFER.writeInt8, BUFFER.writeInt32LE, BUFFER.writeUInt64LE.
  rewrite writeFixed_zeros by widths. cbn [bindO].
  rewrite writeFixed_zeros by widths. cbn [bindO].
  rewrite writeNotNull_zeros by widths. cbn [bindO].
  assert (Htransfer :
    forall (pre : list Z) (k offset : nat),
      offset = length pre -> (16 <= k)%nat ->
      (if type trs =? Env.SEND env
       then
         match asset trs with
         | AssetTransfer recipientAddress amount =>
             do ' (bytes, offset) <-
               BUFFER.writeFixed (pre ++ replicate k 0)
                 (Buffer.le BUFFER.LENGTH_INT64 recipientAddress) offset;
             BUFFER.writeFixed bytes (Buffer.le BUFFER.LENGTH_INT64 amount) offset
         | AssetOther _ => Thrown "TypeError: value is undefined"
         end
       else Returned (pre ++ replicate k 0,
                      (offset + (BUFFER.LENGTH_INT64 + BUFFER.LENGTH_INT64))%nat)) =
      Returned ((pre ++ transferBytes env trs) ++ replicate (k - 16) 0,
                (offset + 16)%nat)).
  { intros pre k offset Ho Hk. unfold transferBytes.
    destruct (type trs =? Env.SEND env) eqn:Hsend.
    - apply Z.eqb_eq in Hsend. destruct (Hasset Hsend) as [recipient [amount ->]].
      rewrite writeFixed_zeros by widths. cbn [bindO].
      rewrite writeFixed_zeros by widths.
      rewrite !length_le. unfold BUFFER.LENGTH_INT64.
      rewrite <- !app_assoc.
      replace (k - 8 - 8)%nat with (k - 16)%nat by lia.
      replace (offset + 8 + 8)%nat with (offset + 16)%nat by lia. reflexivity.
    - rewrite <- skip_zeros by exact Hk. reflexivity. }
  rewrite Htransfer by widths. cbn [bindO].
  assert (Hlen : length (transferBytes env trs) = 16%nat).
  { unfold transferBytes. destruct (type trs =? Env.SEND env) eqn:Hsend.
    - apply Z.eqb_eq in Hsend. destruct (Hasset Hsend) as [recipient [amount ->]].
      now rewrite length_app, !length_le.
    - apply length_replicate. }
  rewrite writeSignature_zeros by (rewrite ?length_app, ?Hlen; widths). cbn [bindO].
  rewrite writeSignature_zeros by (rewrite ?length_app, ?Hlen; widths). cbn [bindO].
  unfold headerFields. rewrite <- !app_assoc. cbn [app].
  do 8 f_equal.
  rewrite !length_le. do 2 f_equal.
  unfold headerWidth, BUFFER.LENGTH_BYTE, BUFFER.LENGTH_UINT32. lia.
Qed.

End Layout.

Section Slices.

Lemma slice_skip (f rest : list Z) offset len :
  (length f <= offset)%nat ->
  slice offset len (f ++ rest) = slice (offset - length f) len rest.
Proof. intros H. unfold slice. now rewrite drop_app_ge. Qed.

Lemma slice_here (f rest : list Z) offset len :
  offset = 0%nat -> len = length f -> slice offset len (f ++ rest) = f.
Proof. intros -> ->. unfold slice. now rewrite drop_0, take_app_length. Qed.

Lemma length_transferBytes env trs :
  (Transaction.type trs = Env.SEND env -> exists recipient amount,
      Transaction.asset trs = AssetTransfer recipient amount) ->
  length (transferBytes env trs) = 16%nat.
Proof.
  intros Hasset. unfold transferBytes.
  destruct (Transaction.type trs =? Env.SEND env) eqn:Hsend.
  - apply Z.eqb_eq in Hsend. destruct (Hasset Hsend) as [recipient [amount ->]].
    now rewrite length_app, !length_le.
  - apply length_replicate.
Qed.

End Slices.

(** C2, as stated, fails whatever the sizes of the configuration are. A
    header of 117 bytes has no room for 64 bytes at offset 133: the sample
    transfer has no asset tail, so nothing is left at that offset. And the
    offsets themselves cannot be those of the table: salt and
    senderPublicKey are written with the same width [LENGTH.HEX], so a type
    at offset 16 puts recipientAddress at 37, not at 53. With the widths 32
    and 64 the type byte of the sample lies at offset 32. *)
Lemma header_layout_not_as_specified :
  (~ exists size hex doubleHex,
       layout_as_specified (Sample.envWith size hex doubleHex) Sample.t1) /\
  (~ exists size hex doubleHex,
       fieldOffsets (Sample.envWith size hex doubleHex) =
       [0; 16; 17; 21; 53; 61; 69; 133]%nat) /\
  (exists out, TransactionService.getBytes Sample.env Sample.t1 = Returned out /\
               length out = 213%nat /\
               slice 32 1 out = Buffer.le 1 (Transaction.type Sample.t1) /\
               slice 16 1 out <> Buffer.le 1 (Transaction.type Sample.t1)).
Proof.
  split; [| split].
  - intros [size [hex [doubleHex [out [service [Hservice [_ [Hlen [_ H]]]]]]]]].
    cbn in Hservice. injection Hservice as <-.
    destruct H as [_ [_ [_ [_ [_ [_ Hsecond]]]]]].
    apply (f_equal length) in Hsecond.
    unfold slice in Hsecond. rewrite length_field, length_take, length_drop, Hlen in Hsecond.
    cbn in Hsecond. lia.
  - intros [size [hex [doubleHex H]]]. unfold fieldOffsets in H. cbn in H.
    injection H. intros.
    unfold BUFFER.LENGTH_BYTE, BUFFER.LENGTH_UINT32, BUFFER.LENGTH_INT64 in *. lia.
  - eexists. split; [vm_compute; reflexivity |].
    split; [reflexivity |]. split; [reflexivity |]. vm_compute. discriminate.
Qed.

(** C2, amended. When the header has room for its fields, [getBytes]
    returns a header of exactly [TRANSACTION_BUFFER_SIZE] bytes followed by
    the asset tail. The header holds, without gaps from offset 0 on: the salt
    as text in a field of [LENGTH.HEX] bytes, type (1 byte), createdAt (4
    bytes, little-endian), senderPublicKey in [LENGTH.HEX] bytes,
    recipientAddress and amount (8 bytes each, little-endian, zero if not a
    transfer), signature and secondSignature in [LENGTH.DOUBLE_HEX] bytes
    each (zero if absent); zeros fill it up. With [H] and [D] for the two
    widths the offsets are 0, H, H+1, H+5, 2H+5, 2H+13, 2H+21, 2H+21+D. *)
Theorem getBytes_layout (env : Env.t) (trs : Transaction.t) (service : IAssetService.t) :
  Env.getTransactionServiceByType env (Transaction.type trs) = Some service ->
  (Transaction.type trs = Env.SEND env -> exists recipient amount,
      Transaction.asset trs = AssetTransfer recipient amount) ->
  (headerWidth env <= Env.TRANSACTION_BUFFER_SIZE env)%nat ->
  let H := Env.LENGTH_HEX env in
  let D := Env.LENGTH_DOUBLE_HEX env in
  exists header,
    TransactionService.getBytes env trs =
      Returned (header ++ IAssetService.getBytes service trs) /\
    length header = Env.TRANSACTION_BUFFER_SIZE env /\
    header = headerFields env trs
             ++ replicate (Env.TRANSACTION_BUFFER_SIZE env - headerWidth env) 0 /\
    fieldOffsets env =
      [0; H; H + 1; H + 5; 2 * H + 5; 2 * H + 13; 2 * H + 21; 2 * H + 21 + D]%nat /\
    slice 0 H header = field H (Buffer.utf8 (Transaction.salt trs)) /\
    slice H 1 header = Buffer.le 1 (Transaction.type trs) /\
    slice (H + 1) 4 header = Buffer.le 4 (Transaction.createdAt trs) /\
    slice (H + 5) H header =
      field H (Buffer.hexDecode (Transaction.senderPublicKey trs)) /\
    slice (2 * H + 5) 16 header = transferBytes env trs /\
    slice (2 * H + 21) D header = field D (signatureBytes (Transaction.signature trs)) /\
    slice (2 * H + 21 + D) D header =
      field D (signatureBytes (Transaction.secondSignature trs)).
Proof.
  intros Hservice Hasset Hfits H D.
  pose proof (length_transferBytes env trs Hasset) as Hlen.
  exists (headerFields env trs
          ++ replicate (Env.TRANSACTION_BUFFER_SIZE env - headerWidth env) 0).
  split; [apply getBytes_header; assumption |].
  assert (Hwidth : length (headerFields env trs) = headerWidth env).
  { unfold headerFields, headerWidth.
    rewrite !length_app, !length_field, !length_le, Hlen. lia. }
  split; [rewrite length_app, length_replicate, Hwidth; lia |].
  split; [reflexivity |].
  split; [unfold fieldOffsets, BUFFER.LENGTH_BYTE, BUFFER.LENGTH_UINT32,
            BUFFER.LENGTH_INT64; subst H D;
          repeat (apply (f_equal2 cons); [lia |]); reflexivity |].
  unfold headerFields. rewrite <- !app_assoc. fold H D.
  assert (Hsalt : length (field H (Buffer.utf8 (Transaction.salt trs))) = H)
    by apply length_field.
  assert (Hkey : length (field H (Buffer.hexDecode (Transaction.senderPublicKey trs))) = H)
    by apply length_field.
  assert (Hsig : length (field D (signatureBytes (Transaction.signature trs))) = D)
    by apply length_field.
  assert (Htype : length (Buffer.le 1 (Transaction.type trs)) = 1%nat) by apply length_le.
  assert (Htime : length (Buffer.le 4 (Transaction.createdAt trs)) = 4%nat)
    by apply length_le.
  repeat split.
  - apply slice_here; [reflexivity | now rewrite Hsalt].
  - rewrite slice_skip by lia. apply slice_here; [lia | now rewrite Htype].
  - do 2 (rewrite slice_skip by lia). apply slice_here; [lia | now rewrite Htime].
  - do 3 (rewrite slice_skip by lia). apply slice_here; [lia | now rewrite Hkey].
  - do 4 (rewrite slice_skip by lia). apply slice_here; [lia | now rewrite Hlen].
  - do 5 (rewrite slice_skip by lia). apply slice_here; [lia | now rewrite Hsig].
  - do 6 (rewrite slice_skip by lia). apply slice_here; [lia | now rewrite length_field].
Qed.

Lemma getBytes_layout_witness :
  exists header,
    TransactionService.getBytes Sample.env Sample.t1 =
      Returned (header ++ IAssetService.getBytes Sample.service Sample.t1) /\
    length header = 213%nat /\
    slice 32 1 header = Buffer.le 1 (Transaction.type Sample.t1) /\
    slice 69 16 header = transferBytes Sample.env Sample.t1.
Proof.
  destruct (getBytes_layout Sample.env Sample.t1 Sample.service) as [header H].
  - reflexivity.
  - intros _. exists 5, 60. reflexivity.
  - vm_compute. lia.
  - exists header. cbv zeta in H. cbn [Sample.env Sample.envWith Env.LENGTH_HEX] in H.
    destruct H as [Hb [Hl [_ [_ [_ [Ht [_ [_ [Hr _]]]]]]]]].
    repeat split; assumption.
Defined.

(* ---------------------------------------------------------------------- *)
(** *** Sender conflicts                                                   *)
(* ---------------------------------------------------------------------- *)

Section Undo.
Import Transaction Conflict.
Variable env : Env.t.

(** The undo calls of one round of the loop: as many as the slice is
    long, and every one of them on [senderTrs]. *)
Lemma undoForSlice_calls senderTrs service address slice : forall s sender,
  Env.getTransactionServiceByType env (type senderTrs) = Some service ->
  Store.accounts s !! address = Some sender ->
  exists s',
    undoForSlice env senderTrs address slice s = Returned s' /\
    Store.undone s' = Store.undone s ++ replicate (length slice) (id senderTrs) /\
    Store.accounts s' !! address =
      Some (Nat.iter (length slice)
              (IAssetService.calculateUndoUnconfirmed service senderTrs) sender) /\
    Store.pool s' = Store.pool s /\ Store.queue s' = Store.queue s.
Proof.
  intros s sender Hservice. revert s sender.
  induction slice as [| x slice IH] using rev_ind; intros s sender Hsender.
  - exists s. cbn. rewrite app_nil_r. auto.
  - destruct (IH s sender Hsender) as [s1 [Hrun [Hlog [Hacc [Hpool Hqueue]]]]].
    unfold undoForSlice in *. rewrite foldl_app. cbn [foldl]. rewrite Hrun. cbn [bindO].
    unfold undoOn. rewrite Hacc.
    unfold TransactionService.calculateUndoUnconfirmed, TransactionService.serviceOf.
    rewrite Hservice. cbn [bindO].
    eexists. split; [reflexivity |].
    rewrite length_app, Nat.add_comm. cbn [length Nat.add Nat.iter].
    cbn [Store.undone Store.logUndo Store.accounts Store.setAccount Store.pool Store.queue].
    rewrite Hlog, lookup_insert_eq, <- app_assoc.
    repeat split; try assumption.
    f_equal. change (id senderTrs :: replicate (length slice) (id senderTrs))
      with (replicate (S (length slice)) (id senderTrs)).
    now rewrite replicate_S_end.
Qed.

(** So it is before every verification, whether it then succeeds or not. *)
Lemma reverify_undone penv senderTrs service senderAddress slice s sender :
  Env.getTransactionServiceByType env (type senderTrs) = Some service ->
  Store.accounts s !! senderAddress = Some sender ->
  exists s' verifyStatus,
    reverify env penv senderAddress senderTrs slice s = Returned (s', verifyStatus) /\
    Store.undone s' = Store.undone s ++ replicate (length slice) (id senderTrs).
Proof.
  intros Hservice Hsender. unfold reverify.
  assert (Hof : exists s1, senderOf senderAddress s = Returned s1 /\
                           Store.accounts s1 = Store.accounts s /\
                           Store.undone s1 = Store.undone s).
  { unfold senderOf. destruct (bool_decide _); [eauto |].
    rewrite Hsender. eexists. split; [reflexivity |]. split; reflexivity. }
  destruct Hof as [s1 [-> [Hacc1 Hlog1]]]. cbn [bindO].
  rewrite <- Hacc1 in Hsender.
  destruct (undoForSlice_calls senderTrs service senderAddress slice s1 sender
              Hservice Hsender) as [s2 [-> [Hlog2 [Hacc2 _]]]].
  cbn [bindO]. rewrite Hacc2. eexists. eexists. split; [reflexivity |].
  cbn [Store.undone Store.setAccount]. now rewrite Hlog2, Hlog1.
Qed.

End Undo.

(** C5 on the code. The pool holds two transactions of one sender, [t1] and
    then [t2], and neither verifies any more. [checkSenderTransactions] calls
    the undo twice on [t1] when [t1] fails, and not on [t2]; the later [t2]
    is undone only in its own round. Both end up in the queue. *)
Theorem failing_transaction_is_undone_for_each_later_one :
  Store.pool Sample.store = [Sample.t1; Sample.t2] /\
  exists s',
    Conflict.checkSenderTransactions 3 Sample.env Sample.poolEnv 7 Sample.store = Done s' /\
    Store.undone s' =
      [Transaction.id Sample.t1; Transaction.id Sample.t1; Transaction.id Sample.t2] /\
    Store.pool s' = [] /\
    Store.queue s' = [Sample.t1; Sample.t2].
Proof.
  split; [reflexivity |].
  eexists. split; [vm_compute; reflexivity |].
  repeat split.
Qed.

(* ====================================================================== *)
(** ** Further properties                                                  *)
(* ====================================================================== *)

(* ---------------------------------------------------------------------- *)
(** *** The slot clock                                                     *)
(* ---------------------------------------------------------------------- *)



(** X2. On the doubles of the code, going from an epoch time to the real
    time and back gives the epoch time again when the configured epoch start
    lies on a whole second, and one second less when it does not:
    [getRealTime] rounds the epoch start down to the second, [getEpochTime]
    does not. This holds for a non-negative epoch start and every epoch time,
    negative ones too, as long as the milliseconds stay within the safe
    integers, so that no product, sum or difference is rounded. *)
Theorem getTime_of_getRealTime (epochStart epochTime : Z) :
  0 <= epochStart ->
  Z.abs epochTime * SlotService.SECOND + epochStart + SlotService.SECOND
  <= Ieee.MAX_SAFE_INTEGER ->
  SlotServiceIeee.getTime epochStart (SlotServiceIeee.getRealTime epochStart epochTime) =
  if epochStart mod SlotService.SECOND =? 0 then epochTime else epochTime - 1.
Proof.
  intros H0 Hmax. unfold SlotServiceIeee.getTime.
  pose proof (Z.div_mod epochStart 1000 ltac:(lia)) as Hdm.
  pose proof (Z.mod_pos_bound epochStart 1000 ltac:(lia)) as Hr.
  assert (Hreal : SlotService.getRealTime epochStart epochTime
                  = epochStart - epochStart mod 1000 + epochTime * 1000).
  { unfold SlotService.getRealTime, SlotService.SECOND. lia. }
  unfold Ieee.MAX_SAFE_INTEGER, SlotService.SECOND in Hmax.
  rewrite getRealTime_exact, getEpochTime_exact;
    try (rewrite ?Hreal; unfold Ieee.safe, Ieee.MAX_SAFE_INTEGER, SlotService.SECOND; lia).
  unfold SlotService.getEpochTime. rewrite Hreal. unfold SlotService.SECOND.
  destruct (Z.eqb_spec (epochStart mod 1000) 0) as [Hz | Hz].
  - symmetry. apply (Z.div_unique _ _ _ 0); lia.
  - symmetry. apply (Z.div_unique _ _ _ (1000 - epochStart mod 1000)); lia.
Qed.

Lemma getTime_of_getRealTime_witness :
  SlotServiceIeee.getTime 1451667600000
    (SlotServiceIeee.getRealTime 1451667600000 9000000000000) = 9000000000000 /\
  SlotServiceIeee.getTime 1451667600250
    (SlotServiceIeee.getRealTime 1451667600250 (-3)) = -4.
Proof.
  split.
  - apply (getTime_of_getRealTime 1451667600000 9000000000000); vm_compute; discriminate.
  - apply (getTime_of_getRealTime 1451667600250 (-3)); vm_compute; discriminate.
Defined.

(** X3. The next slot begins after the present epoch time, and at most one
    slot interval after it. *)
Theorem next_slot_begins_within_one_interval (epochStart now : Z) :
  SlotService.getTime epochStart now
  < SlotService.getSlotTime (SlotService.getNextSlot epochStart now)
  <= SlotService.getTime epochStart now + SlotService.interval.
Proof.
  unfold SlotService.getNextSlot.
  pose proof (slot_time_of_slot_number (SlotService.getTime epochStart now)) as H.
  unfold SlotService.getSlotTime, SlotService.interval in *. lia.
Qed.

(** X4. [roundTime] cuts a time down to the whole second: the result is at
    most the time and less than a second below it, and rounding again
    changes nothing. The real time of epoch second 0 is the rounded epoch
    start. *)
Theorem roundTime_floor (time : Z) :
  SlotServiceMore.roundTime time <= time < SlotServiceMore.roundTime time + SlotService.SECOND /\
  SlotServiceMore.roundTime (SlotServiceMore.roundTime time) = SlotServiceMore.roundTime time /\
  SlotService.getRealTime time 0 = SlotServiceMore.roundTime time.
Proof.
  unfold SlotServiceMore.roundTime, SlotService.getRealTime, SlotService.SECOND.
  pose proof (Z.div_mod time 1000 ltac:(lia)) as Hdm.
  pose proof (Z.mod_pos_bound time 1000 ltac:(lia)) as Hr.
  split; [lia |]. split; [| lia].
  rewrite Z.div_mul by lia. reflexivity.
Qed.

(* ---------------------------------------------------------------------- *)
(** *** validate, in full                                                  *)
(* ---------------------------------------------------------------------- *)

Section ValidateMore.
Import Transaction TransactionService.
Variable env : Env.t.

Lemma snoc_not_nil {A} (l : list A) (x : A) : l ++ [x] <> [].
Proof. destruct l; discriminate. Qed.

Lemma presenceErrors_nil trs : presenceErrors trs = [] <-> complete trs = true.
Proof.
  unfold presenceErrors, complete.
  destruct (Js.truthyOptStr (id trs)), (Js.truthyNum (type trs)),
    (Js.truthyNum (senderAddress trs)), (Js.truthyStr (senderPublicKey trs)),
    (Js.truthyOptStr (signature trs)), (Js.truthyNum (fee trs)),
    (Js.truthyStr (salt trs)), (Js.truthyNum (createdAt trs));
    cbn; split; intros H; try reflexivity; discriminate H.
Qed.

Lemma withService_nil service trs sender errors :
  withService service trs sender errors = [] <->
  errors = [] /\ ResponseEntity.success (IAssetService.validate service trs sender) = true.
Proof.
  unfold withService, ResponseEntity.success.
  destruct (ResponseEntity.errors (IAssetService.validate service trs sender)) as [| e es].
  - split; [intros ->; auto | intros [-> _]; reflexivity].
  - split; [| intros [_ H]; discriminate H].
    intros H. destruct errors; discriminate H.
Qed.

Lemma success_fail_iff (errors : list string) :
  ResponseEntity.success (ResponseEntity.fail (T := unit) errors) = true <-> errors = [].
Proof.
  unfold ResponseEntity.success. cbn. destruct errors; split; congruence.
Qed.

(** The part of the error list that comes from the amount of a SEND. *)
Lemma amount_errors_nil (errors : list string) amount :
  (if (amount <? 0) || Js.numberTextHasDot amount || Js.numberTextHasE amount
   then (if Js.truthyNum amount then errors else errors ++ ["Missing amount"])
        ++ ["Invalid amount"]
   else if Js.truthyNum amount then errors else errors ++ ["Missing amount"]) = [] <->
  errors = [] /\
  Js.truthyNum amount
  && negb ((amount <? 0) || Js.numberTextHasDot amount || Js.numberTextHasE amount) = true.
Proof.
  destruct ((amount <? 0) || Js.numberTextHasDot amount || Js.numberTextHasE amount);
    destruct (Js.truthyNum amount); cbn [negb andb];
    (split; [intros H; try (now destruct (snoc_not_nil _ _ H)); auto
            | intros [H1 H2]; try discriminate H2; exact H1]).
Qed.

(** On an integer the tests say: positive and below 1e21. *)
Lemma amount_tests_integer amount :
  Js.truthyNum amount
  && negb ((amount <? 0) || Js.numberTextHasDot amount || Js.numberTextHasE amount) = true
  <-> 0 < amount < 10 ^ 21.
Proof.
  unfold Js.numberTextHasDot, Js.numberTextHasE, Js.truthyNum.
  rewrite orb_false_r.
  destruct (Z.ltb_spec amount 0) as [Hneg | Hneg];
    destruct (Z.leb_spec (10 ^ 21) (Z.abs amount)) as [Hbig | Hbig];
    destruct (Z.eqb_spec amount 0) as [Hz | Hz]; cbn [orb negb andb];
    (split; [intros H; try discriminate H; lia | intros H; try reflexivity; lia]).
Qed.

End ValidateMore.

(** X5. For a transaction whose amount is an integer, as all amounts of
    the model are, [validate] accepts exactly when all eight header fields
    are there (none is 0, empty or undefined), the amount of a SEND passes
    the tests that [validate] makes on it (it is not 0, not negative, and its
    text has neither a dot nor an exponent), and the service of the type
    accepts the transaction. For the integer amount of a SEND the tests say
    that it is positive and below 1e21. *)
Theorem validate_accepts_iff
    (env : Env.t) (trs : Transaction.t) (sender : Account.t) (service : IAssetService.t) :
  Env.getTransactionServiceByType env (Transaction.type trs) = Some service ->
  ((exists r, TransactionService.validate env (Some trs) sender = Returned r /\
              ResponseEntity.success r = true) <->
   complete trs = true /\ amountValid env trs = true /\
   ResponseEntity.success (IAssetService.validate service trs sender) = true) /\
  (Transaction.type trs = Env.SEND env ->
   amountValid env trs = true <->
   exists amount, Transaction.assetAmount trs = Some amount /\ 0 < amount < 10 ^ 21).
Proof.
  intros Hservice. split.
  - rewrite validate_unfold. unfold TransactionService.serviceOf, amountValid.
    rewrite Hservice.
    destruct (Transaction.type trs =? Env.SEND env).
    + destruct (Transaction.assetAmount trs) as [amount |]; cbn [bindO].
      * split.
        -- intros [r [[= <-] Hr]]. apply success_fail_iff, withService_nil in Hr.
           destruct Hr as [Herr Hsvc]. apply amount_errors_nil in Herr.
           destruct Herr as [Hp Ha]. apply presenceErrors_nil in Hp. auto.
        -- intros [Hc [Ha Hsvc]]. eexists. split; [reflexivity |].
           apply success_fail_iff, withService_nil. split; [| exact Hsvc].
           apply amount_errors_nil. split; [now apply presenceErrors_nil | exact Ha].
      * split; [intros [r [H _]]; discriminate H | intros [_ [H _]]; discriminate H].
    + cbn [bindO]. split.
      * intros [r [[= <-] Hr]]. apply success_fail_iff, withService_nil in Hr.
        destruct Hr as [Hp Hsvc]. apply presenceErrors_nil in Hp. auto.
      * intros [Hc [_ Hsvc]]. eexists. split; [reflexivity |].
        apply success_fail_iff, withService_nil.
        split; [now apply presenceErrors_nil | exact Hsvc].
  - intros Htype. unfold amountValid. rewrite Htype, Z.eqb_refl.
    destruct (Transaction.assetAmount trs) as [amount |].
    + rewrite amount_tests_integer. split.
      * intros H. exists amount. now split.
      * intros [amount' [[= <-] H]]. exact H.
    + split; [discriminate | intros [amount [H _]]; discriminate H].
Qed.

Lemma validate_accepts_iff_witness :
  (exists r, TransactionService.validate Sample.env (Some Sample.t1) (Sample.account 100 0)
             = Returned r /\ ResponseEntity.success r = true) /\
  amountValid Sample.env Sample.t1 = true.
Proof.
  destruct (validate_accepts_iff Sample.env Sample.t1 (Sample.account 100 0) Sample.service
              eq_refl) as [Hiff Hamount].
  split.
  - apply Hiff. repeat split.
  - apply (Hamount eq_refl). exists 60. split; [reflexivity | lia].
Defined.

(** X6. [validate] refuses a SEND whose amount is negative, or so large
    that it prints with an exponent (1e21 and more), with the error
    'Invalid amount'. *)
Theorem validate_send_invalid_amount
    (env : Env.t) (trs : Transaction.t) (sender : Account.t) (service : IAssetService.t)
    (recipient amount : Z) :
  Transaction.type trs = Env.SEND env ->
  Transaction.asset trs = AssetTransfer recipient amount ->
  Env.getTransactionServiceByType env (Transaction.type trs) = Some service ->
  amount < 0 \/ 10 ^ 21 <= amount ->
  exists r,
    TransactionService.validate env (Some trs) sender = Returned r /\
    ResponseEntity.success r = false /\
    In "Invalid amount" (ResponseEntity.errors r).
Proof.
  intros Htype Hasset Hservice Hamount.
  rewrite validate_unfold. unfold Transaction.assetAmount, TransactionService.serviceOf.
  rewrite Hasset, Hservice, Htype, Z.eqb_refl. cbn [bindO].
  assert (Hinvalid : (amount <? 0) || Js.numberTextHasDot amount || Js.numberTextHasE amount
                     = true).
  { unfold Js.numberTextHasDot, Js.numberTextHasE. rewrite orb_false_r.
    apply orb_true_iff. destruct Hamount as [H | H];
      [left; now apply Z.ltb_lt | right; apply Z.leb_le; lia]. }
  rewrite Hinvalid. eexists. split; [reflexivity |].
  match goal with
  | |- _ /\ In ?x (ResponseEntity.errors (ResponseEntity.fail ?l)) =>
      assert (Hin : In x l) by apply In_withService, In_snoc
  end.
  split; [apply (success_false_of_In (ResponseEntity.fail (T := unit) _) _ Hin) | exact Hin].
Qed.

Lemma validate_send_invalid_amount_witness :
  exists r,
    TransactionService.validate Sample.env (Some (Sample.send None 100 10 5 (-3)))
      (Sample.account 100 0) = Returned r /\
    ResponseEntity.success r = false /\
    In "Invalid amount" (ResponseEntity.errors r).
Proof.
  apply (validate_send_invalid_amount Sample.env (Sample.send None 100 10 5 (-3))
           (Sample.account 100 0) Sample.service 5 (-3));
    [reflexivity | reflexivity | reflexivity | left; lia].
Defined.

Section ValidateFields.
Import Transaction TransactionService.

Ltac pick_error :=
  repeat match goal with
         | |- context [if ?b then _ else _] => destruct b
         end;
  repeat first [apply In_snoc | apply in_or_app; left].

Lemma presenceErrors_reports trs :
  (Js.truthyOptStr (id trs) = false -> In "Missing id" (presenceErrors trs)) /\
  (Js.truthyNum (type trs) = false -> In "Missing type" (presenceErrors trs)) /\
  (Js.truthyNum (senderAddress trs) = false ->
   In "Missing sender address" (presenceErrors trs)) /\
  (Js.truthyStr (senderPublicKey trs) = false ->
   In "Missing sender public key" (presenceErrors trs)) /\
  (Js.truthyOptStr (signature trs) = false -> In "Missing signature" (presenceErrors trs)) /\
  (Js.truthyNum (fee trs) = false -> In "Missing fee" (presenceErrors trs)) /\
  (Js.truthyStr (salt trs) = false -> In "Missing salt" (presenceErrors trs)) /\
  (Js.truthyNum (createdAt trs) = false -> In "Missing creation time" (presenceErrors trs)).
Proof.
  unfold presenceErrors. repeat split; intros ->; cbv iota; pick_error.
Qed.

(** Whatever [validate] returns lists the presence errors. *)
Lemma validate_keeps_presenceErrors env trs sender r x :
  validate env (Some trs) sender = Returned r ->
  In x (presenceErrors trs) -> In x (ResponseEntity.errors r).
Proof.
  rewrite validate_unfold. unfold serviceOf. intros Hr Hx.
  destruct (type trs =? Env.SEND env).
  - destruct (assetAmount trs) as [amount |]; cbn [bindO] in Hr; [| discriminate].
    destruct (Env.getTransactionServiceByType env (type trs)); cbn [bindO] in Hr;
      [| discriminate].
    injection Hr as <-. cbn [ResponseEntity.errors ResponseEntity.fail].
    apply In_withService.
    destruct ((amount <? 0) || _ || _); [apply in_or_app; left |];
      destruct (Js.truthyNum amount); auto; apply in_or_app; now left.
  - cbn [bindO] in Hr.
    destruct (Env.getTransactionServiceByType env (type trs)); cbn [bindO] in Hr;
      [| discriminate].
    injection Hr as <-. now apply In_withService.
Qed.

(** [validate] returns when the type has a service and a SEND carries a
    transfer. *)
Lemma validate_returns env trs sender service :
  Env.getTransactionServiceByType env (type trs) = Some service ->
  (type trs = Env.SEND env -> exists recipient amount,
      asset trs = AssetTransfer recipient amount) ->
  exists r, validate env (Some trs) sender = Returned r.
Proof.
  intros Hservice Hasset. rewrite validate_unfold. unfold serviceOf, assetAmount.
  rewrite Hservice.
  destruct (Z.eqb_spec (type trs) (Env.SEND env)) as [Hsend | Hsend].
  - destruct (Hasset Hsend) as [recipient [amount ->]]. cbn [bindO]. eauto.
  - cbn [bindO]. eauto.
Qed.

End ValidateFields.

(** X7. [validate] does not stop at the first problem: every one of the
    eight header fields that is missing (0, empty or undefined) has its own
    message in the error list that is returned. *)
Theorem validate_reports_every_missing_field
    (env : Env.t) (trs : Transaction.t) (sender : Account.t) (service : IAssetService.t) :
  Env.getTransactionServiceByType env (Transaction.type trs) = Some service ->
  (Transaction.type trs = Env.SEND env -> exists recipient amount,
      Transaction.asset trs = AssetTransfer recipient amount) ->
  exists r,
    TransactionService.validate env (Some trs) sender = Returned r /\
    (Js.truthyOptStr (Transaction.id trs) = false ->
     In "Missing id" (ResponseEntity.errors r)) /\
    (Js.truthyNum (Transaction.type trs) = false ->
     In "Missing type" (ResponseEntity.errors r)) /\
    (Js.truthyNum (Transaction.senderAddress trs) = false ->
     In "Missing sender address" (ResponseEntity.errors r)) /\
    (Js.truthyStr (Transaction.senderPublicKey trs) = false ->
     In "Missing sender public key" (ResponseEntity.errors r)) /\
    (Js.truthyOptStr (Transaction.signature trs) = false ->
     In "Missing signature" (ResponseEntity.errors r)) /\
    (Js.truthyNum (Transaction.fee trs) = false ->
     In "Missing fee" (ResponseEntity.errors r)) /\
    (Js.truthyStr (Transaction.salt trs) = false ->
     In "Missing salt" (ResponseEntity.errors r)) /\
    (Js.truthyNum (Transaction.createdAt trs) = false ->
     In "Missing creation time" (ResponseEntity.errors r)).
Proof.
  intros Hservice Hasset.
  destruct (validate_returns env trs sender service Hservice Hasset) as [r Hr].
  exists r. split; [exact Hr |].
  pose proof (validate_keeps_presenceErrors env trs sender r) as Hkeep.
  destruct (presenceErrors_reports trs) as [H1 [H2 [H3 [H4 [H5 [H6 [H7 H8]]]]]]].
  repeat split; intros H; apply Hkeep; auto.
Qed.

Lemma validate_reports_every_missing_field_witness :
  exists r,
    TransactionService.validate Sample.env
      (Some (Transaction.mk None None Sample.VOTE 0 "" 0 None None "" 0 (AssetOther [])))
      (Sample.account 100 0) = Returned r /\
    In "Missing id" (ResponseEntity.errors r) /\
    In "Missing sender address" (ResponseEntity.errors r) /\
    In "Missing salt" (ResponseEntity.errors r).
Proof.
  destruct (validate_reports_every_missing_field Sample.env
              (Transaction.mk None None Sample.VOTE 0 "" 0 None None "" 0 (AssetOther []))
              (Sample.account 100 0) Sample.service) as [r [Hr H]].
  - reflexivity.
  - intros H. discriminate H.
  - exists r. split; [exact Hr |].
    destruct H as [H1 [_ [H3 [_ [_ [_ [H7 _]]]]]]].
    repeat split; [apply H1 | apply H3 | apply H7]; reflexivity.
Defined.

(* ---------------------------------------------------------------------- *)
(** *** verifyUnconfirmed, the other paths                                 *)
(* ---------------------------------------------------------------------- *)

(** X8. For a transaction of another type than SEND, [verifyUnconfirmed]
    compares nothing with the balance of the sender, the fee included: when
    the transaction is not found confirmed, the answer is the one of the
    service of the type. *)
Theorem verifyUnconfirmed_other_types_skip_balance
    (env : Env.t) (trs trs' : Transaction.t) (sender : Account.t)
    (service : IAssetService.t) (checkExists : bool) :
  Transaction.type trs <> Env.SEND env ->
  Env.getTransactionServiceByType env (Transaction.type trs) = Some service ->
  TransactionService.refreshFee env trs sender = Returned trs' ->
  checkExists && TransactionService.isConfirmed env trs' = false ->
  TransactionService.verifyUnconfirmed env trs sender checkExists =
  Returned (trs', IAssetService.verifyUnconfirmed service trs' sender).
Proof.
  intros Htype Hservice Hfee Hexists.
  destruct (refreshFee_keeps env _ _ _ Hfee) as [Ht _].
  unfold TransactionService.verifyUnconfirmed. rewrite Hfee. cbn [bindO].
  rewrite Hexists, Ht.
  destruct (Z.eqb_spec (Transaction.type trs) (Env.SEND env)) as [H | _]; [contradiction |].
  cbn [negb ResponseEntity.success ResponseEntity.ok ResponseEntity.errors].
  unfold TransactionService.serviceOf. rewrite Hservice. reflexivity.
Qed.

Lemma verifyUnconfirmed_other_types_skip_balance_witness :
  let vote := Transaction.mk (Some "aa03") None Sample.VOTE 100 "83cb3d86" 7
                (Some "eb76d2ad") None "0123456789abcdef" 500 (AssetOther [1]) in
  TransactionService.verifyUnconfirmed Sample.env vote (Sample.account 3 0) false =
  Returned (vote, IAssetService.verifyUnconfirmed Sample.service vote (Sample.account 3 0)).
Proof.
  apply (verifyUnconfirmed_other_types_skip_balance Sample.env
           (Transaction.mk (Some "aa03") None Sample.VOTE 100 "83cb3d86" 7
              (Some "eb76d2ad") None "0123456789abcdef" 500 (AssetOther [1]))
           (Transaction.mk (Some "aa03") None Sample.VOTE 100 "83cb3d86" 7
              (Some "eb76d2ad") None "0123456789abcdef" 500 (AssetOther [1]))
           (Sample.account 3 0) Sample.service false);
    [discriminate | reflexivity | reflexivity | reflexivity].
Defined.

Section Refresh.
Import Transaction TransactionService.
Variable env : Env.t.

(** What [refreshFee] leaves of a transaction. *)
Lemma refreshFee_result trs trs' sender :
  refreshFee env trs sender = Returned trs' ->
  exists service,
    Env.getTransactionServiceByType env (type trs) = Some service /\
    fee trs' = IAssetService.calculateFee service trs sender /\
    (fee trs' = fee trs -> trs' = trs) /\
    (fee trs' <> fee trs ->
     getId env (setFee trs (fee trs')) = Returned (optText (id trs')) /\
     id trs' <> None) /\
    blockId trs' = blockId trs /\ type trs' = type trs /\
    createdAt trs' = createdAt trs /\ senderPublicKey trs' = senderPublicKey trs /\
    senderAddress trs' = senderAddress trs /\ signature trs' = signature trs /\
    secondSignature trs' = secondSignature trs /\ salt trs' = salt trs /\
    asset trs' = asset trs.
Proof.
  unfold refreshFee, calculateUnconfirmedFee, serviceOf.
  destruct (Env.getTransactionServiceByType env (type trs)) as [service |];
    cbn [bindO]; [| discriminate].
  destruct (Z.eqb_spec (IAssetService.calculateFee service trs sender) (fee trs))
    as [Heq | Hne].
  - intros [= <-]. exists service.
    repeat split; auto; congruence.
  - destruct (getId env (setFee trs _)) as [i | e] eqn:Hid; cbn [bindO]; [| discriminate].
    intros [= <-]. exists service. cbn.
    repeat split; auto; try discriminate; congruence.
Qed.

End Refresh.

(** X9. [verifyUnconfirmed] changes nothing of the transaction but its fee
    and its id. The fee it leaves is the one the service of the type
    computes; when that is the fee the transaction had, the transaction is
    left as it was, and otherwise the id it leaves is the hash of the bytes
    of the transaction with the new fee. *)
Theorem verifyUnconfirmed_changes_fee_and_id_only
    (env : Env.t) (trs : Transaction.t) (sender : Account.t) (service : IAssetService.t)
    (checkExists : bool) (trs' : Transaction.t) (response : ResponseEntity.t unit) :
  TransactionService.verifyUnconfirmed env trs sender checkExists = Returned (trs', response) ->
  Env.getTransactionServiceByType env (Transaction.type trs) = Some service ->
  Transaction.fee trs' = IAssetService.calculateFee service trs sender /\
  (Transaction.fee trs' = Transaction.fee trs -> trs' = trs) /\
  (Transaction.fee trs' <> Transaction.fee trs ->
   TransactionService.getId env (Transaction.setFee trs (Transaction.fee trs')) =
     Returned (TransactionService.optText (Transaction.id trs'))) /\
  Transaction.blockId trs' = Transaction.blockId trs /\
  Transaction.type trs' = Transaction.type trs /\
  Transaction.createdAt trs' = Transaction.createdAt trs /\
  Transaction.senderPublicKey trs' = Transaction.senderPublicKey trs /\
  Transaction.senderAddress trs' = Transaction.senderAddress trs /\
  Transaction.signature trs' = Transaction.signature trs /\
  Transaction.secondSignature trs' = Transaction.secondSignature trs /\
  Transaction.salt trs' = Transaction.salt trs /\
  Transaction.asset trs' = Transaction.asset trs.
Proof.
  intros Hverify Hservice.
  assert (Hfee : TransactionService.refreshFee env trs sender = Returned trs').
  { unfold TransactionService.verifyUnconfirmed in Hverify.
    destruct (TransactionService.refreshFee env trs sender) as [t | e]; cbn [bindO] in Hverify;
      [| discriminate].
    destruct (checkExists && _); [now injection Hverify as -> _ |].
    destruct (negb _); [now injection Hverify as -> _ |].
    destruct (TransactionService.serviceOf env _); cbn [bindO] in Hverify; [| discriminate].
    now injection Hverify as -> _. }
  destruct (refreshFee_result env _ _ _ Hfee) as [service' [Hs [Hf [Hsame [Hid Hrest]]]]].
  rewrite Hservice in Hs. injection Hs as <-.
  split; [exact Hf |]. split; [exact Hsame |]. split; [| exact Hrest].
  intros Hne. exact (proj1 (Hid Hne)).
Qed.

Lemma verifyUnconfirmed_changes_fee_and_id_only_witness :
  let trs := Sample.send None 100 10 5 60 in
  Transaction.fee trs = IAssetService.calculateFee Sample.service trs (Sample.account 100 0) /\
  (Transaction.fee trs = Transaction.fee trs -> trs = trs).
Proof.
  destruct (verifyUnconfirmed_changes_fee_and_id_only Sample.env (Sample.send None 100 10 5 60)
              (Sample.account 100 0) Sample.service false (Sample.send None 100 10 5 60)
              ResponseEntity.ok eq_refl eq_refl) as [H1 [H2 _]].
  split; assumption.
Defined.

(* ---------------------------------------------------------------------- *)
(** *** The bytes and the id, in general                                   *)
(* ---------------------------------------------------------------------- *)

Section Lengths.

Lemma length_blit (buf : Buffer.t) offset (d : list Z) :
  (offset + length d <= length buf)%nat -> length (Buffer.blit buf offset d) = length buf.
Proof.
  intros H. unfold Buffer.blit.
  rewrite !length_app, length_take, length_drop. lia.
Qed.

Lemma write_length buf s offset len enc b :
  Buffer.write buf s offset len enc = Returned b -> length b = length buf.
Proof.
  unfold Buffer.write. destruct (_ && _); [discriminate |]. intros [= <-].
  destruct (Nat.le_gt_cases offset (length buf)) as [Hle | Hgt].
  - apply length_blit. rewrite length_take. lia.
  - unfold Buffer.blit.
    replace (length buf - offset)%nat with 0%nat by lia.
    rewrite Nat.min_0_r, take_0. cbn [app length].
    rewrite Nat.add_0_r, take_drop. reflexivity.
Qed.

Lemma writeFixed_length bytes fld offset b o :
  BUFFER.writeFixed bytes fld offset = Returned (b, o) -> length b = length bytes.
Proof.
  unfold BUFFER.writeFixed. destruct (Nat.ltb_spec (length bytes) (offset + length fld));
    [discriminate |].
  intros [= <- _]. now apply length_blit.
Qed.

Lemma writeNotNull_length bytes value offset len b o :
  BUFFER.writeNotNull bytes value offset len = Returned (b, o) -> length b = length bytes.
Proof.
  unfold BUFFER.writeNotNull. destruct (Js.truthyStr value).
  - destruct (Buffer.write bytes value offset len Buffer.Hex) as [b' | e] eqn:Hw;
      cbn [bindO]; [| discriminate].
    intros [= <- _]. exact (write_length _ _ _ _ _ _ Hw).
  - now intros [= <- _].
Qed.

End Lengths.

(** X10. Whenever [getBytes] returns, what it returns is as long as the
    header buffer and the asset bytes together: no write makes the header
    longer or shorter than [TRANSACTION_BUFFER_SIZE], whatever the lengths of
    the salt, the key and the signatures are. *)
Theorem getBytes_length (env : Env.t) (trs : Transaction.t) (out : Buffer.t) :
  TransactionService.getBytes env trs = Returned out ->
  exists service,
    Env.getTransactionServiceByType env (Transaction.type trs) = Some service /\
    length out =
      (Env.TRANSACTION_BUFFER_SIZE env + length (IAssetService.getBytes service trs))%nat /\
    drop (Env.TRANSACTION_BUFFER_SIZE env) out = IAssetService.getBytes service trs.
Proof.
  unfold TransactionService.getBytes, TransactionService.serviceOf.
  destruct (Env.getTransactionServiceByType env (Transaction.type trs)) as [service |];
    cbn [bindO]; [| discriminate].
  intros H. exists service. split; [reflexivity |].
  destruct (Buffer.write _ _ _ _ _) as [b1 | e] eqn:H1; cbn [bindO] in H; [| discriminate].
  apply write_length in H1. unfold Buffer.alloc in H1. rewrite length_replicate in H1.
  destruct (BUFFER.writeInt8 _ _ _) as [[b2 o2] | e] eqn:H2; cbn [bindO] in H; [| discriminate].
  apply writeFixed_length in H2.
  destruct (BUFFER.writeInt32LE _ _ _) as [[b3 o3] | e] eqn:H3; cbn [bindO] in H;
    [| discriminate].
  apply writeFixed_length in H3.
  destruct (BUFFER.writeNotNull _ _ _ _) as [[b4 o4] | e] eqn:H4; cbn [bindO] in H;
    [| discriminate].
  apply writeNotNull_length in H4.
  assert (H5 : exists b5 o5, length b5 = length b4 /\
    (do bytes <-
       (if Js.truthyOptStr (Transaction.signature trs)
        then Buffer.write b5 (TransactionService.optText (Transaction.signature trs)) o5
               (Env.LENGTH_DOUBLE_HEX env) Buffer.Hex
        else Returned b5);
     do bytes0 <-
       (if Js.truthyOptStr (Transaction.secondSignature trs)
        then Buffer.write bytes (TransactionService.optText (Transaction.secondSignature trs))
               (o5 + Env.LENGTH_DOUBLE_HEX env) (Env.LENGTH_DOUBLE_HEX env) Buffer.Hex
        else Returned bytes);
     Returned (bytes0 ++ IAssetService.getBytes service trs)) = Returned out).
  { destruct (Transaction.type trs =? Env.SEND env).
    - destruct (Transaction.asset trs) as [recipient amount | payload];
        cbn [bindO] in H; [| discriminate].
      destruct (BUFFER.writeUInt64LE b4 recipient o4) as [[b5 o5] | e] eqn:H5;
        cbn [bindO] in H; [| discriminate].
      apply writeFixed_length in H5.
      destruct (BUFFER.writeUInt64LE b5 amount o5) as [[b6 o6] | e] eqn:H6;
        cbn [bindO] in H; [| discriminate].
      apply writeFixed_length in H6.
      exists b6, o6. split; [congruence | exact H].
    - cbn [bindO] in H. exists b4, (o4 + (BUFFER.LENGTH_INT64 + BUFFER.LENGTH_INT64))%nat.
      split; [reflexivity | exact H]. }
  clear H. destruct H5 as [b5 [o5 [L5 H]]].
  assert (H6 : exists b6, length b6 = length b5 /\
    (do bytes0 <-
       (if Js.truthyOptStr (Transaction.secondSignature trs)
        then Buffer.write b6 (TransactionService.optText (Transaction.secondSignature trs))
               (o5 + Env.LENGTH_DOUBLE_HEX env) (Env.LENGTH_DOUBLE_HEX env) Buffer.Hex
        else Returned b6);
     Returned (bytes0 ++ IAssetService.getBytes service trs)) = Returned out).
  { destruct (Js.truthyOptStr (Transaction.signature trs)).
    - destruct (Buffer.write b5 _ _ _ _) as [b6 | e] eqn:H6; cbn [bindO] in H; [| discriminate].
      exists b6. split; [exact (write_length _ _ _ _ _ _ H6) | exact H].
    - cbn [bindO] in H. exists b5. split; [reflexivity | exact H]. }
  clear H. destruct H6 as [b6 [L6 H]].
  assert (H7 : exists b7, length b7 = length b6 /\
                          out = b7 ++ IAssetService.getBytes service trs).
  { destruct (Js.truthyOptStr (Transaction.secondSignature trs)).
    - destruct (Buffer.write b6 _ _ _ _) as [b7 | e] eqn:H7; cbn [bindO] in H; [| discriminate].
      injection H as <-. exists b7. split; [exact (write_length _ _ _ _ _ _ H7) | reflexivity].
    - cbn [bindO] in H. injection H as <-. exists b6. split; reflexivity. }
  destruct H7 as [b7 [L7 ->]].
  assert (Hlen : length b7 = Env.TRANSACTION_BUFFER_SIZE env) by congruence.
  split; [rewrite length_app; lia |].
  rewrite <- Hlen. apply drop_app_length.
Qed.

Lemma getBytes_length_witness :
  exists out,
    TransactionService.getBytes (Sample.envWith 100 32 64) Sample.t1 = Returned out /\
    length out = 100%nat.
Proof.
  eexists. split; [vm_compute; reflexivity |].
  destruct (getBytes_length (Sample.envWith 100 32 64) Sample.t1 _ eq_refl)
    as [service [Hservice [Hlen _]]].
  injection Hservice as <-. exact Hlen.
Defined.

(** X11. The bytes of a transaction do not depend on its fee, its id, its
    block id or the address of its sender: two transactions that agree on
    type, salt, createdAt, senderPublicKey, asset and the two signatures, and
    on the bytes of their asset, have the same bytes, hence the same hash and
    the same id. *)
Theorem getBytes_reads_encoded_fields_only (env : Env.t) (a b : Transaction.t) :
  sameEncodedFields a b ->
  (forall service,
      Env.getTransactionServiceByType env (Transaction.type a) = Some service ->
      IAssetService.getBytes service a = IAssetService.getBytes service b) ->
  TransactionService.getBytes env a = TransactionService.getBytes env b /\
  TransactionService.getId env a = TransactionService.getId env b.
Proof.
  intros [Ht [Hs [Hc [Hk [Ha [Hsig Hsig2]]]]]] Hasset.
  assert (Hbytes : TransactionService.getBytes env a = TransactionService.getBytes env b).
  { unfold TransactionService.getBytes, TransactionService.serviceOf.
    rewrite <- Ht, <- Hs, <- Hc, <- Hk, <- Ha, <- Hsig, <- Hsig2.
    destruct (Env.getTransactionServiceByType env (Transaction.type a)) as [service |]
      eqn:Hservice; [| reflexivity].
    cbn [bindO]. now rewrite (Hasset service eq_refl). }
  split; [exact Hbytes |].
  unfold TransactionService.getId, TransactionService.getHash. now rewrite Hbytes.
Qed.

Lemma getBytes_reads_encoded_fields_only_witness :
  TransactionService.getId Sample.env (Transaction.setFee Sample.t1 999) =
  TransactionService.getId Sample.env Sample.t1.
Proof.
  apply (getBytes_reads_encoded_fields_only Sample.env (Transaction.setFee Sample.t1 999)
           Sample.t1).
  - repeat split.
  - intros service Hservice. cbn in Hservice. injection Hservice as <-. reflexivity.
Defined.

Section HexText.

Lemma hexDigit_hexChar n : 0 <= n < 16 -> Buffer.hexDigit (Buffer.hexChar n) = Some n.
Proof.
  intros H. rewrite <- (Z2Nat.id n) by lia.
  assert (Hk : (Z.to_nat n < 16)%nat) by lia.
  revert Hk. generalize (Z.to_nat n). clear H. intros k Hk.
  do 16 (destruct k as [| k]; [reflexivity |]). lia.
Qed.

(** Reading back the hexadecimal text of bytes gives the bytes. *)
Lemma hexDecode_toHex bs : isBytes bs -> Buffer.hexDecode (Buffer.toHex bs) = bs.
Proof.
  induction 1 as [| b bs Hb _ IH]; [reflexivity |].
  cbn [Buffer.toHex Buffer.hexDecode].
  rewrite !hexDigit_hexChar, IH.
  - f_equal. pose proof (Z.div_mod b 16 ltac:(lia)). lia.
  - apply Z.mod_pos_bound. lia.
  - split; [apply Z.div_pos; lia | apply Z.div_lt_upper_bound; lia].
Qed.

Lemma toHex_nil bs : Buffer.toHex bs = EmptyString -> bs = [].
Proof. destruct bs; [reflexivity | discriminate]. Qed.

End HexText.

(** X12. The id of a transaction is the hexadecimal text of its hash, and
    the text determines the hash: two transactions get the same id exactly
    when they have the same hash. *)
Theorem same_id_iff_same_hash (env : Env.t) (a b : Transaction.t) (ha hb : Buffer.t) :
  TransactionService.getHash env a = Returned ha ->
  TransactionService.getHash env b = Returned hb ->
  isBytes ha -> isBytes hb ->
  (TransactionService.getId env a = TransactionService.getId env b <-> ha = hb).
Proof.
  intros Ha Hb Hba Hbb. unfold TransactionService.getId. rewrite Ha, Hb. cbn [bindO].
  split; [| now intros ->].
  intros [= H]. apply (f_equal Buffer.hexDecode) in H.
  now rewrite !hexDecode_toHex in H.
Qed.

Lemma same_id_iff_same_hash_witness :
  exists h1 h2,
    TransactionService.getHash Sample.env Sample.t1 = Returned h1 /\
    TransactionService.getHash Sample.env Sample.t2 = Returned h2 /\
    (TransactionService.getId Sample.env Sample.t1 = TransactionService.getId Sample.env Sample.t2
     <-> h1 = h2).
Proof.
  eexists. eexists. split; [vm_compute; reflexivity |]. split; [vm_compute; reflexivity |].
  apply same_id_iff_same_hash;
    [vm_compute; reflexivity | vm_compute; reflexivity
    | unfold isBytes; refine (bool_decide_eq_true_1 _ _); vm_compute; reflexivity
    | unfold isBytes; refine (bool_decide_eq_true_1 _ _); vm_compute; reflexivity].
Defined.

(** X13. Signing and encoding fit together: when the text that [sign]
    returns is stored as the signature of the transaction, [getBytes] writes
    into the signature field the very bytes that the signature scheme
    produced from the hash (cut to the width of the field, zero-filled). *)
Theorem signature_text_is_written_back
    (env : Env.t) (keyPair : IKeyPair) (trs : Transaction.t) (service : IAssetService.t)
    (hash : Buffer.t) :
  TransactionService.getHash env trs = Returned hash ->
  isBytes (Env.edSign env hash keyPair) ->
  Env.getTransactionServiceByType env (Transaction.type trs) = Some service ->
  (headerWidth env <= Env.TRANSACTION_BUFFER_SIZE env)%nat ->
  exists text header,
    TransactionService.sign env keyPair trs = Returned text /\
    TransactionService.getBytes env (setSignature trs text) =
      Returned (header ++ IAssetService.getBytes service (setSignature trs text)) /\
    slice (2 * Env.LENGTH_HEX env + 21) (Env.LENGTH_DOUBLE_HEX env) header =
      field (Env.LENGTH_DOUBLE_HEX env) (Env.edSign env hash keyPair).
Proof.
  intros Hhash Hbytes Hservice Hfits.
  exists (Buffer.toHex (Env.edSign env hash keyPair)).
  assert (Hasset : Transaction.type trs = Env.SEND env -> exists recipient amount,
             Transaction.asset trs = AssetTransfer recipient amount).
  { intros Hsend. unfold TransactionService.getHash, TransactionService.getBytes,
      TransactionService.serviceOf in Hhash.
    rewrite Hservice in Hhash. cbn [bindO] in Hhash.
    destruct (Transaction.asset trs) as [recipient amount | payload]; [eauto |].
    exfalso.
    destruct (Buffer.write _ _ _ _ _); cbn [bindO] in Hhash; [| discriminate].
    destruct (BUFFER.writeInt8 _ _ _) as [[? ?] |]; cbn [bindO] in Hhash; [| discriminate].
    destruct (BUFFER.writeInt32LE _ _ _) as [[? ?] |]; cbn [bindO] in Hhash; [| discriminate].
    destruct (BUFFER.writeNotNull _ _ _ _) as [[? ?] |]; cbn [bindO] in Hhash; [| discriminate].
    apply Z.eqb_eq in Hsend. rewrite Hsend in Hhash. cbn [bindO] in Hhash. discriminate. }
  set (text := Buffer.toHex (Env.edSign env hash keyPair)).
  pose proof (getBytes_header env (setSignature trs text) service Hservice Hasset Hfits) as Hb.
  eexists. split; [| split; [exact Hb |]].
  - unfold TransactionService.sign. rewrite Hhash. reflexivity.
  - pose proof (length_transferBytes env (setSignature trs text) Hasset) as Hlen.
    unfold headerFields. rewrite <- !app_assoc.
    do 5 (rewrite slice_skip by (rewrite ?length_field, ?length_le, ?Hlen; lia)).
    rewrite !length_field, !length_le, Hlen.
    cbn [Transaction.signature setSignature signatureBytes]. unfold text.
    rewrite hexDecode_toHex by exact Hbytes.
    apply slice_here; [lia | now rewrite length_field].
Qed.

Lemma signature_text_is_written_back_witness :
  exists text header,
    TransactionService.sign Sample.env Sample.keyPair Sample.t1 = Returned text /\
    TransactionService.getBytes Sample.env (setSignature Sample.t1 text) =
      Returned (header ++ IAssetService.getBytes Sample.service (setSignature Sample.t1 text)) /\
    length (slice (2 * 32 + 21) 64 header) = 64%nat.
Proof.
  destruct (TransactionService.getHash Sample.env Sample.t1) as [hash |] eqn:Hhash;
    [| vm_compute in Hhash; discriminate Hhash].
  assert (Hbytes : isBytes (Env.edSign Sample.env hash Sample.keyPair)).
  { vm_compute in Hhash. injection Hhash as <-.
    unfold isBytes. refine (bool_decide_eq_true_1 _ _). vm_compute. reflexivity. }
  destruct (signature_text_is_written_back Sample.env Sample.keyPair Sample.t1 Sample.service
              hash Hhash Hbytes eq_refl) as [text [header [Hs [Hb Hslice]]]].
  - vm_compute. lia.
  - exists text, header. split; [exact Hs |]. split; [exact Hb |].
    cbn [Sample.env Sample.envWith Env.LENGTH_HEX Env.LENGTH_DOUBLE_HEX] in Hslice.
    rewrite Hslice. apply length_field.
Defined.

(* ---------------------------------------------------------------------- *)
(** *** Sender conflicts, in general                                       *)
(* ---------------------------------------------------------------------- *)

Section ConflictLoop.
Import Transaction Conflict.
Variables (env : Env.t) (penv : PoolEnv.t).

Lemma checkSenderTransactions_unfold fuel senderAddress s :
  checkSenderTransactions (S fuel) env penv senderAddress s =
  checkLoop (checkSenderTransactions fuel env penv) env penv senderAddress
    (TransactionPool.getBySenderAddress senderAddress (Store.pool s)) s.
Proof.
  cbn [checkSenderTransactions].
  generalize (TransactionPool.getBySenderAddress senderAddress (Store.pool s)).
  intros l. revert s. induction l as [| x l IH]; intros s; [reflexivity |].
  cbn [checkLoop]. destruct (bool_decide _); [apply IH |].
  destruct (liftO _) as [[s1 status] | e |]; cbn [bindR]; try reflexivity.
  destruct (ResponseEntity.success status); [apply IH |].
  destruct (type x =? Env.SEND env); [| apply IH].
  destruct (assetRecipientAddress x); [| reflexivity].
  destruct (checkSenderTransactions fuel env penv _ _); cbn [bindR]; try reflexivity.
  apply IH.
Qed.

(** The transactions of the sender, as the loop sees them, are pool
    transactions of that sender. *)
Lemma getBySenderAddress_In address pool trs :
  In trs (TransactionPool.getBySenderAddress address pool) ->
  In trs pool /\ senderAddress trs = address.
Proof.
  unfold TransactionPool.getBySenderAddress. intros H.
  apply list_elem_of_In in H. rewrite sort_perm in H.
  apply list_elem_of_filter in H. destruct H as [Ha Hin].
  split; [now apply list_elem_of_In | apply Z.eqb_eq; now destruct (_ =? _)].
Qed.

End ConflictLoop.

Section ConflictInvariants.
Import Transaction Conflict.
Variables (env : Env.t) (penv : PoolEnv.t).

Lemma undoOn_keeps trs address s s' :
  undoOn env trs address s = Returned s' ->
  Store.pool s' = Store.pool s /\ Store.queue s' = Store.queue s /\
  Store.verifiedTransactions s' = Store.verifiedTransactions s.
Proof.
  unfold undoOn. destruct (Store.accounts s !! address); [| discriminate].
  destruct (TransactionService.calculateUndoUnconfirmed env trs _); cbn [bindO];
    [| discriminate].
  intros [= <-]. auto.
Qed.

Lemma foldl_thrown {A} (f : Outcome Store.t -> A -> Outcome Store.t) e (l : list A) :
  (forall x, f (Thrown e) x = Thrown e) -> foldl f (Thrown e) l = Thrown e.
Proof. intros Hf. induction l as [| x l IH]; cbn; [reflexivity | now rewrite Hf]. Qed.

Lemma undoForSlice_keeps trs address l : forall s s',
  undoForSlice env trs address l s = Returned s' ->
  Store.pool s' = Store.pool s /\ Store.queue s' = Store.queue s /\
  Store.verifiedTransactions s' = Store.verifiedTransactions s.
Proof.
  unfold undoForSlice. induction l as [| x l IH]; intros s s'.
  - intros [= <-]. auto.
  - cbn [foldl bindO]. destruct (undoOn env trs address s) as [s1 | e] eqn:H1.
    + intros H. destruct (IH s1 s' H) as [Hp [Hq Hv]].
      destruct (undoOn_keeps _ _ _ _ H1) as [Hp1 [Hq1 Hv1]].
      repeat split; congruence.
    + rewrite foldl_thrown by reflexivity. discriminate.
Qed.

Lemma reverify_keeps senderAddress senderTrs slice s s' status :
  reverify env penv senderAddress senderTrs slice s = Returned (s', status) ->
  Store.pool s' = Store.pool s /\ Store.queue s' = Store.queue s /\
  Store.verifiedTransactions s' = Store.verifiedTransactions s.
Proof.
  unfold reverify.
  assert (Hof : forall s1, senderOf senderAddress s = Returned s1 ->
            Store.pool s1 = Store.pool s /\ Store.queue s1 = Store.queue s /\
            Store.verifiedTransactions s1 = Store.verifiedTransactions s).
  { unfold senderOf. intros s1. destruct (bool_decide _); [intros [= <-]; auto |].
    destruct (Store.accounts s !! senderAddress); [| discriminate].
    intros [= <-]. auto. }
  destruct (senderOf senderAddress s) as [s1 | e]; cbn [bindO]; [| discriminate].
  destruct (Hof s1 eq_refl) as [Hp1 [Hq1 Hv1]].
  destruct (undoForSlice env senderTrs senderAddress slice s1) as [s2 | e] eqn:H2;
    cbn [bindO]; [| discriminate].
  destruct (undoForSlice_keeps _ _ _ _ _ H2) as [Hp2 [Hq2 Hv2]].
  destruct (Store.accounts s2 !! senderAddress); [| discriminate].
  intros [= <- _]. cbn. repeat split; congruence.
Qed.

Lemma movedToQueue_refl s : movedToQueue s s.
Proof. split; [| split; [| split]]; auto; reflexivity. Qed.

Lemma movedToQueue_trans s1 s2 s3 :
  movedToQueue s1 s2 -> movedToQueue s2 s3 -> movedToQueue s1 s3.
Proof.
  intros [Hp1 [Hq1 [Hv1 Hk1]]] [Hp2 [Hq2 [Hv2 Hk2]]]. split; [| split; [| split]].
  - etrans; eassumption.
  - etrans; eassumption.
  - etrans; eassumption.
  - intros trs Hin. destruct (Hk1 trs Hin) as [H | [queued [Hq Hid]]]; [auto |].
    right. exists queued. split; [| exact Hid].
    destruct Hq2 as [more ->]. apply in_or_app. now left.
Qed.

Lemma movedToQueue_same s s' :
  Store.pool s' = Store.pool s -> Store.queue s' = Store.queue s ->
  Store.verifiedTransactions s ⊆ Store.verifiedTransactions s' ->
  movedToQueue s s'.
Proof.
  intros Hp Hq Hv. unfold movedToQueue. rewrite Hp, Hq.
  split; [| split; [| split]]; auto; reflexivity.
Qed.

(** A transaction that failed goes from the pool to the end of the queue. *)
Lemma movedToQueue_requeue s senderTrs :
  movedToQueue s
    (Store.setQueue
       (Store.setPool s (TransactionPool.remove senderTrs (Store.pool s)))
       (Store.queue s ++ [senderTrs])).
Proof.
  unfold movedToQueue. cbn. split; [| split; [| split]].
  - unfold TransactionPool.remove. apply sublist_filter.
  - now exists [senderTrs].
  - reflexivity.
  - intros trs Hin.
    destruct (Js.optStrEq (id trs) (id senderTrs)) eqn:Heq.
    + right. exists senderTrs. split; [apply in_or_app; right; now left |].
      symmetry. now apply optStrEq_true.
    + left. unfold TransactionPool.remove. apply list_elem_of_In, list_elem_of_filter.
      split; [now rewrite Heq | now apply list_elem_of_In].
Qed.

Lemma checkLoop_movedToQueue (recur : Z -> Store.t -> Run Store.t) senderAddress :
  (forall address s s', recur address s = Done s' -> movedToQueue s s') ->
  forall slice s s',
    checkLoop recur env penv senderAddress slice s = Done s' -> movedToQueue s s'.
Proof.
  intros Hrecur l. induction l as [| senderTrs later IH]; intros s s'.
  - intros [= <-]. apply movedToQueue_refl.
  - cbn [checkLoop]. destruct (bool_decide _); [apply IH |].
    destruct (reverify env penv senderAddress senderTrs (senderTrs :: later) s)
      as [[s1 status] | e] eqn:Hre; cbn [liftO bindR]; [| discriminate].
    destruct (reverify_keeps _ _ _ _ _ _ Hre) as [Hp [Hq Hv]].
    assert (H01 : movedToQueue s s1)
      by (apply movedToQueue_same; [exact Hp | exact Hq | rewrite Hv; reflexivity]).
    destruct (ResponseEntity.success status).
    + intros H. apply IH in H.
      eapply movedToQueue_trans; [exact H01 |].
      eapply movedToQueue_trans; [| exact H].
      apply movedToQueue_same; [reflexivity | reflexivity |]. cbn. apply union_subseteq_r.
    + pose proof (movedToQueue_requeue s1 senderTrs) as H12.
      set (s2 := Store.setQueue _ _) in *.
      pose proof (movedToQueue_trans _ _ _ H01 H12) as H02.
      destruct (type senderTrs =? Env.SEND env).
      * destruct (assetRecipientAddress senderTrs) as [recipient |]; [| discriminate].
        destruct (recur recipient s2) as [s3 | e |] eqn:Hr; cbn [bindR]; try discriminate.
        intros H. apply IH in H. apply Hrecur in Hr.
        eapply movedToQueue_trans; [exact H02 |].
        eapply movedToQueue_trans; eassumption.
      * intros H. apply IH in H. eapply movedToQueue_trans; eassumption.
Qed.

Lemma checkLoop_all_verified (recur : Z -> Store.t -> Run Store.t) senderAddress :
  forall l s,
    (forall trs, In trs l -> id trs ∈ Store.verifiedTransactions s) ->
    checkLoop recur env penv senderAddress l s = Done s.
Proof.
  induction l as [| senderTrs later IH]; intros s Hall; [reflexivity |].
  cbn [checkLoop]. rewrite bool_decide_eq_true_2 by (apply Hall; now left).
  apply IH. intros trs Hin. apply Hall. now right.
Qed.

End ConflictInvariants.

(** X14. [checkSenderTransactions] passes over the transactions whose ids
    are in [verifiedTransactions]: when every pool transaction of the sender
    is verified already, and so too when the sender has none in the pool,
    the call changes nothing. *)
Theorem checkSenderTransactions_skips_verified
    (fuel : nat) (env : Env.t) (penv : PoolEnv.t) (senderAddress : Z) (s : Store.t) :
  (forall trs, In trs (Store.pool s) -> Transaction.senderAddress trs = senderAddress ->
               Transaction.id trs ∈ Store.verifiedTransactions s) ->
  Conflict.checkSenderTransactions (S fuel) env penv senderAddress s = Done s.
Proof.
  intros Hall. rewrite checkSenderTransactions_unfold.
  apply checkLoop_all_verified. intros trs Hin.
  apply getBySenderAddress_In in Hin. destruct Hin as [Hin Ha]. now apply Hall.
Qed.

(** The account 7 has the transfers [t1] and [t2] in the pool, neither of
    which would verify; with both ids among the verified ones the call leaves
    them where they are. *)
Lemma checkSenderTransactions_skips_verified_witness :
  Store.pool verifiedStore = [Sample.t1; Sample.t2] /\
  TransactionPool.getBySenderAddress 7 (Store.pool verifiedStore) = [Sample.t1; Sample.t2] /\
  Conflict.checkSenderTransactions 1 Sample.env Sample.poolEnv 7 verifiedStore
  = Done verifiedStore.
Proof.
  split; [reflexivity |]. split; [reflexivity |].
  apply (checkSenderTransactions_skips_verified 0 Sample.env Sample.poolEnv 7 verifiedStore).
  intros trs Hin Ha. cbn in Hin.
  destruct Hin as [<- | [<- | []]]; refine (bool_decide_unpack _ _); vm_compute; exact I.
Defined.

(** X15. Whatever [checkSenderTransactions] does when it completes, it puts
    no transaction into the pool and takes none out of the queue, it removes
    no id from [verifiedTransactions], and it loses no transaction: each pool
    transaction is still in the pool afterwards or has a transaction of its
    id in the queue. *)
Theorem checkSenderTransactions_moves_to_queue_only
    (fuel : nat) (env : Env.t) (penv : PoolEnv.t) (senderAddress : Z) (s s' : Store.t) :
  Conflict.checkSenderTransactions fuel env penv senderAddress s = Done s' ->
  movedToQueue s s'.
Proof.
  revert senderAddress s s'. induction fuel as [| fuel IH]; intros senderAddress s s'.
  - discriminate.
  - rewrite checkSenderTransactions_unfold.
    apply checkLoop_movedToQueue. intros address s1 s2. apply IH.
Qed.

Lemma checkSenderTransactions_moves_to_queue_only_witness :
  exists s',
    Conflict.checkSenderTransactions 3 Sample.env Sample.poolEnv 7 Sample.store = Done s' /\
    movedToQueue Sample.store s'.
Proof.
  eexists. split; [vm_compute; reflexivity |].
  apply (checkSenderTransactions_moves_to_queue_only 3 Sample.env Sample.poolEnv 7).
  vm_compute. reflexivity.
Defined.

Section ConflictCount.
Import Transaction Conflict.
Variables (env : Env.t) (penv : PoolEnv.t).

(** After the verification the account of the sender is in the store, and
    the status is the one of the queue for some state of that account. *)
Lemma reverify_account senderAddress senderTrs l s s' status :
  reverify env penv senderAddress senderTrs l s = Returned (s', status) ->
  is_Some (Store.accounts s' !! senderAddress) /\
  exists account, status = PoolEnv.queueVerify penv senderTrs account.
Proof.
  unfold reverify.
  destruct (senderOf senderAddress s) as [s1 | e]; cbn [bindO]; [| discriminate].
  destruct (undoForSlice env senderTrs senderAddress l s1) as [s2 | e]; cbn [bindO];
    [| discriminate].
  destruct (Store.accounts s2 !! senderAddress); [| discriminate].
  intros [= <- <-]. cbn. rewrite lookup_insert_eq. eauto.
Qed.

Lemma checkLoop_all_verify (recur : Z -> Store.t -> Run Store.t) senderAddress :
  (forall trs account,
      ResponseEntity.success (PoolEnv.queueVerify penv trs account) = true) ->
  forall l s,
    is_Some (Store.accounts s !! senderAddress) ->
    (forall trs, In trs l -> id trs ∉ Store.verifiedTransactions s) ->
    NoDup (map id l) ->
    (forall trs, In trs l ->
       exists service, Env.getTransactionServiceByType env (type trs) = Some service) ->
    exists s',
      checkLoop recur env penv senderAddress l s = Done s' /\
      Store.pool s' = Store.pool s /\ Store.queue s' = Store.queue s /\
      length (Store.undone s') = (length (Store.undone s) + triangular (length l))%nat /\
      Store.verifiedTransactions s ⊆ Store.verifiedTransactions s' /\
      (forall trs, In trs l -> id trs ∈ Store.verifiedTransactions s').
Proof.
  intros Hverify l. induction l as [| x later IH]; intros s Hacc Hfresh Hnodup Hservices.
  - exists s. cbn. split; [reflexivity |]. split; [reflexivity |]. split; [reflexivity |].
    split; [lia |]. split; [reflexivity | intros trs []].
  - cbn [checkLoop].
    rewrite bool_decide_eq_false_2 by (apply Hfresh; now left).
    destruct Hacc as [sender Hsender].
    destruct (Hservices x (or_introl eq_refl)) as [service Hservice].
    destruct (reverify_undone env penv x service senderAddress (x :: later) s sender
                Hservice Hsender) as [s1 [status [Hre Hlog]]].
    rewrite Hre. cbn [liftO bindR].
    destruct (reverify_keeps env penv _ _ _ _ _ _ Hre) as [Hp [Hq Hv]].
    destruct (reverify_account _ _ _ _ _ _ Hre) as [Hacc1 [account ->]].
    rewrite Hverify.
    apply NoDup_cons in Hnodup. destruct Hnodup as [Hx Hnodup].
    destruct (IH (Store.addVerified s1 (id x)))
      as [s' [Hrun [Hp' [Hq' [Hlog' [Hmono Hall]]]]]].
    + exact Hacc1.
    + intros trs Hin. cbn. rewrite Hv. intros Hmem.
      apply elem_of_union in Hmem. destruct Hmem as [Hmem | Hmem].
      * apply elem_of_singleton in Hmem. apply Hx.
        rewrite <- Hmem. apply list_elem_of_In, in_map, Hin.
      * exact (Hfresh trs (or_intror Hin) Hmem).
    + exact Hnodup.
    + intros trs Hin. apply Hservices. now right.
    + exists s'. split; [exact Hrun |]. cbn in Hp', Hq', Hlog', Hmono.
      split; [congruence |]. split; [congruence |]. split; [| split].
      * rewrite Hlog', Hlog, length_app, length_replicate. cbn [length triangular]. lia.
      * rewrite <- Hv. etrans; [| exact Hmono]. apply union_subseteq_r.
      * intros trs [<- | Hin]; [| now apply Hall].
        apply Hmono. apply elem_of_union. left. now apply elem_of_singleton.
Qed.

End ConflictCount.

(** X16. The undo calls are made before each verification, so they are made
    also when every transaction verifies: for a sender with [n] pool
    transactions, none verified yet and all of them passing,
    [checkSenderTransactions] leaves pool and queue as they are and enters
    the ids in [verifiedTransactions], and it has called
    [calculateUndoUnconfirmed] n + (n-1) + ... + 1 times on the account. *)
Theorem checkSenderTransactions_undo_calls_when_all_verify
    (fuel : nat) (env : Env.t) (penv : PoolEnv.t) (senderAddress : Z) (s : Store.t) :
  let transactions := TransactionPool.getBySenderAddress senderAddress (Store.pool s) in
  (forall trs account,
      ResponseEntity.success (PoolEnv.queueVerify penv trs account) = true) ->
  is_Some (Store.accounts s !! senderAddress) ->
  (forall trs, In trs transactions -> Transaction.id trs ∉ Store.verifiedTransactions s) ->
  NoDup (map Transaction.id transactions) ->
  (forall trs, In trs transactions ->
     exists service,
       Env.getTransactionServiceByType env (Transaction.type trs) = Some service) ->
  exists s',
    Conflict.checkSenderTransactions (S fuel) env penv senderAddress s = Done s' /\
    Store.pool s' = Store.pool s /\ Store.queue s' = Store.queue s /\
    length (Store.undone s') =
      (length (Store.undone s) + triangular (length transactions))%nat /\
    (forall trs, In trs transactions ->
       Transaction.id trs ∈ Store.verifiedTransactions s').
Proof.
  intros transactions Hverify Hacc Hfresh Hnodup Hservices.
  rewrite checkSenderTransactions_unfold.
  destruct (checkLoop_all_verify env penv (Conflict.checkSenderTransactions fuel env penv)
              senderAddress Hverify transactions s Hacc Hfresh Hnodup Hservices)
    as [s' [Hrun [Hp [Hq [Hlog [_ Hall]]]]]].
  exists s'. auto.
Qed.

Lemma checkSenderTransactions_undo_calls_when_all_verify_witness :
  exists s',
    Conflict.checkSenderTransactions 1 Sample.env
      (PoolEnv.mk (fun _ _ => ResponseEntity.ok)
                  (fun a b => Transaction.createdAt a - Transaction.createdAt b))
      7 Sample.store = Done s' /\
    Store.pool s' = [Sample.t1; Sample.t2] /\
    length (Store.undone s') = 3%nat.
Proof.
  destruct (checkSenderTransactions_undo_calls_when_all_verify 0 Sample.env
              (PoolEnv.mk (fun _ _ => ResponseEntity.ok)
                          (fun a b => Transaction.createdAt a - Transaction.createdAt b))
              7 Sample.store) as [s' [Hrun [Hp [_ [Hlog _]]]]].
  - reflexivity.
  - exists (Sample.account 100 0). reflexivity.
  - intros trs _. cbn. apply not_elem_of_empty.
  - vm_compute. repeat constructor.
    + intros H. apply list_elem_of_In in H. destruct H as [H | []]. discriminate H.
    + intros H. apply list_elem_of_In in H. destruct H.
  - intros trs Hin. vm_compute in Hin. destruct Hin as [<- | [<- | []]];
      exists Sample.service; reflexivity.
  - exists s'. split; [exact Hrun |]. split; [exact Hp | exact Hlog].
Defined.

(* ---------------------------------------------------------------------- *)
(** *** Receiving blocks                                                   *)
(* ---------------------------------------------------------------------- *)

(** X17. [onReceiveBlock] leaves the node exactly as it is, without a call
    to another module, when the node is not ready (not loaded, syncing, or a
    round ticking), and also when the block has none of the three shapes: it
    is not one higher than the last block and it is not a sibling of the last
    block with another id. So the last block received again, an older block
    and a block too far ahead are all dropped. *)
Theorem onReceiveBlock_drops_other_blocks (m : Modules.t) (block : Block.t) (n : Node.t) :
  ~ ready n \/
  (Block.height (Node.lastBlock n) + 1 <> Block.height block /\
   ~ forkFive block (Node.lastBlock n)) ->
  Process.onReceiveBlock m block n = (n, None).
Proof.
  intros H. unfold Process.onReceiveBlock.
  destruct (Node.loaded n) eqn:Hl, (Node.syncing n) eqn:Hs, (Node.ticking n) eqn:Ht;
    cbn [negb orb]; try reflexivity.
  destruct H as [H | [Hheight Hfive]].
  - exfalso. apply H. repeat split; assumption.
  - apply Z.eqb_neq in Hheight. rewrite Hheight, !andb_false_r.
    destruct (String.eqb_spec (Block.previousBlock block)
                (Block.previousBlock (Node.lastBlock n))) as [Hp | Hp]; [| reflexivity].
    destruct (Z.eqb_spec (Block.height block) (Block.height (Node.lastBlock n)))
      as [Hh | Hh]; [| reflexivity].
    destruct (String.eqb_spec (Block.id block) (Block.id (Node.lastBlock n)))
      as [Hi | Hi]; [reflexivity |].
    exfalso. apply Hfive. repeat split; assumption.
Qed.

Lemma onReceiveBlock_drops_other_blocks_witness :
  Process.onReceiveBlock Sample.modules Sample.b3 (Sample.node []) = (Sample.node [], None) /\
  Process.onReceiveBlock Sample.modules (Sample.block "aa02" 9 "b1" 90) (Sample.node [])
  = (Sample.node [], None).
Proof.
  split; apply onReceiveBlock_drops_other_blocks; right;
    (split; [discriminate | intros [H0 [H1 H2]]; try discriminate H1; now apply H2]).
Defined.

Section Guards.
Import Block Process.
Variable m : Modules.t.

(** A check that stops the block: what [checkReceived] returns. *)
Lemma checkReceived_stopped block lastBlock err n :
  stoppedByCheck m block lastBlock err ->
  snd (checkReceived m block lastBlock n) = Some err.
Proof.
  intros [Htruthy H]. unfold checkReceived.
  destruct H as [-> | [tmpBlock [-> H]]]; [reflexivity |].
  destruct H as [Hslot | [Hslot [Hv Herr]]].
  - rewrite Hslot. unfold failed. cbn [Js.truthyOptStr]. rewrite Htruthy. reflexivity.
  - rewrite Hslot, Hv. cbn [negb snd]. exact Herr.
Qed.

(** The three checks only check. *)
Lemma checkReceived_only_checks block lastBlock n :
  let n' := fst (checkReceived m block lastBlock n) in
  Node.chain n' = Node.chain n /\ Node.pool n' = Node.pool n /\
  Node.locked n' = Node.locked n /\
  exists made, Node.calls n' = Node.calls n ++ made /\
               ~ In CallDeleteLastBlock made /\ noProcessing made.
Proof.
  unfold checkReceived.
  destruct (Modules.objectNormalize m block) as [tmpBlock | e]; cbn [fst].
  - destruct (failed (validateBlockSlot m tmpBlock lastBlock)); cbn [fst];
      [| destruct (verified (Modules.verifyReceipt m tmpBlock)); cbn [fst negb]];
      (split; [reflexivity |]; split; [reflexivity |]; split; [reflexivity |]).
    + exists [CallObjectNormalize (id block); CallValidateBlockSlot (id tmpBlock)].
      split; [cbn; now rewrite <- app_assoc |].
      split; [intros [H | [H | []]]; discriminate |].
      intros b [H | [H | []]]; discriminate.
    + exists [CallObjectNormalize (id block); CallValidateBlockSlot (id tmpBlock);
              CallVerifyReceipt (id tmpBlock)].
      split; [cbn; now rewrite <- !app_assoc |].
      split; [intros [H | [H | [H | []]]]; discriminate |].
      intros b [H | [H | [H | []]]]; discriminate.
    + exists [CallObjectNormalize (id block); CallValidateBlockSlot (id tmpBlock);
              CallVerifyReceipt (id tmpBlock)].
      split; [cbn; now rewrite <- !app_assoc |].
      split; [intros [H | [H | [H | []]]]; discriminate |].
      intros b [H | [H | [H | []]]]; discriminate.
  - split; [reflexivity |]; split; [reflexivity |]; split; [reflexivity |].
    exists [CallObjectNormalize (id block)]. split; [reflexivity |].
    split; [intros [H | []]; discriminate |].
    intros b [H | []]; discriminate.
Qed.

(** A stopped block in either handler: the result is that of the checks. *)
Lemma receiveFork_stopped block lastBlock err n cause :
  lastBlockStands block lastBlock = false ->
  stoppedByCheck m block lastBlock err ->
  receiveForkOne m block lastBlock n =
    checkReceived m block lastBlock (Node.record (CallFork (id block) 1) n) /\
  receiveForkFive m block lastBlock n =
    checkReceived m block lastBlock (Node.record (CallFork (id block) 5) n) /\
  snd (checkReceived m block lastBlock (Node.record (CallFork (id block) cause) n))
  = Some err.
Proof.
  intros Hs Hstop.
  pose proof (fun n => checkReceived_stopped block lastBlock err n Hstop) as Herr.
  destruct Hstop as [Htruthy _].
  unfold receiveForkOne, receiveForkFive. rewrite Hs.
  split; [| split; [| apply Herr]].
  - specialize (Herr (Node.record (CallFork (id block) 1) n)).
    destruct (checkReceived m block lastBlock _) as [n1 e1]. cbn [snd] in Herr.
    subst e1. unfold failed. cbn [Js.truthyOptStr]. now rewrite Htruthy.
  - specialize (Herr (Node.record (CallFork (id block) 5) n)).
    destruct (checkReceived m block lastBlock _) as [n1 e1]. cbn [snd] in Herr.
    subst e1. unfold failed. cbn [Js.truthyOptStr]. now rewrite Htruthy.
Qed.

End Guards.

(** X18. Both fork handlers check the received block "before any
    deletion": when the block wins against the last block but is stopped by
    normalizing, by the slot validation or by a receipt check with an error
    text, [onReceiveBlock] passes that error on, deletes nothing and
    processes nothing; the chain, the pool and the lock are as before. *)
Theorem stopped_fork_block_deletes_nothing
    (m : Modules.t) (block : Block.t) (n : Node.t) (err : string) :
  ready n ->
  forkOne block (Node.lastBlock n) \/ forkFive block (Node.lastBlock n) ->
  Process.lastBlockStands block (Node.lastBlock n) = false ->
  stoppedByCheck m block (Node.lastBlock n) err ->
  let result := Process.onReceiveBlock m block n in
  snd result = Some err /\
  Node.chain (fst result) = Node.chain n /\
  Node.pool (fst result) = Node.pool n /\
  Node.locked (fst result) = Node.locked n /\
  exists made, Node.calls (fst result) = Node.calls n ++ made /\
               ~ In CallDeleteLastBlock made /\ noProcessing made.
Proof.
  intros Hready Hfork Hs Hstop result.
  assert (Hres : exists cause,
             result = Process.checkReceived m block (Node.lastBlock n)
                        (Node.record (CallFork (Block.id block) cause) n) /\
             snd result = Some err).
  { subst result. destruct Hfork as [Hfork | Hfork].
    - exists 1. rewrite (onReceiveBlock_forkOne m block n Hready Hfork).
      destruct (receiveFork_stopped m block _ err n 1 Hs Hstop) as [-> [_ H]]. now split.
    - exists 5. rewrite (onReceiveBlock_forkFive m block n Hready Hfork).
      destruct (receiveFork_stopped m block _ err n 5 Hs Hstop) as [_ [-> H]]. now split. }
  destruct Hres as [cause [-> Herr]]. split; [exact Herr |].
  destruct (checkReceived_only_checks m block (Node.lastBlock n)
              (Node.record (CallFork (Block.id block) cause) n))
    as [Hchain [Hpool [Hlock [made [Hcalls [Hdel Hproc]]]]]].
  split; [exact Hchain |]. split; [exact Hpool |]. split; [exact Hlock |].
  exists (CallFork (Block.id block) cause :: made).
  split; [| split].
  - rewrite Hcalls. cbn. now rewrite <- app_assoc.
  - intros [H | H]; [discriminate | exact (Hdel H)].
  - intros b [H | H]; [discriminate | exact (Hproc b H)].
Qed.

Lemma stopped_fork_block_deletes_nothing_witness :
  let block := SampleMore.unsigned "aa02" 3 "b1" 100 in
  let result := Process.onReceiveBlock Sample.modules block (Sample.node [Sample.t1]) in
  snd result = Some "Failed to verify block signature" /\
  Node.chain (fst result) = [Sample.b3; Sample.b2; Sample.genesis] /\
  Node.pool (fst result) = [Sample.t1].
Proof.
  assert (Hready : ready (Sample.node [Sample.t1])) by (repeat split).
  assert (Hfork : forkOne (SampleMore.unsigned "aa02" 3 "b1" 100)
                    (Node.lastBlock (Sample.node [Sample.t1])) \/
                  forkFive (SampleMore.unsigned "aa02" 3 "b1" 100)
                    (Node.lastBlock (Sample.node [Sample.t1])))
    by (right; split; [reflexivity | split; [reflexivity | discriminate]]).
  assert (Hstop : stoppedByCheck Sample.modules (SampleMore.unsigned "aa02" 3 "b1" 100)
                    (Node.lastBlock (Sample.node [Sample.t1]))
                    "Failed to verify block signature").
  { split; [reflexivity |]. right. exists (SampleMore.unsigned "aa02" 3 "b1" 100).
    split; [reflexivity |]. right. repeat split. }
  pose proof (stopped_fork_block_deletes_nothing Sample.modules
                (SampleMore.unsigned "aa02" 3 "b1" 100) (Sample.node [Sample.t1])
                "Failed to verify block signature" Hready Hfork eq_refl Hstop) as H.
  cbv zeta in H. destruct H as [Herr [Hchain [Hpool _]]].
  split; [exact Herr |]. split; [exact Hchain | exact Hpool].
Defined.

Section Receive.
Import Block Process.
Variable m : Modules.t.

Lemma deleteLastBlock_calls n :
  Node.calls (fst (deleteLastBlock n)) = Node.calls n ++ [CallDeleteLastBlock].
Proof.
  unfold deleteLastBlock.
  change (Node.previous (Node.record CallDeleteLastBlock n)) with (Node.previous n).
  destruct (Node.previous n); reflexivity.
Qed.

(** Processing a block notes one call and touches neither pool nor lock. *)
Lemma newProcessBlock_keeps block n :
  let n' := fst (newProcessBlock m block n) in
  Node.calls n' = Node.calls n ++ [CallNewProcessBlock (id block)] /\
  Node.pool n' = Node.pool n /\ Node.locked n' = Node.locked n.
Proof.
  unfold newProcessBlock. destruct (_ && _); repeat split.
Qed.

(** A block that is not accepted is refused, and the node keeps its chain. *)
Lemma newProcessBlock_refused block n :
  ~ accepted m block (Node.lastBlock n) ->
  newProcessBlock m block n =
  (Node.record (CallNewProcessBlock (id block)) n, Some "Error: block is not accepted").
Proof.
  intros Hno. unfold newProcessBlock.
  change (Node.lastBlock (Node.record _ n)) with (Node.lastBlock n).
  destruct (_ && _) eqn:Hall; [| reflexivity].
  exfalso. apply Hno.
  repeat (apply andb_true_iff in Hall; destruct Hall as [Hall ?]).
  repeat split; try assumption.
  - now apply String.eqb_eq.
  - now apply Z.eqb_eq.
  - now apply Z.ltb_lt.
Qed.

Lemma newReceiveBlock_unfold block n :
  newReceiveBlock m block n =
  match newProcessBlock m block (whenProcessing m block n) with
  | (n', Some _) =>
      (unlockTransactionPoolAndQueue (pushInPool (removedFor m block n) n'), None)
  | (n', None) =>
      let n'' := pushInPool (forReturn m block n) n' in
      match Modules.returnToQueueConflicted m (Node.pool n'') with
      | Thrown _ =>
          (unlockTransactionPoolAndQueue (pushInPool (removedFor m block n) n''), None)
      | Returned pool => (unlockTransactionPoolAndQueue (Node.setPool n'' pool), None)
      end
  end.
Proof. reflexivity. Qed.

(** The calls of [newReceiveBlock] come after those made before. *)
Lemma newReceiveBlock_calls block n :
  Node.calls n `prefix_of` Node.calls (fst (newReceiveBlock m block n)).
Proof.
  rewrite newReceiveBlock_unfold.
  destruct (newProcessBlock_keeps block (whenProcessing m block n)) as [Hcalls _].
  destruct (newProcessBlock m block (whenProcessing m block n)) as [n1 e1].
  cbn [fst] in Hcalls.
  change (Node.calls (whenProcessing m block n))
    with (Node.calls n ++ [CallLastReceiptUpdate]) in Hcalls.
  destruct e1 as [e |].
  - cbn. rewrite Hcalls, <- !app_assoc. apply prefix_app_r. reflexivity.
  - cbv zeta. destruct (Modules.returnToQueueConflicted m _); cbn;
      rewrite Hcalls, <- !app_assoc; apply prefix_app_r; reflexivity.
Qed.

Lemma split_by_flag {A} (f : A -> bool) (l : list A) :
  filter (fun x => negb (f x)) l ++ filter (fun x => f x) l ≡ₚ l.
Proof.
  induction l as [| a l IH]; [reflexivity |].
  rewrite !filter_cons. destruct (f a) eqn:Hf; cbn [negb].
  - rewrite decide_False by (intros []). rewrite decide_True by exact I.
    rewrite <- Permutation_middle. now rewrite IH.
  - rewrite decide_True by exact I. rewrite decide_False by (intros []).
    cbn. now rewrite IH.
Qed.

End Receive.

(** X19. The check "before any deletion" stops the recovery only by its
    first error text. A block that wins against the last block and whose
    receipt is not verified, but without an error text ([check.errors] empty,
    or its first entry the empty string), is not stopped: in both fork
    handlers the deletion of the last block is the next call. *)
Theorem unverified_block_without_error_text_is_not_stopped
    (m : Modules.t) (block tmpBlock : Block.t) (n : Node.t) :
  ready n ->
  forkOne block (Node.lastBlock n) \/ forkFive block (Node.lastBlock n) ->
  Process.lastBlockStands block (Node.lastBlock n) = false ->
  Modules.objectNormalize m block = Returned tmpBlock ->
  Process.failed (Process.validateBlockSlot m tmpBlock (Node.lastBlock n)) = false ->
  verified (Modules.verifyReceipt m tmpBlock) = false ->
  Process.failed (head (check_errors (Modules.verifyReceipt m tmpBlock))) = false ->
  exists cause,
    (Node.calls n ++
     [CallFork (Block.id block) cause; CallObjectNormalize (Block.id block);
      CallValidateBlockSlot (Block.id tmpBlock); CallVerifyReceipt (Block.id tmpBlock);
      CallDeleteLastBlock])
    `prefix_of` Node.calls (fst (Process.onReceiveBlock m block n)).
Proof.
  intros Hready Hfork Hs Hn Hslot Hv Herr.
  assert (Hcheck : forall n0,
             Process.checkReceived m block (Node.lastBlock n) n0 =
             (Node.record (CallVerifyReceipt (Block.id tmpBlock))
                (Node.record (CallValidateBlockSlot (Block.id tmpBlock))
                   (Node.record (CallObjectNormalize (Block.id block)) n0)),
              head (check_errors (Modules.verifyReceipt m tmpBlock)))).
  { intros n0. unfold Process.checkReceived. now rewrite Hn, Hslot, Hv. }
  assert (Hcalls : forall cause n1,
             Node.calls n1 =
             Node.calls n ++
             [CallFork (Block.id block) cause; CallObjectNormalize (Block.id block);
              CallValidateBlockSlot (Block.id tmpBlock);
              CallVerifyReceipt (Block.id tmpBlock)] ->
             Node.calls (fst (Process.deleteLastBlock n1)) =
             (Node.calls n ++
              [CallFork (Block.id block) cause; CallObjectNormalize (Block.id block);
               CallValidateBlockSlot (Block.id tmpBlock);
               CallVerifyReceipt (Block.id tmpBlock); CallDeleteLastBlock])).
  { intros cause n1 H. rewrite deleteLastBlock_calls, H, <- app_assoc. reflexivity. }
  destruct Hfork as [Hfork | Hfork].
  - exists 1. rewrite (onReceiveBlock_forkOne m block n Hready Hfork).
    unfold Process.receiveForkOne. rewrite Hs, Hcheck, Herr.
    match goal with
    | |- context [Process.deleteLastBlock ?n1] =>
        pose proof (Hcalls 1 n1) as Hd; destruct (Process.deleteLastBlock n1) as [n2 e2]
    end.
    cbn [fst] in Hd.
    rewrite <- Hd by (cbn; now rewrite <- !app_assoc).
    destruct (Process.failed e2); cbn [fst]; [reflexivity |].
    rewrite deleteLastBlock_calls. now apply prefix_app_r.
  - exists 5. rewrite (onReceiveBlock_forkFive m block n Hready Hfork).
    unfold Process.receiveForkFive. rewrite Hs, Hcheck, Herr.
    match goal with
    | |- context [Process.deleteLastBlock ?n1] =>
        pose proof (Hcalls 5 n1) as Hd; destruct (Process.deleteLastBlock n1) as [n2 e2]
    end.
    cbn [fst] in Hd.
    rewrite <- Hd by (cbn; now rewrite <- !app_assoc).
    destruct (Process.failed e2); cbn [fst]; [reflexivity |].
    pose proof (newReceiveBlock_calls m block n2) as Hp.
    destruct (Process.newReceiveBlock m block n2) as [n3 e3]. exact Hp.
Qed.

Lemma unverified_block_without_error_text_is_not_stopped_witness :
  let block := Sample.block "aa02" 4 "c4" 100 in
  verified (Modules.verifyReceipt SampleMore.silentReceipt block) = false /\
  exists cause,
    [CallFork "aa02" cause; CallObjectNormalize "aa02"; CallValidateBlockSlot "aa02";
     CallVerifyReceipt "aa02"; CallDeleteLastBlock]
    `prefix_of`
    Node.calls (fst (Process.onReceiveBlock SampleMore.silentReceipt block (Sample.node []))).
Proof.
  split; [reflexivity |].
  apply (unverified_block_without_error_text_is_not_stopped SampleMore.silentReceipt
           (Sample.block "aa02" 4 "c4" 100) (Sample.block "aa02" 4 "c4" 100)
           (Sample.node [])).
  - repeat split.
  - left. split; [discriminate | reflexivity].
  - reflexivity.
  - reflexivity.
  - reflexivity.
  - reflexivity.
  - reflexivity.
Defined.

(** X20. [newReceiveBlock] never leaves the lock on pool and queue held and
    never passes an error on, whatever the processing does. When the
    processing of the block fails, the chain is as before and the pool is
    what was left in it followed by what was removed; so, when what
    [removeFromPool] returned is what the pool held under those ids, the pool
    has its former content again. *)
Theorem newReceiveBlock_failure_is_contained
    (m : Modules.t) (block : Block.t) (n : Node.t) :
  let result := Process.newReceiveBlock m block n in
  Node.locked (fst result) = false /\
  snd result = None /\
  (~ accepted m block (Node.lastBlock n) ->
   Node.chain (fst result) = Node.chain n /\
   Node.pool (fst result) = keptFor m block n ++ removedFor m block n /\
   (removedFor m block n ≡ₚ
    filter (fun trs => Process.inTransactions trs (removedFor m block n)) (Node.pool n) ->
    Node.pool (fst result) ≡ₚ Node.pool n)).
Proof.
  intros result. subst result. rewrite newReceiveBlock_unfold.
  split; [| split].
  - destruct (Process.newProcessBlock m block (whenProcessing m block n)) as [n1 [e |]];
      [reflexivity |].
    cbv zeta. destruct (Modules.returnToQueueConflicted m _); reflexivity.
  - destruct (Process.newProcessBlock m block (whenProcessing m block n)) as [n1 [e |]];
      [reflexivity |].
    cbv zeta. destruct (Modules.returnToQueueConflicted m _); reflexivity.
  - intros Hno.
    rewrite (newProcessBlock_refused m block (whenProcessing m block n)) by exact Hno.
    split; [reflexivity |]. split; [reflexivity |].
    intros Hremoved. cbn. fold (removedFor m block n).
    etrans; [apply Permutation_app_head, Hremoved |].
    apply (split_by_flag (fun trs => Process.inTransactions trs (removedFor m block n))).
Qed.

Lemma newReceiveBlock_failure_is_contained_witness :
  let result :=
    Process.newReceiveBlock Sample.modules (SampleMore.b4 90)
      (Sample.node [Sample.t1; Sample.t2]) in
  Node.locked (fst result) = false /\
  Node.chain (fst result) = [Sample.b3; Sample.b2; Sample.genesis] /\
  Node.pool (fst result) = [Sample.t2; Sample.t1] /\
  Node.pool (fst result) ≡ₚ [Sample.t1; Sample.t2].
Proof.
  destruct (newReceiveBlock_failure_is_contained Sample.modules (SampleMore.b4 90)
              (Sample.node [Sample.t1; Sample.t2])) as [Hlock [_ Hfail]].
  assert (Hno : ~ accepted Sample.modules (SampleMore.b4 90)
                  (Node.lastBlock (Sample.node [Sample.t1; Sample.t2]))).
  { intros [_ [_ [_ [Ht _]]]]. cbn in Ht. lia. }
  destruct (Hfail Hno) as [Hchain [Hpool Hperm]].
  split; [exact Hlock |]. split; [exact Hchain |]. split; [exact Hpool |].
  apply Hperm. reflexivity.
Defined.

(** X21. When the block is accepted and
    [returnToQueueConflictedTransactionFromPool] then throws, the catch
    branch of [newReceiveBlock] pushes everything that was removed into the
    pool again, although the block stays on the chain: the removed
    transactions that are not in the block are then in the pool twice, and
    those that are in the block are in the pool and in the chain. *)
Theorem newReceiveBlock_conflict_error_pushes_twice
    (m : Modules.t) (block : Block.t) (n : Node.t) (e : string) :
  accepted m block (Node.lastBlock n) ->
  Modules.returnToQueueConflicted m (keptFor m block n ++ forReturn m block n) = Thrown e ->
  let result := Process.newReceiveBlock m block n in
  snd result = None /\
  Node.chain (fst result) = block :: Node.chain n /\
  Node.pool (fst result) = keptFor m block n ++ forReturn m block n ++ removedFor m block n /\
  Node.calls (fst result) =
    Node.calls n ++
    [CallLastReceiptUpdate; CallNewProcessBlock (Block.id block);
     CallPushInPool (forReturn m block n); CallPushInPool (removedFor m block n)].
Proof.
  intros Hacc Hthrow result. subst result. rewrite newReceiveBlock_unfold.
  rewrite (newProcessBlock_accepted m block (whenProcessing m block n)) by exact Hacc.
  cbv zeta.
  change (Node.pool (Process.pushInPool (forReturn m block n) _))
    with (keptFor m block n ++ forReturn m block n).
  rewrite Hthrow. split; [reflexivity |]. split; [reflexivity |].
  split; [cbn; now rewrite <- app_assoc |].
  cbn. now rewrite <- !app_assoc.
Qed.

Lemma newReceiveBlock_conflict_error_pushes_twice_witness :
  let result :=
    Process.newReceiveBlock SampleMore.conflictThrows (SampleMore.b4 110)
      (Sample.node [Sample.t1; Sample.t2]) in
  Node.chain (fst result) = [SampleMore.b4 110; Sample.b3; Sample.b2; Sample.genesis] /\
  Node.pool (fst result) = [Sample.t2; Sample.t1] /\
  In Sample.t1 (Block.transactions (Node.lastBlock (fst result))).
Proof.
  assert (Hacc : accepted SampleMore.conflictThrows (SampleMore.b4 110)
                   (Node.lastBlock (Sample.node [Sample.t1; Sample.t2])))
    by (repeat split).
  destruct (newReceiveBlock_conflict_error_pushes_twice SampleMore.conflictThrows
              (SampleMore.b4 110) (Sample.node [Sample.t1; Sample.t2])
              "Error: no connection" Hacc eq_refl) as [_ [Hchain [Hpool _]]].
  split; [exact Hchain |]. split; [exact Hpool |].
  left. reflexivity.
Defined.

(** X22. Once the block is created, [newGenerateBlock] always ends with
    the lock released and without an error. When the created block is
    accepted it is the new last block and the pool holds what was not
    drained; when it is not, the chain is as before and the drained
    transactions are back in the pool, which has its former content. *)
Theorem newGenerateBlock_after_creation
    (m : Modules.t) (keypair : IKeyPair) (timestamp : Z) (n : Node.t) (block : Block.t) :
  Modules.blockCreate m keypair timestamp (Node.lastBlock n) (drained m n) = Returned block ->
  let result := Process.newGenerateBlock m keypair timestamp n in
  Node.locked (fst result) = false /\
  snd result = None /\
  (accepted m block (Node.lastBlock n) ->
   Node.chain (fst result) = block :: Node.chain n /\
   Node.pool (fst result) =
     drop (Modules.maxTxsPerBlock m) (Process.sortPool (Node.pool n))) /\
  (~ accepted m block (Node.lastBlock n) ->
   Node.chain (fst result) = Node.chain n /\
   Node.pool (fst result) ≡ₚ Node.pool n).
Proof.
  intros Hcreate result. subst result. rewrite newGenerateBlock_unfold, Hcreate.
  split; [| split; [| split]].
  - destruct (Process.newProcessBlock m block (whenCreating m n)) as [n1 [e |]];
      reflexivity.
  - destruct (Process.newProcessBlock m block (whenCreating m n)) as [n1 [e |]];
      reflexivity.
  - intros Hacc.
    rewrite (newProcessBlock_accepted m block (whenCreating m n)) by exact Hacc.
    split; reflexivity.
  - intros Hno.
    rewrite (newProcessBlock_refused m block (whenCreating m n)) by exact Hno.
    split; [reflexivity |].
    change (Node.pool (whenCreating m n) ++ drained m n ≡ₚ Node.pool n).
    etrans; [apply Permutation_app_comm | apply drained_and_kept].
Qed.

Lemma newGenerateBlock_after_creation_witness :
  let n := Sample.node [Sample.t1; Sample.t2] in
  (let result := Process.newGenerateBlock Sample.modules Sample.keyPair 110 n in
   Node.locked (fst result) = false /\
   Block.transactions (Node.lastBlock (fst result)) = [Sample.t1; Sample.t2] /\
   Node.pool (fst result) = []) /\
  (let result := Process.newGenerateBlock Sample.modules Sample.keyPair 90 n in
   Node.locked (fst result) = false /\
   Node.chain (fst result) = Node.chain n /\
   Node.pool (fst result) ≡ₚ [Sample.t1; Sample.t2]).
Proof.
  split.
  - destruct (newGenerateBlock_after_creation Sample.modules Sample.keyPair 110
                (Sample.node [Sample.t1; Sample.t2]) _ eq_refl)
      as [Hlock [_ [Hok _]]].
    destruct Hok as [Hchain Hpool]; [repeat split |].
    split; [exact Hlock |]. split; [| exact Hpool].
    exact (f_equal (fun chain => Block.transactions (hd Sample.genesis chain)) Hchain).
  - destruct (newGenerateBlock_after_creation Sample.modules Sample.keyPair 90
                (Sample.node [Sample.t1; Sample.t2]) _ eq_refl)
      as [Hlock [_ [_ Hno]]].
    destruct Hno as [Hchain Hpool];
      [intros [_ [_ [_ [Ht _]]]]; cbn in Ht; lia |].
    split; [exact Hlock |]. split; [exact Hchain | exact Hpool].
Defined.

(* ---------------------------------------------------------------------- *)
(** *** Loading blocks from a peer                                         *)
(* ---------------------------------------------------------------------- *)

Section Load.
Import Block Process ProcessLoad.
Context {Row : Type}.
Variable m : Modules.t.
Variable env : Transport.t Row.

(** What one block does to the state: the last valid block stays the head
    of the chain, the chain grows at most, the lock is released, and nobody
    is banned by [processBlock] itself. *)
Lemma processBlock_keeps block st :
  lastValidBlock st = Node.lastBlock (node st) ->
  let st' := fst (processBlock m block st) in
  lastValidBlock st' = Node.lastBlock (node st') /\
  Node.chain (node st) `suffix_of` Node.chain (node st') /\
  Node.locked (node st') = false /\
  banned st' = banned st.
Proof.
  intros Hhead. unfold processBlock.
  set (n0 := lockTransactionPoolAndQueue _).
  assert (Hlast : Node.lastBlock n0 = Node.lastBlock (node st)) by reflexivity.
  assert (Hchain : Node.chain n0 = Node.chain (node st)) by reflexivity.
  clearbody n0. unfold newProcessBlock.
  change (Node.lastBlock (Node.record _ n0)) with (Node.lastBlock n0).
  change (Node.previous (Node.record _ n0)) with (Node.previous n0).
  destruct (_ && _).
  - cbv zeta. destruct (Modules.returnToQueueConflicted m _); cbn;
      (split; [reflexivity |]; split; [| split; reflexivity]);
      rewrite <- Hchain; apply suffix_cons_r; reflexivity.
  - cbn. split; [now rewrite Hhead, Hlast |].
    split; [| split; reflexivity].
    unfold Node.chain in *. cbn. now rewrite <- Hchain.
Qed.

Lemma eachSeries_keeps blocks : forall i st,
  lastValidBlock st = Node.lastBlock (node st) ->
  let result := eachSeries m env i blocks st in
  lastValidBlock (fst result) = Node.lastBlock (node (fst result)) /\
  Node.chain (node st) `suffix_of` Node.chain (node (fst result)) /\
  (banned st = false -> banned (fst result) = true -> snd result <> None).
Proof.
  induction blocks as [| block rest IH]; intros i st Hhead; cbn.
  - split; [exact Hhead |]. split; [reflexivity | congruence].
  - destruct (Transport.isCleaning env i); [apply IH, Hhead |].
    destruct (processBlock_keeps block st Hhead) as [Hh [Hs [_ Hb]]].
    destruct (processBlock m block st) as [st1 [err |]]; cbn [fst] in Hh, Hs, Hb.
    + cbn. split; [exact Hh |]. split; [exact Hs | discriminate].
    + destruct (IH (S i) st1 Hh) as [Hh' [Hs' Hb']].
      split; [exact Hh' |]. split; [etrans; eassumption |].
      intros Hnot. apply Hb'. congruence.
Qed.

End Load.

(** X23. Whatever the peer sends, [loadBlocksFromPeer] reports as last
    valid block the last block of the chain it leaves (with [newProcessBlock]
    putting an accepted block on the chain and nothing else), and that chain
    is the former chain with blocks added on top at most. The peer is never
    banned without an error being reported; a transport error or data that
    fail the schema leave the node as it is and ban nobody. *)
Theorem loadBlocksFromPeer_reports_the_head
    {Row : Type} (m : Modules.t) (env : Transport.t Row) (peer : string) (n : Node.t) :
  let result := ProcessLoad.loadBlocksFromPeer m env peer n in
  ProcessLoad.lastValidBlock (fst result) = Node.lastBlock (ProcessLoad.node (fst result)) /\
  Node.chain n `suffix_of` Node.chain (ProcessLoad.node (fst result)) /\
  (ProcessLoad.banned (fst result) = true -> snd result <> None) /\
  (forall blocks,
     Transport.getFromPeer env peer (Block.id (Node.lastBlock n)) = Returned blocks ->
     Transport.validate env blocks = false ->
     result = (ProcessLoad.mkState n (Node.lastBlock n) false,
               Some "Received invalid blocks data")) /\
  (forall err,
     Transport.getFromPeer env peer (Block.id (Node.lastBlock n)) = Thrown err ->
     result = (ProcessLoad.mkState n (Node.lastBlock n) false, Some err)).
Proof.
  intros result. subst result. unfold ProcessLoad.loadBlocksFromPeer.
  cbn [ProcessLoad.lastValidBlock].
  destruct (Transport.getFromPeer env peer _) as [blocks | err].
  - destruct (Transport.validate env blocks) eqn:Hvalid; cbn [negb].
    + assert (Hkeeps :
        let result :=
          ProcessLoad.processBlocks m env blocks
            (ProcessLoad.mkState n (Node.lastBlock n) false) in
        ProcessLoad.lastValidBlock (fst result)
        = Node.lastBlock (ProcessLoad.node (fst result)) /\
        Node.chain n `suffix_of` Node.chain (ProcessLoad.node (fst result)) /\
        (ProcessLoad.banned (fst result) = true -> snd result <> None)).
      { unfold ProcessLoad.processBlocks. destruct blocks as [| row rows].
        - cbn. split; [reflexivity |]. split; [reflexivity | discriminate].
        - destruct (eachSeries_keeps m env (Transport.readDbRows env (row :: rows)) 0
                      (ProcessLoad.mkState n (Node.lastBlock n) false) eq_refl)
            as [Hh [Hs Hb]].
          split; [exact Hh |]. split; [exact Hs |]. apply Hb. reflexivity. }
      destruct Hkeeps as [Hh [Hs Hb]].
      split; [exact Hh |]. split; [exact Hs |]. split; [exact Hb |].
      split; [intros blocks0 Heq Hinvalid; congruence | intros err Heq; discriminate].
    + cbn. split; [reflexivity |]. split; [reflexivity |]. split; [discriminate |].
      split; [intros blocks0 Heq Hinvalid; reflexivity | intros err Heq; discriminate].
  - cbn. split; [reflexivity |]. split; [reflexivity |]. split; [discriminate |].
    split; [intros blocks0 Heq; discriminate | intros err0 Heq; congruence].
Qed.

Section LoadInTurn.
Import Block Process ProcessLoad.
Context {Row : Type}.
Variable m : Modules.t.
Variable env : Transport.t Row.
Hypothesis notCleaning : forall i, Transport.isCleaning env i = false.
Hypothesis conflictsReturn :
  forall pool, exists pool', Modules.returnToQueueConflicted m pool = Returned pool'.

Lemma processedBlocks_app calls calls' :
  processedBlocks (calls ++ calls') = processedBlocks calls ++ processedBlocks calls'.
Proof. apply omap_app. Qed.

(** An accepted block: it is the new head and the new last valid block. *)
Lemma processBlock_accepted block st :
  accepted m block (Node.lastBlock (node st)) ->
  exists st',
    processBlock m block st = (st', None) /\
    Node.chain (node st') = block :: Node.chain (node st) /\
    lastValidBlock st' = block /\
    banned st' = banned st /\
    Node.locked (node st') = false /\
    processedBlocks (Node.calls (node st')) =
      processedBlocks (Node.calls (node st)) ++ [id block].
Proof.
  intros Hacc. unfold processBlock.
  rewrite newProcessBlock_accepted by exact Hacc. cbv zeta.
  match goal with
  | |- context [Modules.returnToQueueConflicted m ?pool] =>
      destruct (conflictsReturn pool) as [pool' ->]
  end.
  eexists. split; [reflexivity |]. cbn.
  split; [reflexivity |]. split; [reflexivity |]. split; [reflexivity |].
  split; [reflexivity |].
  rewrite !processedBlocks_app. cbn. now rewrite app_nil_r.
Qed.

(** A refused block: the error is passed on and the chain is as before. *)
Lemma processBlock_refused block st :
  ~ accepted m block (Node.lastBlock (node st)) ->
  exists st',
    processBlock m block st = (st', Some "Error: block is not accepted") /\
    Node.chain (node st') = Node.chain (node st) /\
    lastValidBlock st' = lastValidBlock st /\
    Node.locked (node st') = false /\
    processedBlocks (Node.calls (node st')) =
      processedBlocks (Node.calls (node st)) ++ [id block].
Proof.
  intros Hno. unfold processBlock.
  rewrite newProcessBlock_refused by exact Hno.
  eexists. split; [reflexivity |]. cbn.
  split; [reflexivity |]. split; [reflexivity |]. split; [reflexivity |].
  rewrite !processedBlocks_app. cbn. now rewrite app_nil_r.
Qed.

Lemma default_last_cons {A} (d x : A) (l : list A) :
  default d (last (x :: l)) = default x (last l).
Proof. rewrite last_cons. now destruct (last l). Qed.

(** The blocks that are accepted in turn are all put on the chain, and the
    iteration goes on with what follows them. *)
Lemma eachSeries_accepted good : forall tail i st,
  acceptedInTurn m (Node.lastBlock (node st)) good ->
  lastValidBlock st = Node.lastBlock (node st) ->
  exists st',
    eachSeries m env i (good ++ tail) st = eachSeries m env (i + length good) tail st' /\
    Node.chain (node st') = rev good ++ Node.chain (node st) /\
    lastValidBlock st' = default (Node.lastBlock (node st)) (last good) /\
    banned st' = banned st /\
    Node.locked (node st') =
      match good with [] => Node.locked (node st) | _ :: _ => false end /\
    processedBlocks (Node.calls (node st')) =
      processedBlocks (Node.calls (node st)) ++ map id good.
Proof.
  induction good as [| block good IH]; intros tail i st Hacc Hhead.
  - exists st. cbn. rewrite Nat.add_0_r, app_nil_r. repeat split; done.
  - destruct Hacc as [Hacc Hrest].
    destruct (processBlock_accepted block st Hacc)
      as [st1 [Hp [Hchain [Hlast [Hban [Hlock Hcalls]]]]]].
    assert (Hhead1 : Node.lastBlock (node st1) = block).
    { unfold Node.chain in Hchain. now injection Hchain. }
    rewrite <- Hhead1 in Hrest.
    destruct (IH tail (S i) st1 Hrest ltac:(congruence))
      as [st' [He [Hchain' [Hlast' [Hban' [Hlock' Hcalls']]]]]].
    exists st'. cbn [app eachSeries]. rewrite notCleaning, Hp, He.
    split; [f_equal; cbn; lia |].
    split; [rewrite Hchain', Hchain; cbn; now rewrite <- app_assoc |].
    split; [now rewrite Hlast', Hhead1, default_last_cons |].
    split; [congruence |].
    split; [rewrite Hlock'; destruct good; [exact Hlock | reflexivity] |].
    rewrite Hcalls', Hcalls, <- app_assoc. reflexivity.
Qed.

End LoadInTurn.

Lemma loadBlocksFromPeer_reports_the_head_witness :
  let blocks := [SampleMore.b4 110; Sample.block "0e" 5 "0d" 105] in
  let result :=
    ProcessLoad.loadBlocksFromPeer Sample.modules (peerWith blocks) "peer"
      (Sample.node [Sample.t1; Sample.t2]) in
  ProcessLoad.banned (fst result) = true /\
  snd result <> None /\
  ProcessLoad.lastValidBlock (fst result) = Node.lastBlock (ProcessLoad.node (fst result)) /\
  Node.lastBlock (ProcessLoad.node (fst result)) = SampleMore.b4 110.
Proof.
  destruct (loadBlocksFromPeer_reports_the_head Sample.modules
              (peerWith [SampleMore.b4 110; Sample.block "0e" 5 "0d" 105]) "peer"
              (Sample.node [Sample.t1; Sample.t2])) as [Hhead [_ [Hban _]]].
  split; [reflexivity |]. split; [apply Hban; reflexivity |].
  split; [exact Hhead | reflexivity].
Defined.

(** X24. [loadBlocksFromPeer] stops at the first block that is refused.
    When the blocks of the peer begin with blocks that are accepted in turn,
    followed by one that is not, then (no shutdown being requested and the
    conflict check returning) the accepted blocks are on the chain, the last
    of them is reported as last valid block (the former last block when there
    is none), the error of the refused block is reported, the peer is banned,
    the lock is released, and the blocks after the refused one are never
    handed to [newProcessBlock]. *)
Theorem loadBlocksFromPeer_stops_at_first_refused_block
    {Row : Type} (m : Modules.t) (env : Transport.t Row) (peer : string) (n : Node.t)
    (rows : list Row) (good : list Block.t) (bad : Block.t) (rest : list Block.t) :
  (forall i, Transport.isCleaning env i = false) ->
  (forall pool, exists pool', Modules.returnToQueueConflicted m pool = Returned pool') ->
  Transport.getFromPeer env peer (Block.id (Node.lastBlock n)) = Returned rows ->
  Transport.validate env rows = true ->
  rows <> [] ->
  Transport.readDbRows env rows = good ++ bad :: rest ->
  acceptedInTurn m (Node.lastBlock n) good ->
  ~ accepted m bad (default (Node.lastBlock n) (last good)) ->
  let result := ProcessLoad.loadBlocksFromPeer m env peer n in
  snd result = Some "Error: block is not accepted" /\
  ProcessLoad.banned (fst result) = true /\
  ProcessLoad.lastValidBlock (fst result) = default (Node.lastBlock n) (last good) /\
  Node.chain (ProcessLoad.node (fst result)) = rev good ++ Node.chain n /\
  Node.locked (ProcessLoad.node (fst result)) = false /\
  processedBlocks (Node.calls (ProcessLoad.node (fst result))) =
    processedBlocks (Node.calls n) ++ map Block.id (good ++ [bad]).
Proof.
  intros Hclean Hconf Hget Hvalid Hrows Hread Hgood Hbad result. subst result.
  unfold ProcessLoad.loadBlocksFromPeer. cbn [ProcessLoad.lastValidBlock].
  rewrite Hget, Hvalid. cbn [negb]. unfold ProcessLoad.processBlocks.
  destruct rows as [| row rows']; [congruence |]. rewrite Hread.
  destruct (eachSeries_accepted m env Hclean Hconf good (bad :: rest) 0%nat
              (ProcessLoad.mkState n (Node.lastBlock n) false) Hgood eq_refl)
    as [st [-> [Hchain [Hlast [Hban [Hlock Hcalls]]]]]].
  cbn [ProcessLoad.node ProcessLoad.banned] in Hchain, Hlast, Hban, Hlock, Hcalls.
  assert (Hhead : Node.lastBlock (ProcessLoad.node st)
                  = default (Node.lastBlock n) (last good)).
  { destruct (rev good) as [| b l] eqn:Hrev.
    - apply (f_equal (@rev _)) in Hrev. rewrite rev_involutive in Hrev. subst good.
      unfold Node.chain in Hchain. cbn in Hchain. now injection Hchain.
    - apply (f_equal (@rev _)) in Hrev. rewrite rev_involutive in Hrev. subst good.
      cbn [rev]. rewrite last_snoc. cbn.
      unfold Node.chain in Hchain. cbn in Hchain. now injection Hchain. }
  rewrite <- Hhead in Hbad.
  destruct (processBlock_refused m bad st Hbad)
    as [st' [Hp [Hchain' [Hlast' [Hlock' Hcalls']]]]].
  cbn [ProcessLoad.eachSeries]. rewrite Hclean, Hp. cbn.
  split; [reflexivity |]. split; [reflexivity |].
  split; [congruence |]. split; [congruence |]. split; [exact Hlock' |].
  rewrite Hcalls', Hcalls, map_app, <- app_assoc. reflexivity.
Qed.

Lemma loadBlocksFromPeer_stops_at_first_refused_block_witness :
  let blocks :=
    [SampleMore.b4 110; Sample.block "0e" 5 "0d" 105; Sample.block "0f" 6 "0e" 120] in
  let result :=
    ProcessLoad.loadBlocksFromPeer Sample.modules (peerWith blocks) "peer"
      (Sample.node [Sample.t1; Sample.t2]) in
  snd result = Some "Error: block is not accepted" /\
  ProcessLoad.banned (fst result) = true /\
  ProcessLoad.lastValidBlock (fst result) = SampleMore.b4 110 /\
  Node.chain (ProcessLoad.node (fst result)) =
    [SampleMore.b4 110; Sample.b3; Sample.b2; Sample.genesis] /\
  processedBlocks (Node.calls (ProcessLoad.node (fst result))) = ["0d"; "0e"].
Proof.
  assert (Hgood : acceptedInTurn Sample.modules
                    (Node.lastBlock (Sample.node [Sample.t1; Sample.t2]))
                    [SampleMore.b4 110]) by (repeat split).
  assert (Hbad : ~ accepted Sample.modules (Sample.block "0e" 5 "0d" 105)
                   (default (Node.lastBlock (Sample.node [Sample.t1; Sample.t2]))
                      (last [SampleMore.b4 110]))).
  { intros [_ [_ [_ [Ht _]]]]. cbn in Ht. lia. }
  destruct (loadBlocksFromPeer_stops_at_first_refused_block Sample.modules
              (peerWith [SampleMore.b4 110; Sample.block "0e" 5 "0d" 105;
                         Sample.block "0f" 6 "0e" 120])
              "peer" (Sample.node [Sample.t1; Sample.t2])
              [SampleMore.b4 110; Sample.block "0e" 5 "0d" 105;
               Sample.block "0f" 6 "0e" 120]
              [SampleMore.b4 110] (Sample.block "0e" 5 "0d" 105)
              [Sample.block "0f" 6 "0e" 120]
              (fun _ => eq_refl) (fun pool => ex_intro _ pool eq_refl)
              eq_refl eq_refl ltac:(discriminate) eq_refl Hgood Hbad)
    as [Herr [Hban [Hlast [Hchain [_ Hcalls]]]]].
  split; [exact Herr |]. split; [exact Hban |]. split; [exact Hlast |].
  split; [exact Hchain | exact Hcalls].
Defined.

(* ---------------------------------------------------------------------- *)
(** *** Chain comparison with a peer                                       *)
(* ---------------------------------------------------------------------- *)

(** X25. [getCommonBlock] starts the recovery of the chain exactly when
    the consensus is poor and the comparison itself failed: the peer named no
    common block, or the genesis height, or a block that is not in the
    database. An error of the id sequence, of the transport, of the schema or
    of the query never starts it. And the callback gets a common block
    exactly when the peer named one above height 1 that passes the schema and
    is in the database; it is then the block the peer named, without error. *)
Theorem getCommonBlock_recovers_only_after_failed_comparison
    (env : Comparison.t) (peer : string) (height : Z) :
  (ProcessCompare.getCommonBlock env peer height = RecoverChain <->
   Comparison.poorConsensus env = true /\ comparisonFailed env peer height) /\
  (forall err common,
     ProcessCompare.getCommonBlock env peer height = Callback err (Some common) <->
     err = None /\
     exists ids,
       Comparison.getIdSequence env height = Returned ids /\
       Comparison.getFromPeer env peer ids = Returned (Some common) /\
       CommonBlock.height common <> 1 /\
       Comparison.validate env common = None /\
       Comparison.found env common = Returned true).
Proof.
  unfold ProcessCompare.getCommonBlock, ProcessCompare.finish, comparisonFailed.
  destruct (Comparison.getIdSequence env height) as [ids | e1] eqn:Hids.
  2: { cbn. split; [split; [discriminate | intros [_ [ids [H _]]]; discriminate] |].
       intros err common. split; [discriminate | intros [_ [ids [H _]]]; discriminate]. }
  assert (Hex : forall Q : string -> Prop,
             (exists ids0, Returned ids = Returned ids0 /\ Q ids0) <-> Q ids).
  { intros Q. split; [intros [ids0 [[= <-] H]]; exact H | intros H; exists ids; now split]. }
  rewrite !Hex. setoid_rewrite Hex. clear Hex.
  destruct (Comparison.poorConsensus env);
    (destruct (Comparison.getFromPeer env peer ids) as [[common |] | e2] eqn:Hpeer;
     [| cbn; firstorder congruence | cbn; firstorder congruence]);
    (destruct (Z.eqb_spec (CommonBlock.height common) 1) as [Hh | Hh];
     [cbn; firstorder congruence |]);
    (destruct (Comparison.validate env common) as [message |] eqn:Hvalid;
     [cbn; firstorder congruence |]);
    destruct (Comparison.found env common) as [[|] | e3] eqn:Hfound;
    cbn; firstorder congruence.
Qed.

Lemma getCommonBlock_recovers_only_after_failed_comparison_witness :
  ProcessCompare.getCommonBlock
    (comparing (Some (CommonBlock.mk "c4" "b1" 70)) true) "peer" 3 = RecoverChain /\
  ProcessCompare.getCommonBlock
    (comparing (Some (CommonBlock.mk "b1" "a0" 2)) true) "peer" 3
  = Callback None (Some (CommonBlock.mk "b1" "a0" 2)).
Proof.
  split.
  - apply getCommonBlock_recovers_only_after_failed_comparison.
    split; [reflexivity |]. exists "ff01,b1,a0". split; [reflexivity |].
    right. exists (CommonBlock.mk "c4" "b1" 70). split; [reflexivity |].
    right. split; reflexivity.
  - apply getCommonBlock_recovers_only_after_failed_comparison.
    split; [reflexivity |]. exists "ff01,b1,a0".
    split; [reflexivity |]. split; [reflexivity |]. split; [discriminate |].
    split; reflexivity.
Defined.

(* ---------------------------------------------------------------------- *)
(** *** The former block generation                                        *)
(* ---------------------------------------------------------------------- *)

Section LegacyGenerate.
Import ProcessLegacy.
Variable env : Legacy.t.

Lemma checkTransaction_passes transaction ready :
  passes env transaction ->
  exists err, checkTransaction env transaction ready = (ready ++ [transaction], err) /\
              Js.truthyOptStr err = false.
Proof.
  intros [sender [Hs [Hr Hv]]]. unfold checkTransaction. rewrite Hs, Hr, Hv.
  cbn [negb]. eexists. split; [reflexivity | exact Hv].
Qed.

Lemma checkTransaction_fails transaction ready :
  ~ passes env transaction ->
  exists err, checkTransaction env transaction ready = (ready, Some err) /\
              Js.truthyStr err = true.
Proof.
  intros Hno. unfold checkTransaction.
  destruct (Legacy.getAccount env _) as [[sender |] | e] eqn:Hs;
    [| eexists; split; reflexivity | eexists; split; reflexivity].
  destruct (Legacy.ready env transaction sender) eqn:Hr;
    [| eexists; split; reflexivity].
  destruct (Legacy.verify env transaction sender) as [error |] eqn:Hv.
  - destruct (Js.truthyStr error) eqn:Ht.
    + cbn [Js.truthyOptStr negb]. rewrite Ht. cbn. eexists. split; [reflexivity | exact Ht].
    + exfalso. apply Hno. exists sender. rewrite Hv. repeat split; assumption.
  - exfalso. apply Hno. exists sender. rewrite Hv. repeat split; assumption.
Qed.

Lemma passes_dec transaction : passes env transaction \/ ~ passes env transaction.
Proof.
  unfold passes.
  destruct (Legacy.getAccount env (Transaction.senderPublicKey transaction))
    as [[sender |] | e] eqn:Hs.
  - destruct (Legacy.ready env transaction sender) eqn:Hr.
    + destruct (Js.truthyOptStr (Legacy.verify env transaction sender)) eqn:Hv.
      * right. intros [s [[= <-] [_ H]]]. congruence.
      * left. exists sender. repeat split; assumption.
    + right. intros [s [[= <-] [H _]]]. congruence.
  - right. intros [s [H _]]. discriminate.
  - right. intros [s [H _]]. discriminate.
Qed.

(** The transactions that pass are collected in [ready], in their order. *)
Lemma eachSeries_passes before : forall rest ready,
  Forall (passes env) before ->
  eachSeries env (before ++ rest) ready = eachSeries env rest (ready ++ before).
Proof.
  induction before as [| transaction before IH]; intros rest ready Hall.
  - now rewrite app_nil_r.
  - inversion Hall as [| ? ? Hp Hrest]; subst.
    destruct (checkTransaction_passes transaction ready Hp) as [err [Hc Hf]].
    cbn [app eachSeries]. rewrite Hc, Hf, IH by exact Hrest.
    now rewrite <- app_assoc.
Qed.

(** Without an error at the end, every transaction passed. *)
Lemma eachSeries_no_error transactions : forall ready ready',
  eachSeries env transactions ready = (ready', None) ->
  Forall (passes env) transactions.
Proof.
  induction transactions as [| transaction rest IH]; intros ready ready' H.
  - constructor.
  - destruct (passes_dec transaction) as [Hp | Hno].
    + constructor; [exact Hp |].
      destruct (checkTransaction_passes transaction ready Hp) as [err [Hc Hf]].
      cbn [eachSeries] in H. rewrite Hc, Hf in H. exact (IH _ _ H).
    + destruct (checkTransaction_fails transaction ready Hno) as [err [Hc Ht]].
      cbn [eachSeries] in H. rewrite Hc in H. cbn [Js.truthyOptStr] in H.
      rewrite Ht in H. discriminate.
Qed.

End LegacyGenerate.

(** X26. [generateBlock] creates a block from all the unconfirmed
    transactions it was given or from none: [library.logic.block.create] is
    reached only when every transaction has its sender, is ready and
    verifies, and then [ready] is the whole list in its order. At the first
    transaction that does not pass, its error is passed on, no block is
    created, and the transactions after it are not looked at. *)
Theorem generateBlock_all_or_nothing
    (m : Modules.t) (env : Legacy.t) (keypair : IKeyPair) (timestamp : Z) (n : Node.t) :
  let transactions :=
    Legacy.getUnconfirmedTransactionList env (Modules.maxTxsPerBlock m) in
  let result := ProcessLegacy.generateBlock m env keypair timestamp n in
  (forall block err,
     result = Processed block err <->
     Forall (passes env) transactions /\
     Modules.blockCreate m keypair timestamp (Node.lastBlock n) transactions
     = Returned block /\
     err = Legacy.processBlock env block) /\
  (forall before transaction after,
     transactions = before ++ transaction :: after ->
     Forall (passes env) before ->
     ~ passes env transaction ->
     exists err,
       ProcessLegacy.checkTransaction env transaction before = (before, Some err) /\
       result = NotCreated err).
Proof.
  intros transactions result. subst result. unfold ProcessLegacy.generateBlock.
  fold transactions. split.
  - intros block err. split.
    + destruct (ProcessLegacy.eachSeries env transactions []) as [ready [e |]] eqn:Heach;
        [discriminate |].
      pose proof (eachSeries_no_error env transactions _ _ Heach) as Hall.
      pose proof (eachSeries_passes env transactions [] [] Hall) as Hready.
      rewrite app_nil_r, Heach in Hready. cbn in Hready. injection Hready as ->.
      destruct (Modules.blockCreate m keypair timestamp _ transactions) as [b | e];
        [| discriminate].
      intros [= <- <-]. repeat split; assumption.
    + intros [Hall [Hcreate ->]].
      pose proof (eachSeries_passes env transactions [] [] Hall) as Hready.
      rewrite app_nil_r in Hready. rewrite Hready. cbn. now rewrite Hcreate.
  - intros before transaction after Hsplit Hall Hno.
    destruct (checkTransaction_fails env transaction before Hno) as [err [Hc Ht]].
    exists err. split; [exact Hc |].
    rewrite Hsplit, (eachSeries_passes env before (transaction :: after) [] Hall).
    cbn [app ProcessLegacy.eachSeries]. rewrite Hc. cbn [Js.truthyOptStr].
    now rewrite Ht.
Qed.

Lemma generateBlock_all_or_nothing_witness :
  ProcessLegacy.generateBlock Sample.modules (legacyWith [Sample.t1]) Sample.keyPair 110
    (Sample.node [])
  = Processed (Block.mk "0c" 4 "ff01" 110 "0102" [Sample.t1]) None /\
  ProcessLegacy.generateBlock Sample.modules (legacyWith [Sample.t1; Sample.t2; Sample.t1])
    Sample.keyPair 110 (Sample.node [])
  = NotCreated "Transaction aa02 not ready".
Proof.
  split.
  - apply generateBlock_all_or_nothing. split; [| split; reflexivity].
    repeat constructor. exists (Sample.account 100 0). repeat split.
  - destruct (generateBlock_all_or_nothing Sample.modules
                (legacyWith [Sample.t1; Sample.t2; Sample.t1]) Sample.keyPair 110
                (Sample.node [])) as [_ Hstop].
    destruct (Hstop [Sample.t1] Sample.t2 [Sample.t1] eq_refl) as [err [Hc Hresult]].
    + repeat constructor. exists (Sample.account 100 0). repeat split.
    + intros [sender [_ [Hready _]]]. discriminate.
    + injection Hc as <-. exact Hresult.
Defined.

(* ---------------------------------------------------------------------- *)
(** *** The referral list                                                  *)
(* ---------------------------------------------------------------------- *)

Section Sponsors.
Import Referal.
Variable query : Query.

Lemma findSponsors_levels fuel : forall level referList hierarchy,
  1 <= level <= 16 ->
  (Z.to_nat (16 - level) < fuel)%nat ->
  (exists err, findSponsors query fuel level referList hierarchy = Raised err) \/
  exists added,
    findSponsors query fuel level referList hierarchy = Done (hierarchy ++ added) /\
    map fst added = seqZ level (Z.of_nat (length added)) /\
    foundInTurn query referList (map snd added) /\
    level + Z.of_nat (length added) <= 16 /\
    (level + Z.of_nat (length added) < 16 ->
     query (default referList (last (map snd added))) = Returned []).
Proof.
  induction fuel as [| fuel IH]; intros level referList hierarchy Hlevel Hfuel; [lia |].
  cbn [findSponsors].
  destruct (Z.leb_spec level 15) as [Hle | Hgt].
  - destruct (query referList) as [[| address resp] | err] eqn:Hq.
    + right. exists []. rewrite app_nil_r. cbn. repeat split; try done; lia.
    + destruct (IH (level + 1) (address :: resp) (hierarchy ++ [(level, address :: resp)])
                  ltac:(lia) ltac:(lia))
        as [[err Herr] | [added [Hdone [Hkeys [Hturn [Hmax Hend]]]]]].
      * left. exists err. exact Herr.
      * right. exists ((level, address :: resp) :: added).
        split; [rewrite Hdone, <- app_assoc; reflexivity |].
        split.
        { cbn [map fst length]. rewrite Hkeys.
          replace (Z.of_nat (S (length added))) with (Z.succ (Z.of_nat (length added))) by lia.
          rewrite (seqZ_cons level) by lia. rewrite Z.pred_succ.
          now replace (Z.succ level) with (level + 1) by lia. }
        split; [cbn; repeat split; [exact Hq | discriminate | exact Hturn] |].
        cbn [length]. split; [lia |].
        intros Hlt. cbn [map snd]. rewrite default_last_cons. apply Hend. lia.
    + left. exists err. reflexivity.
  - right. exists []. rewrite app_nil_r. cbn. repeat split; try done; lia.
Qed.

End Sponsors.

(** X27. The handler of [/referral/list] always ends, also when the
    referral data go in a circle: sixteen nested calls of [findSponsors] are
    enough. Its answer is the error of a query,
    or a list of at most fifteen levels, numbered from 1 without gap, none of
    them empty, the first being what the query finds for the referrer and
    each further one what it finds for the level before; when there are fewer
    than fifteen levels, nothing is found for the last one. *)
Theorem referral_list_has_at_most_fifteen_levels
    (query : Referal.Query) (fuel : nat) (referrer_address : string) :
  (16 <= fuel)%nat ->
  (exists err, Referal.referralList query fuel referrer_address = Done (Referal.Status400 err)) \/
  exists hierarchy,
    Referal.referralList query fuel referrer_address = Done (Referal.Status200 hierarchy) /\
    (length hierarchy <= 15)%nat /\
    map fst hierarchy = seqZ 1 (Z.of_nat (length hierarchy)) /\
    foundInTurn query [referrer_address] (map snd hierarchy) /\
    ((length hierarchy < 15)%nat ->
     query (default [referrer_address] (last (map snd hierarchy))) = Returned []).
Proof.
  intros Hfuel. unfold Referal.referralList.
  destruct (findSponsors_levels query fuel 1 [referrer_address] [] ltac:(lia) ltac:(lia))
    as [[err ->] | [hierarchy [-> [Hkeys [Hturn [Hmax Hend]]]]]].
  - left. exists err. reflexivity.
  - right. exists hierarchy. cbn [app]. split; [reflexivity |].
    split; [lia |]. split; [exact Hkeys |]. split; [exact Hturn |].
    intros Hlt. apply Hend. lia.
Qed.

Lemma referral_list_has_at_most_fifteen_levels_witness :
  exists hierarchy,
    Referal.referralList cyclic 16 "a" = Done (Referal.Status200 hierarchy) /\
    length hierarchy = 15%nat /\
    map fst hierarchy = seqZ 1 15.
Proof.
  destruct (referral_list_has_at_most_fifteen_levels cyclic 16 "a" ltac:(lia))
    as [[err Herr] | [hierarchy [Hdone [_ [Hkeys _]]]]].
  - vm_compute in Herr. discriminate Herr.
  - exists hierarchy. split; [exact Hdone |].
    vm_compute in Hdone. injection Hdone as <-.
    split; reflexivity.
Defined.

(* ---------------------------------------------------------------------- *)
(** *** The vote asset                                                     *)
(* ---------------------------------------------------------------------- *)

Section VoteAsset.
Import Vote.

Lemma mapSet_new key value entries :
  key ∉ map fst entries -> mapSet key value entries = entries ++ [(key, value)].
Proof.
  induction entries as [| [k v] rest IH]; intros Hnew; [reflexivity |].
  cbn in *. apply not_elem_of_cons in Hnew as [Hne Hrest].
  destruct (Z.eqb_spec k key) as [-> | _]; [done |]. now rewrite IH.
Qed.

Lemma newMap_snoc entries e :
  newMap (entries ++ [e]) = mapSet (fst e) (snd e) (newMap entries).
Proof. unfold newMap. now rewrite foldl_app. Qed.

(** The entries of a [Map] make the same [Map] again. *)
Lemma newMap_of_map entries : NoDup (map fst entries) -> newMap entries = entries.
Proof.
  induction entries as [| e entries IH] using rev_ind; intros Hnodup; [reflexivity |].
  rewrite map_app in Hnodup. cbn in Hnodup.
  apply NoDup_app in Hnodup as [Hrest [Hnew _]].
  rewrite newMap_snoc, IH by exact Hrest.
  destruct e as [k v]. apply mapSet_new. intros Hin. apply (Hnew k Hin). left.
Qed.

Lemma mapSet_keys key value entries :
  map fst (mapSet key value entries) =
  if bool_decide (key ∈ map fst entries) then map fst entries
  else map fst entries ++ [key].
Proof.
  induction entries as [| [k v] rest IH]; [reflexivity |]. cbn.
  destruct (Z.eqb_spec k key) as [-> | Hne].
  - rewrite bool_decide_eq_true_2 by left. reflexivity.
  - cbn. rewrite IH. destruct (decide (key ∈ map fst rest)) as [Hin | Hout].
    + rewrite !bool_decide_eq_true_2; [reflexivity | now right | exact Hin].
    + rewrite !bool_decide_eq_false_2; [reflexivity | | exact Hout].
      intros Hin. apply elem_of_cons in Hin as [-> | Hin]; done.
Qed.

Lemma mapSet_NoDup key value entries :
  NoDup (map fst entries) -> NoDup (map fst (mapSet key value entries)).
Proof.
  intros Hnodup. rewrite mapSet_keys. case_bool_decide as Hin; [exact Hnodup |].
  apply NoDup_app. split; [exact Hnodup |]. split; [| apply NoDup_singleton].
  intros k Hk Hin'. apply list_elem_of_singleton in Hin'. now subst.
Qed.

Lemma mapGet_mapSet key value k entries :
  mapGet k (mapSet key value entries) =
  if key =? k then Some value else mapGet k entries.
Proof.
  induction entries as [| [k0 v0] rest IH]; cbn.
  - reflexivity.
  - destruct (Z.eqb_spec k0 key) as [-> | Hne]; cbn.
    + now destruct (key =? k).
    + rewrite IH. destruct (Z.eqb_spec k0 k) as [-> | Hne'].
      * destruct (Z.eqb_spec key k); [congruence | reflexivity].
      * reflexivity.
Qed.

(** A [Map] made from entries holds each key once, with the value of the
    last entry for it. *)
Lemma newMap_last entries :
  NoDup (map fst (newMap entries)) /\
  forall key, mapGet key (newMap entries) = mapGet key (rev entries).
Proof.
  induction entries as [| e entries [IHn IHg]] using rev_ind.
  - split; [constructor | reflexivity].
  - rewrite newMap_snoc. split; [apply mapSet_NoDup, IHn |].
    intros key. rewrite mapGet_mapSet, rev_app_distr. destruct e as [k v]. cbn.
    destruct (k =? key); [reflexivity | apply IHg].
Qed.

Lemma mapO_returns {A B} (f : A -> Outcome B) (g : A -> B) l :
  (forall a, a ∈ l -> f a = Returned (g a)) -> mapO f l = Returned (map g l).
Proof.
  induction l as [| a l IH]; intros Hf; [reflexivity |].
  cbn. rewrite (Hf a) by left. cbn. rewrite IH; [reflexivity |].
  intros a' Hin. apply Hf. now right.
Qed.

Lemma mapO_inverse {A B} (f : B -> Outcome A) (h : A -> B) l :
  (forall a, a ∈ l -> f (h a) = Returned a) -> mapO f (map h l) = Returned l.
Proof.
  induction l as [| a l IH]; intros Hf; [reflexivity |].
  cbn. rewrite (Hf a) by left. cbn. rewrite IH; [reflexivity |].
  intros a' Hin. apply Hf. now right.
Qed.

Lemma mapO_Forall2 {A B} (f : A -> Outcome B) l : forall bs,
  mapO f l = Returned bs -> Forall2 (fun b a => f a = Returned b) bs l.
Proof.
  induction l as [| a l IH]; intros bs H; cbn in H.
  - injection H as <-. constructor.
  - destruct (f a) as [b | e] eqn:Hf; [| discriminate]. cbn in H.
    destruct (mapO f l) as [bs' | e]; [| discriminate]. cbn in H.
    injection H as <-. constructor; [exact Hf | now apply IH].
Qed.

End VoteAsset.

(** X28. [deserialize] gives back the asset that [serialize] was given:
    the votes, the reward, the unstake, and the sponsors with their rewards
    in the order of the [Map], whenever [BigInt] reads the text of each
    sponsor address as that address. *)
Theorem deserialize_serialize (text : Vote.BigIntText) (asset : Vote.IAssetVote) :
  NoDup (map fst (Vote.sponsors asset)) ->
  (forall key, key ∈ map fst (Vote.sponsors asset) ->
               Vote.BigInt text (Vote.toString text key) = Returned key) ->
  Vote.deserialize text (Vote.serialize text asset) = Returned asset.
Proof.
  intros Hnodup Htext. unfold Vote.deserialize, Vote.serialize.
  cbn [Vote.raw_sponsors Vote.raw_votes Vote.raw_reward Vote.raw_unstake].
  rewrite mapO_inverse.
  - cbn. rewrite newMap_of_map by exact Hnodup. now destruct asset.
  - intros [key value] Hin. cbn. rewrite Htext; [reflexivity |].
    apply list_elem_of_In, in_map_iff. exists (key, value).
    split; [reflexivity | now apply list_elem_of_In].
Qed.

Lemma deserialize_serialize_witness :
  let asset := Vote.mkAsset ["+83cb3d86"] 5 0 [(4995063339468361088, 10); (-7, 3); (0, 1)] in
  Vote.raw_sponsors (Vote.serialize Decimal.text asset)
  = [("4995063339468361088", 10); ("-7", 3); ("0", 1)] /\
  Vote.deserialize Decimal.text (Vote.serialize Decimal.text asset) = Returned asset.
Proof.
  split; [vm_compute; reflexivity |].
  apply deserialize_serialize.
  - cbn. repeat (apply NoDup_cons_2; [rewrite ?elem_of_cons, elem_of_nil; lia |]).
    apply NoDup_nil_2.
  - intros key Hin. cbn in Hin.
    repeat (apply elem_of_cons in Hin as [-> | Hin]; [vm_compute; reflexivity |]).
    now apply elem_of_nil in Hin.
Defined.

(** X29. The sponsors that [deserialize] returns hold each address once:
    of the raw pairs whose texts [BigInt] reads as one address, only the
    reward of the last is kept. So raw data that name a sponsor twice, or
    twice in different spellings, do not come back from [serialize]. *)
Theorem deserialize_keeps_the_last_reward
    (text : Vote.BigIntText) (rawAsset : Vote.RawAsset) (asset : Vote.IAssetVote) :
  Vote.deserialize text rawAsset = Returned asset ->
  NoDup (map fst (Vote.sponsors asset)) /\
  exists entries,
    Forall2 (fun entry elem =>
               Vote.BigInt text (fst elem) = Returned (fst entry) /\ snd entry = snd elem)
            entries (Vote.raw_sponsors rawAsset) /\
    forall key,
      Vote.mapGet key (Vote.sponsors asset) = Vote.mapGet key (rev entries).
Proof.
  unfold Vote.deserialize. intros H.
  destruct (Vote.mapO _ (Vote.raw_sponsors rawAsset)) as [entries | e] eqn:Hmap;
    [| discriminate].
  cbn in H. injection H as <-. cbn [Vote.sponsors].
  destruct (newMap_last entries) as [Hnodup Hget].
  split; [exact Hnodup |]. exists entries. split; [| exact Hget].
  apply mapO_Forall2 in Hmap.
  eapply Forall2_impl; [exact Hmap |].
  intros [k v] [s r]. cbn. destruct (Vote.BigInt text s); [| discriminate].
  cbn. intros [= <- <-]. now split.
Qed.

Lemma deserialize_keeps_the_last_reward_witness :
  let rawAsset := Vote.mkRaw [] 0 0 [("7", 1); ("12", 5); ("07", 2)] in
  exists asset,
    Vote.deserialize Decimal.text rawAsset = Returned asset /\
    Vote.sponsors asset = [(7, 2); (12, 5)] /\
    NoDup (map fst (Vote.sponsors asset)) /\
    Vote.serialize Decimal.text asset <> rawAsset.
Proof.
  exists (Vote.mkAsset [] 0 0 [(7, 2); (12, 5)]).
  split; [vm_compute; reflexivity |]. split; [reflexivity |].
  split; [| vm_compute; discriminate].
  apply (deserialize_keeps_the_last_reward Decimal.text
           (Vote.mkRaw [] 0 0 [("7", 1); ("12", 5); ("07", 2)])).
  vm_compute. reflexivity.
Defined.
